(** * Snowball Night Run: the simulation core of [app/index.tsx]

    A shallow embedding of the game's fixed-step simulation: the mutable
    object behind [stateRef], the tile and collectible lists behind
    [gameDataRef], the id counters, the tap handler, the physics step
    [updatePhysics] and the accumulator loop [gameLoop].

    Numbers.  JavaScript numbers are modelled as exact rationals ([Q]);
    rounding of IEEE doubles is not modelled.  The two frame timers, the ids
    and the tap timestamps only ever hold integers and are modelled as [Z].
    A sum built up over many steps is exact here and rounded in the code, so
    what is stated about such sums (the speed ramp, the arc of a jump, the
    count of catch-up steps) is stated with a margin, or stops short of the
    value at which a comparison would turn on the last digit.

    Randomness.  Every function that calls [Math.random] takes a stream
    [rnd : nat -> Q]; [rnd k] is the value returned by the k-th call made
    during that invocation, the calls made for the particles not counted:
    the snow phase of a step is a function of its own, [snow], with a stream
    of its own.
    [Math.random] returns a value in [0, 1); the theorems that depend on it
    assume exactly that.

    Left out: the death particles, audio, haptics, fonts and the throttled
    copy of the lists into React state.  None of them is read back by the
    simulation. *)

From Stdlib Require Import QArith Qminmax Qabs Qround ZArith List Lia Lqa Bool.
Import ListNotations.
Open Scope Q_scope.

(** ** Comparisons on numbers, as booleans *)

Definition Qltb (x y : Q) : bool := negb (Qle_bool y x).
Definition Qgtb (x y : Q) : bool := Qltb y x.
Definition Qleb (x y : Q) : bool := Qle_bool x y.
Definition Qgeb (x y : Q) : bool := Qle_bool y x.

(** ** Constants (lines 18-39) *)

Definition TARGET_FPS : Q := 60.
Definition TIME_STEP : Q := 1000 / TARGET_FPS.

Definition GRAVITY : Q := 0.6.
Definition JUMP_FORCE : Q := -14.
Definition DOUBLE_JUMP_FORCE : Q := -11.
Definition TERMINAL_VELOCITY : Q := 20.
Definition INITIAL_SPEED : Q := 3.5.
Definition SPEED_INCREMENT : Q := 0.0008.
Definition MAX_SPEED : Q := 9.

Definition SNOWBALL_SIZE : Q := 40.
Definition TILE_HEIGHT : Q := 60.

Definition TILE_WIDTHS : list Q := [120; 180; 250; 400].
Definition GAP_SIZES : list Q := [100; 150; 200].

Definition COYOTE_TIME : Z := 8.
Definition JUMP_BUFFER_TIME : Z := 6.
Definition LANDING_TOLERANCE : Q := 30.

(** ** Data model (lines 41-58, 131-145) *)

Inductive GameState : Type := start | playing | gameOver.

Inductive TileType : Type := short | medium | long.

Module TileData.
Record t : Type := mk
  { id : Z;
    x : Q;
    width : Q;
    type : TileType }.
End TileData.

Module CollectibleData.
Record t : Type := mk
  { id : Z;
    x : Q;
    tileId : Z;
    collected : bool }.

(** [col.collected = true] *)
Definition set_collected (b : bool) (c : t) : t :=
  mk (id c) (x c) (tileId c) b.
End CollectibleData.

(** The object held by [stateRef.current]. *)
Record State : Type := mkState
  { snowballY : Q;
    velocity : Q;
    cameraX : Q;
    speed : Q;
    isOnGround : bool;
    hasDoubleJump : bool;
    score : Q;
    lastTime : Q;
    accumulator : Q;
    frameCounter : Z;
    coyoteTimer : Z;
    jumpBufferTimer : Z;
    lastGroundY : Q }.

(** Field assignments [state.f = v]. *)
Definition set_snowballY (v : Q) (s : State) : State :=
  mkState v (velocity s) (cameraX s) (speed s) (isOnGround s) (hasDoubleJump s)
    (score s) (lastTime s) (accumulator s) (frameCounter s) (coyoteTimer s)
    (jumpBufferTimer s) (lastGroundY s).
Definition set_velocity (v : Q) (s : State) : State :=
  mkState (snowballY s) v (cameraX s) (speed s) (isOnGround s) (hasDoubleJump s)
    (score s) (lastTime s) (accumulator s) (frameCounter s) (coyoteTimer s)
    (jumpBufferTimer s) (lastGroundY s).
Definition set_cameraX (v : Q) (s : State) : State :=
  mkState (snowballY s) (velocity s) v (speed s) (isOnGround s)
    (hasDoubleJump s) (score s) (lastTime s) (accumulator s) (frameCounter s)
    (coyoteTimer s) (jumpBufferTimer s) (lastGroundY s).
Definition set_speed (v : Q) (s : State) : State :=
  mkState (snowballY s) (velocity s) (cameraX s) v (isOnGround s)
    (hasDoubleJump s) (score s) (lastTime s) (accumulator s) (frameCounter s)
    (coyoteTimer s) (jumpBufferTimer s) (lastGroundY s).
Definition set_isOnGround (v : bool) (s : State) : State :=
  mkState (snowballY s) (velocity s) (cameraX s) (speed s) v (hasDoubleJump s)
    (score s) (lastTime s) (accumulator s) (frameCounter s) (coyoteTimer s)
    (jumpBufferTimer s) (lastGroundY s).
Definition set_hasDoubleJump (v : bool) (s : State) : State :=
  mkState (snowballY s) (velocity s) (cameraX s) (speed s) (isOnGround s) v
    (score s) (lastTime s) (accumulator s) (frameCounter s) (coyoteTimer s)
    (jumpBufferTimer s) (lastGroundY s).
Definition set_score (v : Q) (s : State) : State :=
  mkState (snowballY s) (velocity s) (cameraX s) (speed s) (isOnGround s)
    (hasDoubleJump s) v (lastTime s) (accumulator s) (frameCounter s)
    (coyoteTimer s) (jumpBufferTimer s) (lastGroundY s).
Definition set_lastTime (v : Q) (s : State) : State :=
  mkState (snowballY s) (velocity s) (cameraX s) (speed s) (isOnGround s)
    (hasDoubleJump s) (score s) v (accumulator s) (frameCounter s)
    (coyoteTimer s) (jumpBufferTimer s) (lastGroundY s).
Definition set_accumulator (v : Q) (s : State) : State :=
  mkState (snowballY s) (velocity s) (cameraX s) (speed s) (isOnGround s)
    (hasDoubleJump s) (score s) (lastTime s) v (frameCounter s)
    (coyoteTimer s) (jumpBufferTimer s) (lastGroundY s).
Definition set_frameCounter (v : Z) (s : State) : State :=
  mkState (snowballY s) (velocity s) (cameraX s) (speed s) (isOnGround s)
    (hasDoubleJump s) (score s) (lastTime s) (accumulator s) v
    (coyoteTimer s) (jumpBufferTimer s) (lastGroundY s).
Definition set_coyoteTimer (v : Z) (s : State) : State :=
  mkState (snowballY s) (velocity s) (cameraX s) (speed s) (isOnGround s)
    (hasDoubleJump s) (score s) (lastTime s) (accumulator s) (frameCounter s)
    v (jumpBufferTimer s) (lastGroundY s).
Definition set_jumpBufferTimer (v : Z) (s : State) : State :=
  mkState (snowballY s) (velocity s) (cameraX s) (speed s) (isOnGround s)
    (hasDoubleJump s) (score s) (lastTime s) (accumulator s) (frameCounter s)
    (coyoteTimer s) v (lastGroundY s).
Definition set_lastGroundY (v : Q) (s : State) : State :=
  mkState (snowballY s) (velocity s) (cameraX s) (speed s) (isOnGround s)
    (hasDoubleJump s) (score s) (lastTime s) (accumulator s) (frameCounter s)
    (coyoteTimer s) (jumpBufferTimer s) v.

(** Everything the simulation mutates: [stateRef.current], the lists of
    [gameDataRef.current], the two id counters, the React [gameState] and
    [lastTapTimeRef.current].  [gameState] changes at the call of
    [setGameState]; the delay until React renders again is not modelled. *)
Record Game : Type := mkGame
  { state : State;
    tiles : list TileData.t;
    collectibles : list CollectibleData.t;
    tileIdCounter : Z;
    collectibleIdCounter : Z;
    gameState : GameState;
    lastTapTime : Z }.

Definition set_state (s : State) (g : Game) : Game :=
  mkGame s (tiles g) (collectibles g) (tileIdCounter g)
    (collectibleIdCounter g) (gameState g) (lastTapTime g).
Definition set_gameState (v : GameState) (g : Game) : Game :=
  mkGame (state g) (tiles g) (collectibles g) (tileIdCounter g)
    (collectibleIdCounter g) v (lastTapTime g).
Definition set_lastTapTime (v : Z) (g : Game) : Game :=
  mkGame (state g) (tiles g) (collectibles g) (tileIdCounter g)
    (collectibleIdCounter g) (gameState g) v.

(** ** The physics step, block by block *)

(** Lines 423-425: gravity, clamp, move. *)
Definition integrate (s : State) : State :=
  let s := set_velocity (velocity s + GRAVITY) s in
  let s := set_velocity (Qmin (velocity s) TERMINAL_VELOCITY) s in
  set_snowballY (snowballY s + velocity s) s.

(** Lines 427-429: speed ramp, camera scroll and passive score. *)
Definition advance (s : State) : State :=
  let s := set_speed (Qmin (speed s + SPEED_INCREMENT) MAX_SPEED) s in
  let s := set_cameraX (cameraX s + speed s) s in
  set_score (score s + speed s / 100) s.

(** Lines 431-432: the two frame timers count down to zero. *)
Definition decayTimers (s : State) : State :=
  let s := if (0 <? jumpBufferTimer s)%Z
           then set_jumpBufferTimer (jumpBufferTimer s - 1) s else s in
  if (0 <? coyoteTimer s)%Z
  then set_coyoteTimer (coyoteTimer s - 1) s else s.

(** Lines 453-458: the snap onto the surface.  [tileY] is [TILE_Y]. *)
Definition land (tileY : Q) (s : State) : State :=
  let s := set_snowballY (tileY - SNOWBALL_SIZE) s in
  let s := set_velocity 0 s in
  let s := set_isOnGround true s in
  let s := set_hasDoubleJump false s in
  let s := set_coyoteTimer COYOTE_TIME s in
  set_lastGroundY (snowballY s) s.

(** Lines 462-468: a buffered jump fires on touchdown. *)
Definition autoJump (s : State) : State :=
  if (0 <? jumpBufferTimer s)%Z then
    let s := set_velocity JUMP_FORCE s in
    let s := set_isOnGround false s in
    let s := set_hasDoubleJump true s in
    set_jumpBufferTimer 0 s
  else s.

(** Line 447. *)
Definition horizontalOverlap (snowballLeft snowballRight : Q)
    (tile : TileData.t) : bool :=
  let halfWidth := TileData.width tile / 2 in
  let tileLeft := TileData.x tile - halfWidth in
  let tileRight := TileData.x tile + halfWidth in
  Qgtb snowballRight tileLeft && Qltb snowballLeft tileRight.

(** Line 452, with [distanceToSurface = snowballBottom - TILE_Y]. *)
Definition landingCondition (tileY snowballBottom : Q) (s : State) : bool :=
  let distanceToSurface := snowballBottom - tileY in
  Qgeb distanceToSurface 0 && Qleb distanceToSurface LANDING_TOLERANCE
  && Qgeb (velocity s) 0.

(** The flags [onTile] and [shouldLand] together with the state. *)
Record Collision : Type := mkCollision
  { col_state : State;
    onTile : bool;
    shouldLand : bool }.

(** Lines 442-474: the loop over the tiles.  It stops at the first tile on
    which the ball lands ([break]); a tile that is only overlapped while the
    ball is within 5 of its last grounded height sets [onTile]. *)
Fixpoint collide (tileY snowballBottom snowballLeft snowballRight : Q)
    (ts : list TileData.t) (s : State) (onTile0 : bool) : Collision :=
  match ts with
  | [] => mkCollision s onTile0 false
  | tile :: ts' =>
    if horizontalOverlap snowballLeft snowballRight tile then
      if landingCondition tileY snowballBottom s then
        mkCollision (autoJump (land tileY s)) true true
      else if Qltb (Qabs (snowballY s - lastGroundY s)) 5 then
        collide tileY snowballBottom snowballLeft snowballRight ts' s true
      else
        collide tileY snowballBottom snowballLeft snowballRight ts' s onTile0
    else
      collide tileY snowballBottom snowballLeft snowballRight ts' s onTile0
  end.

(** Lines 476-479: walking off an edge starts the coyote window. *)
Definition leaveGround (c : Collision) : State :=
  let s := col_state c in
  if negb (shouldLand c) && isOnGround s && negb (onTile c) then
    set_coyoteTimer COYOTE_TIME (set_isOnGround false s)
  else s.

(** [arr[Math.floor(Math.random() * arr.length)]] for a draw [r]; a draw in
    [0, 1) always indexes inside the array. *)
Definition pick (arr : list Q) (r : Q) : Q :=
  nth (Z.to_nat (Qfloor (r * inject_Z (Z.of_nat (length arr))))) arr 0.

(** [arr[arr.length - 1]], undefined on the empty array. *)
Fixpoint lastOf {A : Type} (arr : list A) : option A :=
  match arr with
  | [] => None
  | [a] => Some a
  | _ :: arr' => lastOf arr'
  end.

Definition tileRight (tile : TileData.t) : Q :=
  TileData.x tile + TileData.width tile / 2.

(** Lines 516-524: pick up every collectible in reach; a collected one is
    skipped. *)
Fixpoint collect (tileY : Q) (cs : list CollectibleData.t) (s : State)
    : list CollectibleData.t * State :=
  match cs with
  | [] => ([], s)
  | col :: cs' =>
    if CollectibleData.collected col then
      let '(cs'', s') := collect tileY cs' s in (col :: cs'', s')
    else
      let dx := Qabs (CollectibleData.x col - cameraX s) in
      if Qltb dx 40 && Qltb (Qabs (snowballY s - (tileY - 70))) 50 then
        let col := CollectibleData.set_collected true col in
        let s := set_score (score s + 10) s in
        let '(cs'', s') := collect tileY cs' s in (col :: cs'', s')
      else
        let '(cs'', s') := collect tileY cs' s in (col :: cs'', s')
  end.

(** Lines 364-397: of [handleGameOver] only the state change is kept. *)
Definition handleGameOver (g : Game) : Game := set_gameState gameOver g.

(** A snow particle (lines 60-69). *)
Module ParticleData.
Record t : Type := mk
  { id : Z;
    x : Q;
    y : Q;
    vx : Q;
    vy : Q;
    opacity : Q;
    size : Q;
    life : Q }.
End ParticleData.

(** The box of the outermost [View] a component renders. *)
Module View.
Record t : Type := mk
  { left : Q;
    top : Q;
    width : Q;
    height : Q }.
End View.

(** [Dimensions.get('window')], read once when the module is loaded. *)
Class Screen : Type := mkScreen
  { SCREEN_WIDTH : Q;
    SCREEN_HEIGHT : Q }.

Section Model.

Context {screen : Screen}.

Definition SPAWN_AHEAD_DISTANCE : Q := SCREEN_WIDTH * 1.5.
Definition TILE_Y : Q := SCREEN_HEIGHT - 200.

(** The value [stateRef.current] is reset to (lines 204-218). *)
Definition initialState : State :=
  {| snowballY := TILE_Y - SNOWBALL_SIZE;
     velocity := 0;
     cameraX := 0;
     speed := INITIAL_SPEED;
     isOnGround := true;
     hasDoubleJump := false;
     score := 0;
     lastTime := 0;
     accumulator := 0;
     frameCounter := 0;
     coyoteTimer := 0;
     jumpBufferTimer := 0;
     lastGroundY := TILE_Y - SNOWBALL_SIZE |}.

(** The component when it mounts (lines 127-159 and 312): the start screen,
    nothing generated yet. *)
Definition mounted : Game :=
  {| state := initialState;
     tiles := [];
     collectibles := [];
     tileIdCounter := 0;
     collectibleIdCounter := 0;
     gameState := start;
     lastTapTime := 0 |}.

(** Lines 235-252: [n] more rounds of the start-up loop, the next one being
    round [i]. *)
Fixpoint initLoop (rnd : nat -> Q) (n i : nat) (currentCenter currentWidth : Q)
    (idCounter : Z) (initialTiles : list TileData.t)
    : list TileData.t * Z :=
  match n with
  | O => (initialTiles, idCounter)
  | S n' =>
    let width := pick TILE_WIDTHS (rnd (2 * i)%nat) in
    let gap := pick GAP_SIZES (rnd (2 * i + 1)%nat) in
    let newCenter := currentCenter + (currentWidth / 2) + gap + (width / 2) in
    let newTile := TileData.mk idCounter newCenter width medium in
    initLoop rnd n' (S i) newCenter width (idCounter + 1)
      (initialTiles ++ [newTile])
  end.

(** Lines 198-263.  [gameState] and [lastTapTimeRef] are not touched. *)
Definition initGame (rnd : nat -> Q) (g : Game) : Game :=
  let first := TileData.mk 0 0 600 long in
  let '(initialTiles, idCounter) := initLoop rnd 5 0 0 600 1 [first] in
  {| state := initialState;
     tiles := initialTiles;
     collectibles := [];
     tileIdCounter := idCounter;
     collectibleIdCounter := 0;
     gameState := gameState g;
     lastTapTime := lastTapTime g |}.

(** Lines 265-268: the part of [handleStart] that concerns the simulation. *)
Definition handleStart (rnd : nat -> Q) (g : Game) : Game :=
  set_gameState playing (initGame rnd g).

(** Lines 314-347.  [now] is [Date.now()]; [rnd] is only used when the tap
    starts a run. *)
Definition handleTap (rnd : nat -> Q) (now : Z) (g : Game) : Game :=
  match gameState g with
  | playing =>
    let s := state g in
    let timeSinceLastTap := (now - lastTapTime g)%Z in
    if isOnGround s || (0 <? coyoteTimer s)%Z then
      let s := set_velocity JUMP_FORCE s in
      let s := set_isOnGround false s in
      let s := set_coyoteTimer 0 s in
      let s := set_hasDoubleJump true s in
      set_lastTapTime now (set_state s g)
    else if negb (isOnGround s) && hasDoubleJump s
            && (timeSinceLastTap <? 300)%Z then
      let s := set_velocity DOUBLE_JUMP_FORCE s in
      let s := set_hasDoubleJump false s in
      set_lastTapTime 0 (set_state s g)
    else if negb (isOnGround s) then
      let s := set_jumpBufferTimer JUMP_BUFFER_TIME s in
      set_lastTapTime now (set_state s g)
    else g
  | _ => handleStart rnd g
  end.

(** Lines 423-432: the state the collision loop starts from. *)
Definition moved (s : State) : State :=
  decayTimers (advance (integrate s)).

(** Lines 434-479: the collision phase, on the moved state. *)
Definition resolve (ts : list TileData.t) (s : State) : State :=
  let snowballBottom := snowballY s + SNOWBALL_SIZE in
  let snowballWorldX := cameraX s in
  let snowballLeft := snowballWorldX - SNOWBALL_SIZE / 2 in
  let snowballRight := snowballWorldX + SNOWBALL_SIZE / 2 in
  leaveGround
    (collide TILE_Y snowballBottom snowballLeft snowballRight ts s false).

(** Lines 423-479: integration, scrolling, timers and collision. *)
Definition physics (g : Game) : Game :=
  set_state (resolve (tiles g) (moved (state g))) g.

(** Line 481. *)
Definition fallen (g : Game) : bool :=
  Qgtb (snowballY (state g)) (SCREEN_HEIGHT + 100).

(** Line 487: the tiles that have not scrolled out behind the camera. *)
Definition retire (g : Game) : list TileData.t :=
  filter (fun t => Qgtb (tileRight t) (cameraX (state g) - SCREEN_WIDTH))
    (tiles g).

(** Lines 487-512 and 546: retire, then extend the frontier by at most one
    tile, with a collectible on it three times out of ten. *)
Definition spawn (rnd : nat -> Q) (g : Game) : Game :=
  let activeTiles := retire g in
  match lastOf activeTiles with
  | Some lastTile =>
    let lastTileRight := TileData.x lastTile + TileData.width lastTile / 2 in
    if Qltb lastTileRight (cameraX (state g) + SPAWN_AHEAD_DISTANCE) then
      let width := pick TILE_WIDTHS (rnd 0%nat) in
      let gap := pick GAP_SIZES (rnd 1%nat) in
      let newCenter :=
        TileData.x lastTile + (TileData.width lastTile / 2) + gap
        + (width / 2) in
      let newTile := TileData.mk (tileIdCounter g) newCenter width medium in
      let activeTiles := activeTiles ++ [newTile] in
      if Qltb (rnd 2%nat) 0.3 then
        let col := CollectibleData.mk (collectibleIdCounter g) newCenter
                     (TileData.id newTile) false in
        mkGame (state g) activeTiles (collectibles g ++ [col])
          (tileIdCounter g + 1) (collectibleIdCounter g + 1)
          (gameState g) (lastTapTime g)
      else
        mkGame (state g) activeTiles (collectibles g)
          (tileIdCounter g + 1) (collectibleIdCounter g)
          (gameState g) (lastTapTime g)
    else
      mkGame (state g) activeTiles (collectibles g)
        (tileIdCounter g) (collectibleIdCounter g)
        (gameState g) (lastTapTime g)
  | None =>
    mkGame (state g) activeTiles (collectibles g)
      (tileIdCounter g) (collectibleIdCounter g)
      (gameState g) (lastTapTime g)
  end.

(** Line 515: the collectibles still ahead of the left screen edge. *)
Definition activeCollectibles (g : Game) : list CollectibleData.t :=
  filter (fun c => Qgtb (CollectibleData.x c)
                     (cameraX (state g) - SCREEN_WIDTH))
    (collectibles g).

(** Lines 515-524. *)
Definition pickup (g : Game) : Game :=
  let r := collect TILE_Y (activeCollectibles g) (state g) in
  mkGame (snd r) (tiles g) (fst r) (tileIdCounter g)
    (collectibleIdCounter g) (gameState g) (lastTapTime g).

(** Lines 419-547: one fixed step.  A fallen ball ends the run and returns
    before any spawning or pickup. *)
Definition updatePhysics (rnd : nat -> Q) (g : Game) : Game :=
  let g := physics g in
  if fallen g then handleGameOver g
  else pickup (spawn rnd g).

(** Lines 561-564: the catch-up loop.  [rnds k] is the random stream of the
    k-th step of this frame.  The loop body does not look at [gameState]. *)
Fixpoint catchUp (fuel : nat) (rnds : nat -> nat -> Q) (k : nat) (g : Game)
    : option Game :=
  match fuel with
  | O => None
  | S fuel' =>
    if Qgeb (accumulator (state g)) TIME_STEP then
      let g := updatePhysics (rnds k) g in
      let s := state g in
      let g := set_state (set_accumulator (accumulator s - TIME_STEP) s) g in
      catchUp fuel' rnds (S k) g
    else Some g
  end.

(** Lines 549-568: one animation frame at host time [time]. *)
Definition gameLoop (fuel : nat) (rnds : nat -> nat -> Q) (time : Q)
    (g : Game) : option Game :=
  let s := state g in
  let s := if Qeq_bool (lastTime s) 0 then set_lastTime time s else s in
  let deltaTime := time - lastTime s in
  let s := set_lastTime time s in
  let s := set_accumulator (accumulator s + deltaTime) s in
  match catchUp fuel rnds 0 (set_state s g) with
  | Some g =>
    let s := state g in
    Some (set_state (set_frameCounter (frameCounter s + 1) s) g)
  | None => None
  end.

(** ** Runs *)

(** What can happen to a game between two renders: a tap, or one fixed
    step. *)
Inductive Event : Type :=
  | Tap (rnd : nat -> Q) (now : Z)
  | Step (rnd : nat -> Q).

Definition perform (e : Event) (g : Game) : Game :=
  match e with
  | Tap rnd now => handleTap rnd now g
  | Step rnd => updatePhysics rnd g
  end.

Fixpoint play (es : list Event) (g : Game) : Game :=
  match es with
  | [] => g
  | e :: es' => play es' (perform e g)
  end.

(** ** Vocabulary of the statements *)

(** The ball at [s] is above or below one of the tiles. *)
Definition overTiles (ts : list TileData.t) (s : State) : bool :=
  existsb (horizontalOverlap (cameraX s - SNOWBALL_SIZE / 2)
             (cameraX s + SNOWBALL_SIZE / 2)) ts.

(** The collision loop, run on [s], resolves a landing. *)
Definition landsOn (ts : list TileData.t) (s : State) : bool :=
  shouldLand
    (collide TILE_Y (snowballY s + SNOWBALL_SIZE)
       (cameraX s - SNOWBALL_SIZE / 2) (cameraX s + SNOWBALL_SIZE / 2)
       ts s false).

(** The same two for the step taken from [g]: they look at the ball once
    this step has moved it. *)
Definition overPlatform (g : Game) : bool :=
  overTiles (tiles g) (moved (state g)).
Definition lands (g : Game) : bool :=
  landsOn (tiles g) (moved (state g)).

(** The double jump has been used: in the air, coyote window closed, flag
    cleared. *)
Definition spent (s : State) : Prop :=
  isOnGround s = false /\ (coyoteTimer s <= 0)%Z /\ hasDoubleJump s = false.

(** A stretch of a run in which the run goes on and no step lands. *)
Fixpoint airborneAlong (es : list Event) (g : Game) : Prop :=
  match es with
  | [] => True
  | Tap rnd now :: es' =>
    gameState g = playing /\ airborneAlong es' (handleTap rnd now g)
  | Step rnd :: es' =>
    lands g = false /\ airborneAlong es' (updatePhysics rnd g)
  end.

(** The ball sits on the surface: bottom edge at [TILE_Y], no vertical
    motion, grounded. *)
Definition restingOnSurface (s : State) : Prop :=
  snowballY s == TILE_Y - SNOWBALL_SIZE /\ velocity s == 0
  /\ isOnGround s = true.

(** At each of the coming steps the ball is still over some tile. *)
Fixpoint supportedAlong (rnds : list (nat -> Q)) (g : Game) : Prop :=
  match rnds with
  | [] => True
  | rnd :: rnds' =>
    overPlatform g = true /\ supportedAlong rnds' (updatePhysics rnd g)
  end.

(** Facts that hold of [stateRef.current] throughout every run. *)
Definition invariant (s : State) : Prop :=
  (0 <= jumpBufferTimer s)%Z /\
  (isOnGround s = true -> jumpBufferTimer s = 0%Z) /\
  INITIAL_SPEED <= speed s /\ speed s <= MAX_SPEED.

(** The two distance tests of line 519. *)
Definition withinReach (s : State) (col : CollectibleData.t) : bool :=
  Qltb (Qabs (CollectibleData.x col - cameraX s)) 40
  && Qltb (Qabs (snowballY s - (TILE_Y - 70))) 50.

(** Not yet collected, and within reach. *)
Definition collectable (s : State) (col : CollectibleData.t) : bool :=
  negb (CollectibleData.collected col) && withinReach s col.

(** The test of line 515. *)
Definition isActive (s : State) (col : CollectibleData.t) : bool :=
  Qgtb (CollectibleData.x col) (cameraX s - SCREEN_WIDTH).

(** How many collectibles the step from [g] picks up. *)
Definition pickedUp (rnd : nat -> Q) (g : Game) : nat :=
  if fallen (physics g) then O
  else length (filter (collectable (state (physics g)))
                 (activeCollectibles (spawn rnd (physics g)))).

(** Every tap of the stretch is a jump command, not a restart. *)
Fixpoint withinRun (es : list Event) (g : Game) : Prop :=
  match es with
  | [] => True
  | e :: es' =>
    match e with
    | Tap _ _ => gameState g = playing
    | Step _ => True
    end /\ withinRun es' (perform e g)
  end.

(** The ids of the collectibles of a game. *)
Definition collectibleIds (g : Game) : list Z :=
  map CollectibleData.id (collectibles g).

Definition tileLeft (tile : TileData.t) : Q :=
  TileData.x tile - TileData.width tile / 2.

(** [new] was placed after [prev] by the rule of lines 236-241 and 492-494:
    a width and a gap from the two tables, the centre at the right edge of
    [prev] plus the gap plus half the width. *)
Definition follows (prev new : TileData.t) : Prop :=
  exists gap width,
    In gap GAP_SIZES /\ In width TILE_WIDTHS /\
    TileData.width new = width /\
    TileData.x new
    = TileData.x prev + (TileData.width prev / 2) + gap + (width / 2).

(** Each tile of the list follows the one before it. *)
Fixpoint chained (ts : list TileData.t) : Prop :=
  match ts with
  | prev :: (new :: _) as rest => follows prev new /\ chained rest
  | _ => True
  end.

(** What [Math.random] promises: every draw lies in [0, 1). *)
Definition drawn (rnd : nat -> Q) : Prop :=
  forall k, 0 <= rnd k /\ rnd k < 1.

Definition fair (e : Event) : Prop :=
  match e with
  | Tap rnd _ => drawn rnd
  | Step rnd => drawn rnd
  end.

(** ** Vocabulary of the further properties *)

(** What holds of the two frame timers and of a grounded ball throughout a
    run: the timers stay within their full values, and a ball that is
    grounded rests on the surface, with no double jump and no buffered jump
    in store. *)
Definition settled (s : State) : Prop :=
  (0 <= coyoteTimer s <= COYOTE_TIME)%Z /\
  (0 <= jumpBufferTimer s <= JUMP_BUFFER_TIME)%Z /\
  (isOnGround s = true ->
   snowballY s = TILE_Y - SNOWBALL_SIZE /\ velocity s = 0 /\
   lastGroundY s = snowballY s /\ hasDoubleJump s = false /\
   jumpBufferTimer s = 0%Z).


(** The number of fixed steps among the events of a stretch. *)
Fixpoint stepCount (es : list Event) : nat :=
  match es with
  | [] => O
  | Tap _ _ :: es' => stepCount es'
  | Step _ :: es' => S (stepCount es')
  end.


(** The ids [ids] were handed out in increasing order, none below [lo], by
    a counter that now stands at [hi]. *)
Fixpoint numbered (lo : Z) (ids : list Z) (hi : Z) : Prop :=
  match ids with
  | [] => (lo <= hi)%Z
  | i :: ids' => (lo <= i)%Z /\ numbered (i + 1) ids' hi
  end.

(** The collectible sits at the centre of a tile of [ts], the one whose id
    it records. *)
Definition anchored (ts : list TileData.t) (c : CollectibleData.t) : Prop :=
  exists t, In t ts /\ TileData.id t = CollectibleData.tileId c
            /\ TileData.x t = CollectibleData.x c.

(** What holds of the two lists and the two counters throughout a run. *)
Definition wellFormed (g : Game) : Prop :=
  numbered 0 (map TileData.id (tiles g)) (tileIdCounter g) /\
  numbered 0 (collectibleIds g) (collectibleIdCounter g) /\
  Forall (fun t => 0 <= TileData.width t) (tiles g) /\
  Forall (anchored (tiles g)) (collectibles g).


(** There is ground ahead: the newest tile reaches at least
    [SPAWN_AHEAD_DISTANCE] past the ball. *)
Definition groundAhead (g : Game) : Prop :=
  exists lastTile,
    lastOf (tiles g) = Some lastTile /\
    cameraX (state g) + SPAWN_AHEAD_DISTANCE <= tileRight lastTile.


(** Lines 562-563: the body of the catch-up loop. *)
Definition tick (rnd : nat -> Q) (g : Game) : Game :=
  let g := updatePhysics rnd g in
  let s := state g in
  set_state (set_accumulator (accumulator s - TIME_STEP) s) g.

(** [n] rounds of the body, the first of them with the stream [rnds k]. *)
Fixpoint ticks (n : nat) (rnds : nat -> nat -> Q) (k : nat) (g : Game)
    : Game :=
  match n with
  | O => g
  | S n' => ticks n' rnds (S k) (tick (rnds k) g)
  end.


(** ** Rendering and snow *)

(** Lines 72-91 with the style [tile]: the box a tile is drawn in, or
    nothing when it is culled. *)
Definition Tile (tile : TileData.t) (camX : Q) : option View.t :=
  let screenX := TileData.x tile - camX in
  if Qltb screenX (- TileData.width tile) || Qgtb screenX SCREEN_WIDTH
  then None
  else Some (View.mk (screenX + SCREEN_WIDTH / 2 - TileData.width tile / 2)
               TILE_Y (TileData.width tile) (TILE_HEIGHT + 200)).

(** Lines 96-120 with the style [collectible]. *)
Definition Collectible (collectible : CollectibleData.t) (camX : Q)
    : option View.t :=
  if CollectibleData.collected collectible then None
  else
    let screenX := CollectibleData.x collectible - camX in
    if Qltb screenX (-100) || Qgtb screenX SCREEN_WIDTH then None
    else Some (View.mk (screenX + SCREEN_WIDTH / 2) (TILE_Y - 70) 40 40).

(** Lines 637-644 with the style [snowball]: the ball is drawn at the
    horizontal centre of the screen, except on the game-over screen. *)
Definition Snowball (g : Game) : option View.t :=
  match gameState g with
  | gameOver => None
  | _ => Some (View.mk (SCREEN_WIDTH / 2 - SNOWBALL_SIZE / 2)
                 (snowballY (state g)) SNOWBALL_SIZE SNOWBALL_SIZE)
  end.

(** Two boxes share some horizontal extent. *)
Definition overlapX (a b : View.t) : Prop :=
  View.left a < View.left b + View.width b /\
  View.left b < View.left a + View.width a.

(** Lines 527-544: the snow phase of a step, on [gameData.particles] and
    [particleIdCounter].  The draws are taken from [rnd] in the order in
    which the code makes them. *)
Definition snow (rnd : nat -> Q) (particles : list ParticleData.t)
    (particleIdCounter : Z) : list ParticleData.t * Z :=
  let '(particles, particleIdCounter) :=
    if (length particles <? 50)%nat && Qltb (rnd 0%nat) 0.2 then
      (particles ++
         [ParticleData.mk particleIdCounter (rnd 1%nat * SCREEN_WIDTH) (-20)
            ((rnd 2%nat - 0.5) * 2) (1 + rnd 3%nat * 3)
            (0.3 + rnd 4%nat * 0.7) (2 + rnd 5%nat * 4) 1],
       (particleIdCounter + 1)%Z)
    else (particles, particleIdCounter) in
  (filter (fun p => Qltb (ParticleData.y p) SCREEN_HEIGHT)
     (map (fun p => ParticleData.mk (ParticleData.id p)
                      (ParticleData.x p + ParticleData.vx p)
                      (ParticleData.y p + ParticleData.vy p)
                      (ParticleData.vx p) (ParticleData.vy p)
                      (ParticleData.opacity p) (ParticleData.size p)
                      (ParticleData.life p))
        particles),
   particleIdCounter).


(** Nothing of the two lists lies a screen width or more behind the ball. *)
Definition inView (g : Game) : Prop :=
  Forall (fun t => cameraX (state g) - SCREEN_WIDTH < tileRight t) (tiles g)
  /\
  Forall (fun c => cameraX (state g) - SCREEN_WIDTH < CollectibleData.x c)
    (collectibles g).

(** ** Vocabulary of what happens to a collected collectible *)

(** The collectibles the step from [g] pays 10 for. *)
Definition picks (rnd : nat -> Q) (g : Game) : list CollectibleData.t :=
  if fallen (physics g) then []
  else filter (collectable (state (physics g)))
         (activeCollectibles (spawn rnd (physics g))).

(** No id occurs twice among the collectibles, and the counter is past all
    of them. *)
Definition freshIds (g : Game) : Prop :=
  NoDup (collectibleIds g) /\
  Forall (fun i => (i < collectibleIdCounter g)%Z) (collectibleIds g).

(** Whatever the list of [h] holds under the id of [c1] is [c1] itself, and
    that id will not be handed out again. *)
Definition keptAs (c1 : CollectibleData.t) (h : Game) : Prop :=
  (forall c', In c' (collectibles h) ->
              CollectibleData.id c' = CollectibleData.id c1 -> c' = c1) /\
  (CollectibleData.id c1 < collectibleIdCounter h)%Z.

End Model.

(** ** Scenarios *)

(** A 400 x 800 window: the surface of every tile is at height 600. *)
Definition phone : Screen := mkScreen 400 800.

(** The start platform and one tile after a gap of 100. *)
Definition twoTiles : list TileData.t :=
  [TileData.mk 0 0 600 long; TileData.mk 1 460 120 medium].

(** The ball coming down on the start platform at the end of a jump, with
    the double jump still unused.  [buffer] is [jumpBufferTimer]. *)
Definition descending (buffer : Z) : Game :=
  {| state :=
       {| snowballY := 555; velocity := 10; cameraX := 100; speed := 4;
          isOnGround := false; hasDoubleJump := true; score := 1;
          lastTime := 0; accumulator := 0; frameCounter := 0;
          coyoteTimer := 0; jumpBufferTimer := buffer; lastGroundY := 560 |};
     tiles := twoTiles;
     collectibles := [];
     tileIdCounter := 2;
     collectibleIdCounter := 0;
     gameState := playing;
     lastTapTime := 1000 |}.

(** The ball on its way up, 100 ms after the tap that made it jump. *)
Definition rising : Game :=
  {| state :=
       {| snowballY := 490; velocity := -10; cameraX := 100; speed := 4;
          isOnGround := false; hasDoubleJump := true; score := 1;
          lastTime := 0; accumulator := 0; frameCounter := 0;
          coyoteTimer := 0; jumpBufferTimer := 0; lastGroundY := 560 |};
     tiles := twoTiles;
     collectibles := [];
     tileIdCounter := 2;
     collectibleIdCounter := 0;
     gameState := playing;
     lastTapTime := 1000 |}.

(** A random stream that always answers one half. *)
Definition half : nat -> Q := fun _ => 0.5.

(** The run that a start from the freshly mounted component opens on this
    screen. *)
Definition opening : Game :=
  handleStart (screen := phone) half (mounted (screen := phone)).

(** The ball falling through the first gap, ten units above the line below
    which the run ends (900 on this screen); the last frame came at host
    time 5000. *)
Definition falling : Game :=
  {| state :=
       {| snowballY := 890; velocity := 20; cameraX := 350; speed := 4;
          isOnGround := false; hasDoubleJump := false; score := 3;
          lastTime := 5000; accumulator := 0; frameCounter := 10;
          coyoteTimer := 0; jumpBufferTimer := 0; lastGroundY := 560 |};
     tiles := twoTiles;
     collectibles := [];
     tileIdCounter := 2;
     collectibleIdCounter := 0;
     gameState := playing;
     lastTapTime := 1000 |}.

(** A gift on the start platform, 20 ahead of a ball rolling on it, and one
    already collected. *)
Definition gift : CollectibleData.t := CollectibleData.mk 0 120 0 false.
Definition opened : CollectibleData.t := CollectibleData.mk 1 110 0 true.

Definition rolling : Game :=
  {| state :=
       {| snowballY := 560; velocity := 0; cameraX := 100; speed := 4;
          isOnGround := true; hasDoubleJump := false; score := 1;
          lastTime := 0; accumulator := 0; frameCounter := 0;
          coyoteTimer := 8; jumpBufferTimer := 0; lastGroundY := 560 |};
     tiles := twoTiles;
     collectibles := [opened; gift];
     tileIdCounter := 2;
     collectibleIdCounter := 2;
     gameState := playing;
     lastTapTime := 0 |}.

(** The ball in the air far beyond the last tile: both tiles are more than
    a screen width behind the camera. *)
Definition stranded : Game :=
  {| state :=
       {| snowballY := 500; velocity := 5; cameraX := 2000; speed := 4;
          isOnGround := false; hasDoubleJump := false; score := 20;
          lastTime := 0; accumulator := 0; frameCounter := 0;
          coyoteTimer := 0; jumpBufferTimer := 0; lastGroundY := 560 |};
     tiles := twoTiles;
     collectibles := [gift];
     tileIdCounter := 2;
     collectibleIdCounter := 1;
     gameState := playing;
     lastTapTime := 0 |}.

(** The ball resting on the last two units of the start platform (its box
    spans 298 to 338, the platform ends at 300). *)
Definition atEdge : Game :=
  {| state :=
       {| snowballY := 560; velocity := 0; cameraX := 318; speed := 4;
          isOnGround := true; hasDoubleJump := false; score := 3;
          lastTime := 0; accumulator := 0; frameCounter := 0;
          coyoteTimer := 8; jumpBufferTimer := 0; lastGroundY := 560 |};
     tiles := twoTiles;
     collectibles := [];
     tileIdCounter := 2;
     collectibleIdCounter := 0;
     gameState := playing;
     lastTapTime := 0 |}.

(** Two snowflakes, the second one step away from the bottom of the
    screen, and a random stream that always answers one tenth. *)
Definition flurry : list ParticleData.t :=
  [ParticleData.mk 3 120 100 0.5 2 0.8 3 1;
   ParticleData.mk 5 300 799 (-0.5) 3 0.5 4 1].

Definition tenth : nat -> Q := fun _ => 0.1.

(** * Properties *)

Section Properties.

Context {screen : Screen}.

(** ** Boolean comparisons reflect the order on [Q] *)

Lemma Qltb_iff (x y : Q) : Qltb x y = true <-> x < y.
Proof.
  unfold Qltb. rewrite negb_true_iff.
  split; intro E.
  - apply Qnot_le_lt. intro L. apply Qle_bool_iff in L. congruence.
  - destruct (Qle_bool y x) eqn:B; [|reflexivity].
    apply Qle_bool_iff in B. exfalso. apply (Qlt_not_le _ _ E B).
Qed.

Lemma Qltb_false_iff (x y : Q) : Qltb x y = false <-> y <= x.
Proof.
  unfold Qltb. rewrite negb_false_iff. apply Qle_bool_iff.
Qed.

Lemma Qgtb_iff (x y : Q) : Qgtb x y = true <-> y < x.
Proof. apply Qltb_iff. Qed.

Lemma Qgtb_false_iff (x y : Q) : Qgtb x y = false <-> x <= y.
Proof. apply Qltb_false_iff. Qed.

Lemma Qleb_iff (x y : Q) : Qleb x y = true <-> x <= y.
Proof. apply Qle_bool_iff. Qed.

Lemma Qgeb_iff (x y : Q) : Qgeb x y = true <-> y <= x.
Proof. apply Qle_bool_iff. Qed.

(** Division by a literal becomes a product, which [lra] understands. *)
Ltac qdiv := unfold Qdiv in *; cbn [Qinv Qnum Qden] in *.

(** Reads the fields of a state built by assignments. *)
Ltac fields :=
  cbn [snowballY velocity cameraX speed isOnGround hasDoubleJump score
       lastTime accumulator frameCounter coyoteTimer jumpBufferTimer
       lastGroundY set_snowballY set_velocity set_cameraX set_speed
       set_isOnGround set_hasDoubleJump set_score set_lastTime
       set_accumulator set_frameCounter set_coyoteTimer set_jumpBufferTimer
       set_lastGroundY land state tiles collectibles tileIdCounter
       collectibleIdCounter gameState lastTapTime set_state set_gameState
       set_lastTapTime] in *.

(** ** Integration *)

(** Lines 423-425, read off the definition. *)
Lemma integrate_fields (s : State) :
  velocity (integrate s) = Qmin (velocity s + GRAVITY) TERMINAL_VELOCITY /\
  snowballY (integrate s) = snowballY s + velocity (integrate s).
Proof. split; reflexivity. Qed.

(** The rest of the step before the collision loop leaves position and
    velocity alone. *)
Lemma moved_velocity (s : State) : velocity (moved s) = velocity (integrate s).
Proof.
  destruct s as [y v cx sp og dj sc lt ac fc ct jb lg].
  unfold moved, decayTimers, advance, integrate.
  cbn -[Qmin Qplus Qdiv Z.sub Z.ltb].
  destruct (0 <? jb)%Z; cbn -[Qmin Qplus Qdiv Z.sub Z.ltb];
    destruct (0 <? ct)%Z; reflexivity.
Qed.

Lemma moved_snowballY (s : State) :
  snowballY (moved s) = snowballY (integrate s).
Proof.
  destruct s as [y v cx sp og dj sc lt ac fc ct jb lg].
  unfold moved, decayTimers, advance, integrate.
  cbn -[Qmin Qplus Qdiv Z.sub Z.ltb].
  destruct (0 <? jb)%Z; cbn -[Qmin Qplus Qdiv Z.sub Z.ltb];
    destruct (0 <? ct)%Z; reflexivity.
Qed.

(** ** The collision loop *)

Section Collide.

Variables tileY bottom left right : Q.

(** The loop either lands on a tile, or leaves the state as it found it. *)
Lemma collide_cases (ts : list TileData.t) (s : State) (o : bool) :
  let c := collide tileY bottom left right ts s o in
  (shouldLand c = true /\ onTile c = true /\
   col_state c = autoJump (land tileY s))
  \/ (shouldLand c = false /\ col_state c = s).
Proof.
  revert o. induction ts as [|tile ts IH]; intro o; cbn [collide].
  - right. split; reflexivity.
  - destruct (horizontalOverlap left right tile).
    + destruct (landingCondition tileY bottom s).
      * left. repeat split.
      * destruct (Qltb _ 5); apply IH.
    + apply IH.
Qed.

(** First-match policy: with the landing test passed, the first overlapped
    tile ends the loop. *)
Lemma collide_lands (ts : list TileData.t) (s : State) (o : bool) :
  existsb (horizontalOverlap left right) ts = true ->
  landingCondition tileY bottom s = true ->
  collide tileY bottom left right ts s o
  = mkCollision (autoJump (land tileY s)) true true.
Proof.
  intros Hex Hland. revert o.
  induction ts as [|tile ts IH]; intro o; cbn [collide existsb] in *.
  - discriminate.
  - destruct (horizontalOverlap left right tile); cbn [orb] in Hex.
    + rewrite Hland. reflexivity.
    + apply IH, Hex.
Qed.

(** Without an overlapped tile nothing happens at all. *)
Lemma collide_misses (ts : list TileData.t) (s : State) (o : bool) :
  existsb (horizontalOverlap left right) ts = false ->
  collide tileY bottom left right ts s o = mkCollision s o false.
Proof.
  revert o. induction ts as [|tile ts IH]; intros o Hex;
    cbn [collide existsb] in *.
  - reflexivity.
  - apply orb_false_iff in Hex as [E1 E2]. rewrite E1. apply IH, E2.
Qed.

(** Failing the landing test on every tile means no landing. *)
Lemma collide_no_landing (ts : list TileData.t) (s : State) (o : bool) :
  landingCondition tileY bottom s = false ->
  shouldLand (collide tileY bottom left right ts s o) = false /\
  col_state (collide tileY bottom left right ts s o) = s.
Proof.
  intro Hland. revert o.
  induction ts as [|tile ts IH]; intro o; cbn [collide].
  - split; reflexivity.
  - destruct (horizontalOverlap left right tile); [rewrite Hland|];
      try destruct (Qltb _ 5); apply IH.
Qed.

End Collide.

Lemma landingCondition_iff (tileY bottom : Q) (s : State) :
  landingCondition tileY bottom s = true <->
  0 <= bottom - tileY /\ bottom - tileY <= LANDING_TOLERANCE
  /\ 0 <= velocity s.
Proof.
  unfold landingCondition. rewrite !andb_true_iff, !Qgeb_iff, Qleb_iff.
  tauto.
Qed.

(** What the snap writes (lines 453-458). *)
Lemma land_fields (tileY : Q) (s : State) :
  snowballY (land tileY s) = tileY - SNOWBALL_SIZE /\
  velocity (land tileY s) = 0 /\
  isOnGround (land tileY s) = true /\
  hasDoubleJump (land tileY s) = false /\
  coyoteTimer (land tileY s) = COYOTE_TIME /\
  lastGroundY (land tileY s) = tileY - SNOWBALL_SIZE /\
  jumpBufferTimer (land tileY s) = jumpBufferTimer s.
Proof. repeat split. Qed.

(** What the buffered jump writes on top of the snap (lines 462-468). *)
Lemma autoJump_idle (s : State) :
  (jumpBufferTimer s <= 0)%Z -> autoJump s = s.
Proof.
  intro Hb. unfold autoJump.
  destruct (0 <? jumpBufferTimer s)%Z eqn:E; [|reflexivity].
  apply Z.ltb_lt in E. lia.
Qed.

Lemma autoJump_fires (s : State) :
  (0 < jumpBufferTimer s)%Z ->
  autoJump s
  = set_jumpBufferTimer 0
      (set_hasDoubleJump true
         (set_isOnGround false (set_velocity JUMP_FORCE s))).
Proof.
  intro Hb. unfold autoJump.
  destruct (0 <? jumpBufferTimer s)%Z eqn:E; [reflexivity|].
  apply Z.ltb_ge in E. lia.
Qed.

(** ** The collision phase *)

Lemma physics_state (g : Game) :
  state (physics g) = resolve (tiles g) (moved (state g)).
Proof. reflexivity. Qed.

Lemma resolve_landing (ts : list TileData.t) (s : State) :
  overTiles ts s = true ->
  landingCondition TILE_Y (snowballY s + SNOWBALL_SIZE) s = true ->
  landsOn ts s = true /\ resolve ts s = autoJump (land TILE_Y s).
Proof.
  intros Hov Hland. unfold landsOn, resolve, overTiles in *. cbv zeta.
  rewrite (collide_lands _ _ _ _ _ _ _ Hov Hland). split; reflexivity.
Qed.

(** The three ways the collision phase can end: a landing; nothing; or the
    ball, so far grounded, finds no support and starts its coyote window. *)
Lemma resolve_cases (ts : list TileData.t) (s : State) :
  (landsOn ts s = true /\ resolve ts s = autoJump (land TILE_Y s)) \/
  (landsOn ts s = false /\ resolve ts s = s) \/
  (landsOn ts s = false /\ isOnGround s = true /\
   resolve ts s = set_coyoteTimer COYOTE_TIME (set_isOnGround false s)).
Proof.
  unfold landsOn, resolve. cbv zeta.
  destruct (collide_cases TILE_Y (snowballY s + SNOWBALL_SIZE)
              (cameraX s - SNOWBALL_SIZE / 2) (cameraX s + SNOWBALL_SIZE / 2)
              ts s false) as [(Hs & Ho & Hst) | (Hs & Hst)];
    unfold leaveGround; rewrite Hst, Hs; cbn [negb andb].
  - left. split; reflexivity.
  - right. destruct (isOnGround s) eqn:Eg; cbn [andb].
    + destruct (onTile _); cbn [negb].
      * left. split; reflexivity.
      * right. repeat split.
    + left. split; reflexivity.
Qed.

Lemma resolve_airborne (ts : list TileData.t) (s : State) :
  landsOn ts s = false -> isOnGround s = false -> resolve ts s = s.
Proof.
  intros Hl Hg.
  destruct (resolve_cases ts s) as [(E & _) | [(_ & E) | (_ & E & _)]];
    congruence.
Qed.

(** Rolling past the edge: with no tile under the ball, a grounded ball
    leaves the ground and its coyote window opens. *)
Lemma resolve_off_edge (ts : list TileData.t) (s : State) :
  overTiles ts s = false -> isOnGround s = true ->
  resolve ts s = set_coyoteTimer COYOTE_TIME (set_isOnGround false s).
Proof.
  intros Hov Hg. unfold resolve, overTiles in *. cbv zeta.
  rewrite (collide_misses _ _ _ _ _ _ _ Hov).
  unfold leaveGround. cbn [col_state shouldLand onTile negb andb].
  rewrite Hg. reflexivity.
Qed.

(** The collision phase moves neither the score nor the speed. *)
Lemma resolve_score_speed (ts : list TileData.t) (s : State) :
  score (resolve ts s) = score s /\ speed (resolve ts s) = speed s.
Proof.
  destruct (resolve_cases ts s) as [(_ & E) | [(_ & E) | (_ & _ & E)]];
    rewrite E; clear E.
  - unfold autoJump. destruct (0 <? jumpBufferTimer (land TILE_Y s))%Z;
      split; reflexivity.
  - split; reflexivity.
  - split; reflexivity.
Qed.

(** ** What the later phases of a step leave alone *)

Lemma set_score_same (s : State) : set_score (score s) s = s.
Proof. destruct s; reflexivity. Qed.

Lemma collect_state (tileY : Q) (cs : list CollectibleData.t) (s : State) :
  snd (collect tileY cs s)
  = set_score (score (snd (collect tileY cs s))) s.
Proof.
  revert s. induction cs as [|col cs IH]; intro s; cbn [collect].
  - symmetry. apply set_score_same.
  - destruct (CollectibleData.collected col).
    + specialize (IH s). destruct (collect tileY cs s) as [cs' s'].
      exact IH.
    + destruct (Qltb _ 40 && Qltb _ 50).
      * specialize (IH (set_score (score s + 10) s)).
        destruct (collect tileY cs _) as [cs' s']. cbn [snd] in *.
        rewrite IH. reflexivity.
      * specialize (IH s). destruct (collect tileY cs s) as [cs' s'].
        exact IH.
Qed.

Lemma spawn_state (rnd : nat -> Q) (g : Game) : state (spawn rnd g) = state g.
Proof.
  unfold spawn. destruct (lastOf (retire g)); [|reflexivity].
  destruct (Qltb _ _); [|reflexivity].
  destruct (Qltb _ _); reflexivity.
Qed.

Lemma spawn_gameState (rnd : nat -> Q) (g : Game) :
  gameState (spawn rnd g) = gameState g.
Proof.
  unfold spawn. destruct (lastOf (retire g)); [|reflexivity].
  destruct (Qltb _ _); [|reflexivity].
  destruct (Qltb _ _); reflexivity.
Qed.

(** After the collision phase a step only touches the score. *)
Lemma updatePhysics_state (rnd : nat -> Q) (g : Game) :
  state (updatePhysics rnd g)
  = set_score (score (state (updatePhysics rnd g))) (state (physics g)).
Proof.
  unfold updatePhysics. destruct (fallen (physics g)).
  - unfold handleGameOver. cbn [state set_gameState].
    symmetry. apply set_score_same.
  - unfold pickup. cbn [state].
    rewrite collect_state at 1. rewrite spawn_state. reflexivity.
Qed.

Lemma updatePhysics_gameState (rnd : nat -> Q) (g : Game) :
  gameState (updatePhysics rnd g)
  = if fallen (physics g) then gameOver else gameState g.
Proof.
  unfold updatePhysics. destruct (fallen (physics g)).
  - reflexivity.
  - unfold pickup. cbn [gameState]. rewrite spawn_gameState. reflexivity.
Qed.

(** The timers and the two flags across [moved]. *)
Lemma moved_flags (s : State) :
  isOnGround (moved s) = isOnGround s /\
  hasDoubleJump (moved s) = hasDoubleJump s /\
  lastGroundY (moved s) = lastGroundY s.
Proof.
  destruct s as [y v cx sp og dj sc lt ac fc ct jb lg].
  unfold moved, decayTimers, advance, integrate.
  cbn -[Qmin Qplus Qdiv Z.sub Z.ltb].
  destruct (0 <? jb)%Z; cbn -[Qmin Qplus Qdiv Z.sub Z.ltb];
    destruct (0 <? ct)%Z; repeat split.
Qed.

Lemma moved_jumpBufferTimer (s : State) :
  jumpBufferTimer (moved s)
  = if (0 <? jumpBufferTimer s)%Z then (jumpBufferTimer s - 1)%Z
    else jumpBufferTimer s.
Proof.
  destruct s as [y v cx sp og dj sc lt ac fc ct jb lg].
  unfold moved, decayTimers, advance, integrate.
  cbn -[Qmin Qplus Qdiv Z.sub Z.ltb].
  destruct (0 <? jb)%Z; cbn -[Qmin Qplus Qdiv Z.sub Z.ltb];
    destruct (0 <? ct)%Z; reflexivity.
Qed.

Lemma moved_coyoteTimer (s : State) :
  coyoteTimer (moved s)
  = if (0 <? coyoteTimer s)%Z then (coyoteTimer s - 1)%Z else coyoteTimer s.
Proof.
  destruct s as [y v cx sp og dj sc lt ac fc ct jb lg].
  unfold moved, decayTimers, advance, integrate.
  cbn -[Qmin Qplus Qdiv Z.sub Z.ltb].
  destruct (0 <? jb)%Z; cbn -[Qmin Qplus Qdiv Z.sub Z.ltb];
    destruct (0 <? ct)%Z; reflexivity.
Qed.

(** ** The clamp *)

(** The collision phase only ever lowers the velocity: to 0 on a landing,
    to the jump force on a buffered jump. *)
Lemma resolve_velocity (ts : list TileData.t) (s : State) :
  velocity s <= TERMINAL_VELOCITY ->
  velocity (resolve ts s) <= TERMINAL_VELOCITY.
Proof.
  intro Hv.
  destruct (resolve_cases ts s) as [(_ & E) | [(_ & E) | (_ & _ & E)]];
    rewrite E; clear E; try exact Hv.
  unfold autoJump. destruct (0 <? jumpBufferTimer (land TILE_Y s))%Z;
    cbn; unfold TERMINAL_VELOCITY, JUMP_FORCE; lra.
Qed.

(** C8: in every physics step the integration of lines 423-425 sets the
    velocity to [min (velocity + GRAVITY) TERMINAL_VELOCITY], hence to at
    most the terminal velocity 20, before it adds that clamped velocity to
    the position; this is the velocity the collision phase sees, and the
    velocity the step ends with is at most 20 as well. *)
Theorem integrate_clamps_velocity (rnd : nat -> Q) (g : Game) :
  velocity (integrate (state g))
  = Qmin (velocity (state g) + GRAVITY) TERMINAL_VELOCITY /\
  velocity (integrate (state g)) <= TERMINAL_VELOCITY /\
  TERMINAL_VELOCITY == 20 /\
  snowballY (integrate (state g))
  = snowballY (state g) + velocity (integrate (state g)) /\
  velocity (moved (state g)) = velocity (integrate (state g)) /\
  velocity (state (updatePhysics rnd g)) <= TERMINAL_VELOCITY.
Proof.
  destruct (integrate_fields (state g)) as [Ev Ey].
  assert (Hle : velocity (integrate (state g)) <= TERMINAL_VELOCITY)
    by (rewrite Ev; apply Q.le_min_r).
  repeat split; try assumption; try reflexivity.
  - apply moved_velocity.
  - rewrite updatePhysics_state, physics_state.
    change (velocity (set_score ?v ?s)) with (velocity s).
    apply resolve_velocity. rewrite moved_velocity. exact Hle.
Qed.

(** ** Landing *)

Lemma landing_fields (s : State) :
  snowballY (autoJump (land TILE_Y s)) + SNOWBALL_SIZE == TILE_Y /\
  coyoteTimer (autoJump (land TILE_Y s)) = 8%Z /\
  lastGroundY (autoJump (land TILE_Y s))
  = snowballY (autoJump (land TILE_Y s)) /\
  ((jumpBufferTimer s <= 0)%Z ->
   velocity (autoJump (land TILE_Y s)) = 0 /\
   isOnGround (autoJump (land TILE_Y s)) = true /\
   hasDoubleJump (autoJump (land TILE_Y s)) = false).
Proof.
  destruct (Z_lt_le_dec 0 (jumpBufferTimer s)) as [Hb|Hb].
  - rewrite autoJump_fires by exact Hb.
    cbn. repeat split; try (unfold SNOWBALL_SIZE; ring); lia.
  - rewrite autoJump_idle by exact Hb.
    cbn. repeat split; unfold SNOWBALL_SIZE; ring.
Qed.

(** C1 (amended): when the moved ball overlaps a tile, its bottom edge is at
    or below the surface by at most the landing tolerance 30 and its velocity
    is not negative, the collision phase runs the snap of lines 453-458: the
    bottom edge is put exactly on the surface, the velocity zeroed,
    [isOnGround] set, [hasDoubleJump] CLEARED, the coyote timer refreshed to
    8 and the new height recorded as last grounded height.  A pending
    buffered jump is then applied on top of the snapped state; height, coyote
    timer and last grounded height survive it, and without one the snapped
    state is the outcome. *)
Theorem landing_snaps_onto_surface (g : Game) :
  overPlatform g = true ->
  0 <= snowballY (moved (state g)) + SNOWBALL_SIZE - TILE_Y ->
  snowballY (moved (state g)) + SNOWBALL_SIZE - TILE_Y <= LANDING_TOLERANCE ->
  0 <= velocity (moved (state g)) ->
  lands g = true /\
  state (physics g) = autoJump (land TILE_Y (moved (state g))) /\
  (snowballY (land TILE_Y (moved (state g))) + SNOWBALL_SIZE == TILE_Y /\
   velocity (land TILE_Y (moved (state g))) = 0 /\
   isOnGround (land TILE_Y (moved (state g))) = true /\
   hasDoubleJump (land TILE_Y (moved (state g))) = false /\
   coyoteTimer (land TILE_Y (moved (state g))) = 8%Z /\
   lastGroundY (land TILE_Y (moved (state g)))
   = snowballY (land TILE_Y (moved (state g)))) /\
  (snowballY (state (physics g)) + SNOWBALL_SIZE == TILE_Y /\
   coyoteTimer (state (physics g)) = 8%Z /\
   lastGroundY (state (physics g)) = snowballY (state (physics g))) /\
  ((jumpBufferTimer (moved (state g)) <= 0)%Z ->
   state (physics g) = land TILE_Y (moved (state g))).
Proof.
  unfold overPlatform, lands. rewrite physics_state.
  generalize (moved (state g)) as s. intros s Hov Hlo Hhi Hv.
  assert (Hland : landingCondition TILE_Y (snowballY s + SNOWBALL_SIZE) s
                  = true)
    by (apply landingCondition_iff; auto).
  destruct (resolve_landing (tiles g) s Hov Hland) as [El Er].
  rewrite Er.
  destruct (landing_fields s) as (F1 & F2 & F3 & _).
  repeat split; try assumption.
  - cbn. unfold SNOWBALL_SIZE. ring.
  - intro Hb. apply autoJump_idle. exact Hb.
Qed.

(** The state a buffered jump leaves on touchdown, against the state a
    tapped ground jump would leave from the snapped state: they agree, but
    for the coyote timer, which keeps the 8 the snap gave it, and the buffer,
    which is cleared. *)
Lemma autoJump_versus_tap (rnd : nat -> Q) (now : Z) (g : Game) (s : State) :
  gameState g = playing ->
  (0 < jumpBufferTimer s)%Z ->
  autoJump (land TILE_Y s)
  = set_jumpBufferTimer 0
      (set_coyoteTimer COYOTE_TIME
         (state (handleTap rnd now (set_state (land TILE_Y s) g)))).
Proof.
  intros Hplay Hb.
  destruct s as [y v cx sp og dj sc lt ac fc ct jb lg].
  unfold handleTap, autoJump. cbn [gameState set_state]. rewrite Hplay.
  cbn in Hb. apply Z.ltb_lt in Hb.
  cbn -[Z.ltb]. rewrite Hb. reflexivity.
Qed.

Lemma buffered_landing_versus_tap (rnd : nat -> Q) (now : Z) (g : Game) :
  gameState g = playing ->
  overPlatform g = true ->
  landingCondition TILE_Y (snowballY (moved (state g)) + SNOWBALL_SIZE)
    (moved (state g)) = true ->
  (0 < jumpBufferTimer (moved (state g)))%Z ->
  state (physics g)
  = set_jumpBufferTimer 0
      (set_coyoteTimer COYOTE_TIME
         (state (handleTap rnd now
                   (set_state (land TILE_Y (moved (state g))) g)))).
Proof.
  unfold overPlatform. rewrite physics_state.
  generalize (moved (state g)) as s. intros s Hplay Hov Hland Hb.
  rewrite (proj2 (resolve_landing (tiles g) s Hov Hland)).
  apply autoJump_versus_tap; assumption.
Qed.

(** ** Taps *)

(** A tap on a run whose double jump is spent only arms the jump buffer. *)
Lemma tap_when_spent (rnd : nat -> Q) (now : Z) (g : Game) :
  gameState g = playing ->
  spent (state g) ->
  state (handleTap rnd now g)
  = set_jumpBufferTimer JUMP_BUFFER_TIME (state g) /\
  gameState (handleTap rnd now g) = playing.
Proof.
  intros Hplay (Hg & Hc & Hd). unfold handleTap. rewrite Hplay, Hg, Hd.
  destruct (0 <? coyoteTimer (state g))%Z eqn:E.
  - apply Z.ltb_lt in E. lia.
  - split; [reflexivity | exact Hplay].
Qed.

(** A step that does not land keeps the double jump spent. *)
Lemma moved_spent (s : State) : spent s -> spent (moved s).
Proof.
  intros (Hg & Hc & Hd). unfold spent.
  destruct (moved_flags s) as (Fg & Fd & _).
  rewrite Fg, Fd, moved_coyoteTimer. repeat split; try assumption.
  destruct (0 <? coyoteTimer s)%Z eqn:E; [|exact Hc].
  apply Z.ltb_lt in E. lia.
Qed.

Lemma step_keeps_spent (rnd : nat -> Q) (g : Game) :
  spent (state g) -> lands g = false ->
  spent (state (updatePhysics rnd g)).
Proof.
  intros Hs Hl. apply moved_spent in Hs.
  rewrite updatePhysics_state, physics_state.
  unfold lands in Hl. revert Hs Hl.
  generalize (score (state (updatePhysics rnd g))) as sc.
  generalize (moved (state g)) as s. intros s sc Hs Hl.
  rewrite (resolve_airborne (tiles g) s Hl (proj1 Hs)).
  exact Hs.
Qed.

Lemma spent_along (es : list Event) (g : Game) :
  spent (state g) -> airborneAlong es g -> spent (state (play es g)).
Proof.
  revert g. induction es as [|[rnd now|rnd] es IH]; intros g Hs Ha;
    cbn [play perform airborneAlong] in *.
  - exact Hs.
  - destruct Ha as [Hplay Ha]. apply IH; [|exact Ha].
    destruct (tap_when_spent rnd now g Hplay Hs) as [E _]. rewrite E.
    destruct Hs as (? & ? & ?). repeat split; assumption.
  - destruct Ha as [Hl Ha]. apply IH; [|exact Ha].
    apply step_keeps_spent; assumption.
Qed.

(** C3 (amended): in the playing state a tap made in the air with the coyote
    window closed, [hasDoubleJump] set and less than 300 ms after the recorded
    tap sets the velocity to the double-jump force -11 and clears
    [hasDoubleJump]; every later tap of the run before the next landing
    leaves position, velocity and flags as they are and only re-arms the jump
    buffer (to 6). *)
Theorem double_jump_fires_once (rnd : nat -> Q) (now : Z) (g : Game)
    (es : list Event) (rnd' : nat -> Q) (now' : Z) :
  gameState g = playing ->
  isOnGround (state g) = false ->
  (coyoteTimer (state g) <= 0)%Z ->
  hasDoubleJump (state g) = true ->
  (now - lastTapTime g < 300)%Z ->
  airborneAlong es (handleTap rnd now g) ->
  gameState (play es (handleTap rnd now g)) = playing ->
  state (handleTap rnd now g)
  = set_hasDoubleJump false (set_velocity DOUBLE_JUMP_FORCE (state g))
  /\ DOUBLE_JUMP_FORCE == -11
  /\ lastTapTime (handleTap rnd now g) = 0%Z
  /\ state (handleTap rnd' now' (play es (handleTap rnd now g)))
     = set_jumpBufferTimer JUMP_BUFFER_TIME
         (state (play es (handleTap rnd now g))).
Proof.
  intros Hplay Hg Hc Hd Ht.
  assert (E : handleTap rnd now g
              = set_lastTapTime 0
                  (set_state (set_hasDoubleJump false
                     (set_velocity DOUBLE_JUMP_FORCE (state g))) g)).
  { unfold handleTap. rewrite Hplay, Hg, Hd.
    destruct (0 <? coyoteTimer (state g))%Z eqn:E1;
      [apply Z.ltb_lt in E1; lia|].
    destruct (now - lastTapTime g <? 300)%Z eqn:E2;
      [reflexivity | apply Z.ltb_ge in E2; lia]. }
  rewrite E. intros Ha Hp.
  repeat split.
  apply tap_when_spent; [exact Hp|].
  apply spent_along; [|exact Ha].
  repeat split; cbn; [exact Hg | exact Hc].
Qed.

(** ** Invariants of a run *)

Lemma initialState_invariant : invariant initialState.
Proof.
  unfold invariant, initialState; cbn. unfold INITIAL_SPEED, MAX_SPEED.
  repeat split; (lia || lra || idtac).
Qed.

Lemma handleStart_state (rnd : nat -> Q) (g : Game) :
  state (handleStart rnd g) = initialState /\
  gameState (handleStart rnd g) = playing.
Proof.
  unfold handleStart, initGame.
  destruct (initLoop rnd 5 0 0 600 1 _) as [ts idc]. split; reflexivity.
Qed.

Lemma handleTap_invariant (rnd : nat -> Q) (now : Z) (g : Game) :
  invariant (state g) -> invariant (state (handleTap rnd now g)).
Proof.
  intros (H0 & H1 & H2 & H3). unfold handleTap.
  destruct (gameState g);
    try (rewrite (proj1 (handleStart_state rnd g));
         apply initialState_invariant).
  destruct (isOnGround (state g)) eqn:Eg; cbn [orb negb andb].
  - repeat split; cbn; try assumption; try discriminate.
  - destruct (0 <? coyoteTimer (state g))%Z.
    + repeat split; cbn; try assumption; try discriminate.
    + destruct (hasDoubleJump (state g) && _).
      * repeat split; cbn; try assumption. intro; congruence.
      * repeat split; cbn; try assumption;
          [unfold JUMP_BUFFER_TIME; lia | intro; congruence].
Qed.

Lemma moved_speed (s : State) :
  speed (moved s) = Qmin (speed s + SPEED_INCREMENT) MAX_SPEED.
Proof.
  destruct s as [y v cx sp og dj sc lt ac fc ct jb lg].
  unfold moved, decayTimers, advance, integrate.
  cbn -[Qmin Qplus Qdiv Z.sub Z.ltb].
  destruct (0 <? jb)%Z; cbn -[Qmin Qplus Qdiv Z.sub Z.ltb];
    destruct (0 <? ct)%Z; reflexivity.
Qed.

Lemma moved_invariant (s : State) : invariant s -> invariant (moved s).
Proof.
  intros (H0 & H1 & H2 & H3). unfold invariant.
  destruct (moved_flags s) as (Fg & _ & _).
  rewrite moved_jumpBufferTimer, moved_speed, Fg.
  repeat split.
  - destruct (0 <? jumpBufferTimer s)%Z eqn:E; [apply Z.ltb_lt in E|]; lia.
  - intro Hg. rewrite (H1 Hg). reflexivity.
  - apply Q.min_glb; unfold INITIAL_SPEED, SPEED_INCREMENT, MAX_SPEED in *; lra.
  - apply Q.le_min_r.
Qed.

(** The collision phase: a landing leaves the buffer empty either way, and
    leaving the ground only clears [isOnGround]. *)
Lemma resolve_invariant (ts : list TileData.t) (s : State) :
  invariant s -> invariant (resolve ts s).
Proof.
  intros (H0 & H1 & H2 & H3).
  destruct (resolve_cases ts s) as [(_ & E) | [(_ & E) | (_ & _ & E)]];
    rewrite E; clear E.
  - destruct (Z_lt_le_dec 0 (jumpBufferTimer s)) as [Hb|Hb].
    + rewrite autoJump_fires by exact Hb.
      repeat split; first [exact H2 | exact H3 | cbn; lia].
    + rewrite autoJump_idle by exact Hb.
      repeat split; intros;
        first [exact H0 | exact H2 | exact H3 | cbn; lia].
  - repeat split; assumption.
  - repeat split; cbn; (assumption || discriminate).
Qed.

Lemma physics_invariant (g : Game) :
  invariant (state g) -> invariant (state (physics g)).
Proof.
  intro Hi. rewrite physics_state.
  apply resolve_invariant, moved_invariant, Hi.
Qed.

Lemma updatePhysics_invariant (rnd : nat -> Q) (g : Game) :
  invariant (state g) -> invariant (state (updatePhysics rnd g)).
Proof.
  intro Hi. apply physics_invariant in Hi.
  rewrite updatePhysics_state. exact Hi.
Qed.

(** Every state of every run, from its start on, satisfies the invariant. *)
Lemma play_invariant (es : list Event) (g : Game) :
  invariant (state g) -> invariant (state (play es g)).
Proof.
  revert g. induction es as [|[rnd now|rnd] es IH]; intros g Hi;
    cbn [play perform].
  - exact Hi.
  - apply IH, handleTap_invariant, Hi.
  - apply IH, updatePhysics_invariant, Hi.
Qed.

Lemma run_invariant (rnd0 : nat -> Q) (g0 : Game) (es : list Event) :
  invariant (state (play es (handleStart rnd0 g0))).
Proof.
  apply play_invariant. rewrite (proj1 (handleStart_state rnd0 g0)).
  apply initialState_invariant.
Qed.

(** ** Resting on a surface *)

(** Gravity pulls a resting ball 0.6 into the tolerance band. *)
Lemma moved_resting (s : State) :
  restingOnSurface s ->
  landingCondition TILE_Y (snowballY (moved s) + SNOWBALL_SIZE) (moved s)
  = true.
Proof.
  intros (Hy & Hv & _).
  rewrite moved_snowballY.
  apply landingCondition_iff. rewrite moved_velocity.
  destruct (integrate_fields s) as (Ev & Ey).
  rewrite Ey, Ev.
  assert (Hm : Qmin (velocity s + GRAVITY) TERMINAL_VELOCITY
               == velocity s + GRAVITY)
    by (apply Q.min_l; unfold GRAVITY, TERMINAL_VELOCITY; lra).
  rewrite Hm.
  unfold LANDING_TOLERANCE, SNOWBALL_SIZE, GRAVITY in *.
  repeat split; lra.
Qed.

(** One step of a resting ball over a tile: the landing puts it back. *)
Lemma resting_step (rnd : nat -> Q) (g : Game) :
  restingOnSurface (state g) ->
  jumpBufferTimer (state g) = 0%Z ->
  overPlatform g = true ->
  snowballY (state (updatePhysics rnd g)) = TILE_Y - SNOWBALL_SIZE /\
  velocity (state (updatePhysics rnd g)) = 0 /\
  isOnGround (state (updatePhysics rnd g)) = true /\
  jumpBufferTimer (state (updatePhysics rnd g)) = 0%Z /\
  gameState (updatePhysics rnd g) = gameState g.
Proof.
  intros Hr Hb Hov.
  assert (Hjb : jumpBufferTimer (moved (state g)) = 0%Z)
    by (rewrite moved_jumpBufferTimer, Hb; reflexivity).
  pose proof (moved_resting (state g) Hr) as Hland.
  assert (Hp : state (physics g) = land TILE_Y (moved (state g))).
  { rewrite physics_state. unfold overPlatform in Hov.
    revert Hjb Hland Hov. generalize (moved (state g)) as s.
    intros s Hjb Hland Hov.
    rewrite (proj2 (resolve_landing (tiles g) s Hov Hland)).
    apply autoJump_idle.
    rewrite (proj2 (proj2 (proj2 (proj2 (proj2 (proj2
               (land_fields TILE_Y s))))))).
    lia. }
  assert (Hf : fallen (physics g) = false).
  { unfold fallen. rewrite Hp.
    rewrite (proj1 (land_fields TILE_Y (moved (state g)))).
    apply Qgtb_false_iff. unfold TILE_Y, SNOWBALL_SIZE. lra. }
  rewrite updatePhysics_gameState, Hf.
  rewrite updatePhysics_state, Hp.
  generalize (score (state (updatePhysics rnd g))) as sc.
  revert Hjb. generalize (moved (state g)) as s. intros s Hjb sc.
  repeat split. exact Hjb.
Qed.

(** C7 (amended): in every run, a ball that rests exactly on the surface
    with velocity 0 is, after each further step that finds it over a tile
    and as long as nobody taps, again grounded, back on the surface and back
    at velocity 0. *)
Theorem resting_stays_grounded (rnd0 : nat -> Q) (g0 : Game)
    (es : list Event) (rnds : list (nat -> Q)) :
  restingOnSurface (state (play es (handleStart rnd0 g0))) ->
  supportedAlong rnds (play es (handleStart rnd0 g0)) ->
  restingOnSurface
    (state (play (map Step rnds) (play es (handleStart rnd0 g0)))) /\
  gameState (play (map Step rnds) (play es (handleStart rnd0 g0)))
  = gameState (play es (handleStart rnd0 g0)).
Proof.
  pose proof (run_invariant rnd0 g0 es) as Hi.
  remember (play es (handleStart rnd0 g0)) as g eqn:Eg. clear Eg.
  revert g Hi.
  induction rnds as [|rnd rnds IH]; intros g Hi Hr Hs;
    cbn [map play perform supportedAlong] in *.
  - split; [exact Hr | reflexivity].
  - destruct Hs as [Hov Hs].
    assert (Hb : jumpBufferTimer (state g) = 0%Z).
    { destruct Hi as (_ & H1 & _). apply H1. apply Hr. }
    destruct (resting_step rnd g Hr Hb Hov) as (Ey & Ev & Eo & _ & Egs).
    rewrite <- Egs. apply IH.
    + apply updatePhysics_invariant, Hi.
    + unfold restingOnSurface. rewrite Ey, Ev, Eo.
      repeat split; reflexivity.
    + exact Hs.
Qed.

(** ** Collectibles and score *)

(** The pickup loop marks exactly the collectable ones and pays 10 for each
    of them. *)
Lemma collect_spec (cs : list CollectibleData.t) (s : State) :
  fst (collect TILE_Y cs s)
  = map (fun c => if collectable s c
                  then CollectibleData.set_collected true c else c) cs /\
  score (snd (collect TILE_Y cs s))
  == score s + 10 * inject_Z (Z.of_nat (length (filter (collectable s) cs))).
Proof.
  revert s. induction cs as [|col cs IH]; intro s.
  - cbn. split; [reflexivity | ring].
  - cbn [collect map filter]. unfold collectable at 1 3, withinReach.
    destruct (CollectibleData.collected col); cbn [negb andb].
    + destruct (IH s) as [E1 E2].
      destruct (collect TILE_Y cs s) as [cs' s']. cbn [fst snd] in *.
      split; [f_equal; exact E1 | exact E2].
    + destruct (Qltb _ 40 && Qltb _ 50).
      * destruct (IH (set_score (score s + 10) s)) as [E1 E2].
        destruct (collect TILE_Y cs _) as [cs' s']. cbn [fst snd] in *.
        split; [f_equal; exact E1|].
        rewrite E2. cbn [score set_score length].
        change (filter (collectable (set_score (score s + 10) s)) cs)
          with (filter (collectable s) cs).
        rewrite Nat2Z.inj_succ, <- Z.add_1_r, inject_Z_plus. ring.
      * destruct (IH s) as [E1 E2].
        destruct (collect TILE_Y cs s) as [cs' s']. cbn [fst snd] in *.
        split; [f_equal; exact E1 | exact E2].
Qed.

Lemma pickup_spec (g : Game) :
  collectibles (pickup g)
  = map (fun c => if collectable (state g) c
                  then CollectibleData.set_collected true c else c)
      (activeCollectibles g) /\
  score (state (pickup g))
  == score (state g)
     + 10 * inject_Z (Z.of_nat (length (filter (collectable (state g))
                                          (activeCollectibles g)))).
Proof.
  unfold pickup. cbn [collectibles state].
  apply collect_spec.
Qed.

(** Within reach means well above the line below which the run ends. *)
Lemma withinReach_not_fallen (g : Game) (c : CollectibleData.t) :
  withinReach (state g) c = true -> fallen g = false.
Proof.
  unfold withinReach, fallen. intro H.
  apply andb_true_iff in H as [_ H]. apply Qltb_iff in H.
  apply Qgtb_false_iff.
  apply Qabs_Qlt_condition in H as [_ H].
  unfold TILE_Y in *. lra.
Qed.

Lemma updatePhysics_not_fallen (rnd : nat -> Q) (g : Game) :
  fallen (physics g) = false ->
  updatePhysics rnd g = pickup (spawn rnd (physics g)).
Proof. intro Hf. unfold updatePhysics. rewrite Hf. reflexivity. Qed.

(** With nothing collectable the pickup loop changes nothing. *)
Lemma collect_nothing (cs : list CollectibleData.t) (s : State) :
  (forall c, In c cs -> collectable s c = false) ->
  collect TILE_Y cs s = (cs, s).
Proof.
  induction cs as [|col cs IH]; intro Hn; cbn [collect].
  - reflexivity.
  - rewrite IH by (intros c Hc; apply Hn; right; exact Hc).
    pose proof (Hn col (or_introl eq_refl)) as Hc.
    unfold collectable, withinReach in Hc.
    destruct (CollectibleData.collected col); [reflexivity|].
    cbn [negb andb] in Hc. rewrite Hc. reflexivity.
Qed.

(** Once [pickup] has run, running it again at the same place is a no-op:
    nothing is collected twice. *)
Lemma pickup_idempotent (g : Game) : pickup (pickup g) = pickup g.
Proof.
  assert (Hs : forall c, collectable (state (pickup g)) c
                         = collectable (state g) c).
  { intro c. unfold pickup. cbn [state]. rewrite collect_state.
    reflexivity. }
  assert (Ha : forall c, isActive (state (pickup g)) c
                         = isActive (state g) c).
  { intro c. unfold pickup. cbn [state]. rewrite collect_state.
    reflexivity. }
  assert (Hact : activeCollectibles (pickup g) = collectibles (pickup g)).
  { unfold activeCollectibles. fold (isActive (state (pickup g))).
    apply forallb_filter_id. apply forallb_forall. intros c Hc.
    rewrite Ha. rewrite (proj1 (pickup_spec g)) in Hc.
    apply in_map_iff in Hc as (c0 & Ec & Hc0).
    unfold activeCollectibles in Hc0. apply filter_In in Hc0 as [_ Hc0].
    fold (isActive (state g) c0) in Hc0.
    destruct (collectable (state g) c0); subst c; exact Hc0. }
  assert (Hnone : forall c, In c (collectibles (pickup g)) ->
                            collectable (state (pickup g)) c = false).
  { intros c Hc. rewrite Hs. rewrite (proj1 (pickup_spec g)) in Hc.
    apply in_map_iff in Hc as (c0 & Ec & _).
    destruct (collectable (state g) c0) eqn:E0; subst c.
    - reflexivity.
    - exact E0. }
  unfold pickup at 1. rewrite Hact, (collect_nothing _ _ Hnone).
  cbn [fst snd]. destruct (pickup g); reflexivity.
Qed.


Lemma moved_score (s : State) :
  score (moved s) = score s + speed (moved s) / 100.
Proof.
  destruct s as [y v cx sp og dj sc lt ac fc ct jb lg].
  unfold moved, decayTimers, advance, integrate.
  cbn -[Qmin Qplus Qdiv Z.sub Z.ltb].
  destruct (0 <? jb)%Z; cbn -[Qmin Qplus Qdiv Z.sub Z.ltb];
    destruct (0 <? ct)%Z; reflexivity.
Qed.

Lemma physics_score_speed (g : Game) :
  score (state (physics g)) = score (moved (state g)) /\
  speed (state (physics g)) = speed (moved (state g)).
Proof. rewrite physics_state. apply resolve_score_speed. Qed.

(** What one step adds to the score. *)
Lemma updatePhysics_score (rnd : nat -> Q) (g : Game) :
  score (state (updatePhysics rnd g))
  == score (state g) + speed (state (updatePhysics rnd g)) / 100
     + 10 * inject_Z (Z.of_nat (pickedUp rnd g)).
Proof.
  destruct (physics_score_speed g) as [Esc Esp].
  assert (Espeed : speed (state (updatePhysics rnd g))
                   = speed (moved (state g))).
  { rewrite updatePhysics_state. cbn [speed set_score]. exact Esp. }
  rewrite Espeed. unfold pickedUp, updatePhysics.
  destruct (fallen (physics g)).
  - unfold handleGameOver. cbn [state set_gameState].
    rewrite Esc, moved_score. cbn [Z.of_nat inject_Z]. ring.
  - rewrite (proj2 (pickup_spec (spawn rnd (physics g)))).
    rewrite spawn_state, Esc, moved_score. reflexivity.
Qed.

(** C6: a start leaves the score at exactly 0 (also when a tap outside the
    playing state triggers it); a tap during play does not touch the score;
    and at every state of every run one more step adds
    [speed / 100] for the new speed plus 10 for each collectible picked up,
    so the score never goes down. *)
Theorem score_never_decreases (rnd0 : nat -> Q) (g0 : Game)
    (es : list Event) (rnd : nat -> Q) (now : Z) :
  score (state (handleStart rnd0 g0)) = 0 /\
  score (state (updatePhysics rnd (play es (handleStart rnd0 g0))))
  == score (state (play es (handleStart rnd0 g0)))
     + speed (state (updatePhysics rnd (play es (handleStart rnd0 g0)))) / 100
     + 10 * inject_Z (Z.of_nat (pickedUp rnd (play es (handleStart rnd0 g0))))
  /\
  score (state (play es (handleStart rnd0 g0)))
  <= score (state (updatePhysics rnd (play es (handleStart rnd0 g0)))) /\
  score (state (handleTap rnd now (play es (handleStart rnd0 g0))))
  = match gameState (play es (handleStart rnd0 g0)) with
    | playing => score (state (play es (handleStart rnd0 g0)))
    | _ => 0
    end.
Proof.
  pose proof (run_invariant rnd0 g0 es) as Hi.
  remember (play es (handleStart rnd0 g0)) as g eqn:Eg. clear Eg.
  split; [rewrite (proj1 (handleStart_state rnd0 g0)); reflexivity|].
  split; [apply updatePhysics_score|].
  split.
  - rewrite (updatePhysics_score rnd g).
    apply (updatePhysics_invariant rnd) in Hi.
    destruct Hi as (_ & _ & Hlo & _).
    assert (Hn : 0 <= inject_Z (Z.of_nat (pickedUp rnd g))).
    { change 0 with (inject_Z 0). rewrite <- Zle_Qle. lia. }
    unfold INITIAL_SPEED in Hlo. qdiv.
    remember (speed (state (updatePhysics rnd g))) as v.
    remember (inject_Z (Z.of_nat (pickedUp rnd g))) as n.
    lra.
  - unfold handleTap. destruct (gameState g);
      try (rewrite (proj1 (handleStart_state rnd g)); reflexivity).
    destruct (isOnGround (state g) || _); [reflexivity|].
    destruct (negb _ && _ && _); [reflexivity|].
    destruct (negb _); reflexivity.
Qed.

(** ** An empty tile list stays empty *)

Lemma spawn_without_tiles (rnd : nat -> Q) (g : Game) :
  retire g = [] ->
  spawn rnd g
  = mkGame (state g) [] (collectibles g) (tileIdCounter g)
      (collectibleIdCounter g) (gameState g) (lastTapTime g).
Proof. intro E. unfold spawn. rewrite E. reflexivity. Qed.

Lemma collect_ids (tileY : Q) (cs : list CollectibleData.t) (s : State) :
  map CollectibleData.id (fst (collect tileY cs s))
  = map CollectibleData.id cs.
Proof.
  revert s. induction cs as [|col cs IH]; intro s; cbn [collect].
  - reflexivity.
  - destruct (CollectibleData.collected col).
    + specialize (IH s). destruct (collect tileY cs s) as [cs' s'].
      cbn [fst map] in *. f_equal. exact IH.
    + destruct (Qltb _ 40 && Qltb _ 50).
      * specialize (IH (set_score (score s + 10) s)).
        destruct (collect tileY cs _) as [cs' s'].
        cbn [fst map] in *. f_equal. exact IH.
      * specialize (IH s). destruct (collect tileY cs s) as [cs' s'].
        cbn [fst map] in *. f_equal. exact IH.
Qed.

(** The pickup phase creates nothing. *)
Lemma pickup_creates_nothing (g : Game) :
  tiles (pickup g) = tiles g /\
  tileIdCounter (pickup g) = tileIdCounter g /\
  collectibleIdCounter (pickup g) = collectibleIdCounter g /\
  incl (collectibleIds (pickup g)) (collectibleIds g).
Proof.
  repeat split. unfold collectibleIds, pickup. cbn [collectibles].
  rewrite collect_ids. unfold activeCollectibles.
  intros i Hi. apply in_map_iff in Hi as (c & Ec & Hc).
  apply filter_In in Hc as [Hc _].
  apply in_map_iff. exists c. split; assumption.
Qed.

(** A step from a game without tiles creates neither a tile nor a
    collectible. *)
Lemma step_without_tiles (rnd : nat -> Q) (g : Game) :
  tiles g = [] ->
  tiles (updatePhysics rnd g) = [] /\
  tileIdCounter (updatePhysics rnd g) = tileIdCounter g /\
  collectibleIdCounter (updatePhysics rnd g) = collectibleIdCounter g /\
  incl (collectibleIds (updatePhysics rnd g)) (collectibleIds g).
Proof.
  intro Ht. unfold updatePhysics.
  destruct (fallen (physics g)).
  - repeat split; [exact Ht | apply incl_refl].
  - assert (Er : retire (physics g) = []).
    { unfold retire, physics. cbn [tiles set_state]. rewrite Ht.
      reflexivity. }
    destruct (pickup_creates_nothing (spawn rnd (physics g)))
      as (E1 & E2 & E3 & E4).
    rewrite E1, E2, E3. rewrite (spawn_without_tiles rnd _ Er) in *.
    repeat split. exact E4.
Qed.

(** A jump command touches neither list nor counter. *)
Lemma tap_creates_nothing (rnd : nat -> Q) (now : Z) (g : Game) :
  gameState g = playing ->
  tiles (handleTap rnd now g) = tiles g /\
  tileIdCounter (handleTap rnd now g) = tileIdCounter g /\
  collectibleIdCounter (handleTap rnd now g) = collectibleIdCounter g /\
  collectibles (handleTap rnd now g) = collectibles g.
Proof.
  intro Hp. unfold handleTap. rewrite Hp.
  destruct (isOnGround (state g) || _); [repeat split|].
  destruct (negb _ && _ && _); [repeat split|].
  destruct (negb _); repeat split.
Qed.

Lemma run_without_tiles (es : list Event) (g : Game) :
  tiles g = [] -> withinRun es g ->
  tiles (play es g) = [] /\
  tileIdCounter (play es g) = tileIdCounter g /\
  collectibleIdCounter (play es g) = collectibleIdCounter g /\
  incl (collectibleIds (play es g)) (collectibleIds g).
Proof.
  revert g. induction es as [|[rnd now|rnd] es IH]; intros g Ht Hw;
    cbn [play perform withinRun] in *.
  - repeat split; [exact Ht | apply incl_refl].
  - destruct Hw as [Hp Hw].
    destruct (tap_creates_nothing rnd now g Hp) as (E1 & E2 & E3 & E4).
    destruct (IH (handleTap rnd now g)) as (F1 & F2 & F3 & F4);
      [congruence | exact Hw |].
    unfold collectibleIds in *. rewrite E4 in F4.
    repeat split; try congruence. exact F4.
  - destruct Hw as [_ Hw].
    destruct (step_without_tiles rnd g Ht) as (E1 & E2 & E3 & E4).
    destruct (IH (updatePhysics rnd g) E1 Hw) as (F1 & F2 & F3 & F4).
    repeat split; try congruence.
    eapply incl_tran; eassumption.
Qed.

(** C10: if the retirement filter of a step leaves no tile, the step stores
    the empty list and creates nothing; and from then on, whatever steps and
    jump commands the run goes through, the tile list stays empty, both id
    counters stand still and no collectible id appears that was not there
    before. *)
Theorem no_tiles_is_absorbing (rnd : nat -> Q) (g : Game) (es : list Event) :
  fallen (physics g) = false ->
  retire (physics g) = [] ->
  withinRun es (updatePhysics rnd g) ->
  tiles (updatePhysics rnd g) = [] /\
  tiles (play es (updatePhysics rnd g)) = [] /\
  tileIdCounter (play es (updatePhysics rnd g)) = tileIdCounter g /\
  collectibleIdCounter (play es (updatePhysics rnd g))
  = collectibleIdCounter g /\
  incl (collectibleIds (play es (updatePhysics rnd g))) (collectibleIds g).
Proof.
  intros Hf Er Hw.
  assert (H1 : tiles (updatePhysics rnd g) = [] /\
               tileIdCounter (updatePhysics rnd g) = tileIdCounter g /\
               collectibleIdCounter (updatePhysics rnd g)
               = collectibleIdCounter g /\
               incl (collectibleIds (updatePhysics rnd g)) (collectibleIds g)).
  { rewrite (updatePhysics_not_fallen rnd g Hf).
    destruct (pickup_creates_nothing (spawn rnd (physics g)))
      as (E1 & E2 & E3 & E4).
    rewrite E1, E2, E3. rewrite (spawn_without_tiles rnd _ Er) in *.
    repeat split. exact E4. }
  destruct H1 as (E1 & E2 & E3 & E4).
  destruct (run_without_tiles es (updatePhysics rnd g) E1 Hw)
    as (F1 & F2 & F3 & F4).
  repeat split; try congruence.
  eapply incl_tran; eassumption.
Qed.

(** ** Generated tiles *)

(** A draw in [0, 1) picks an element of the table. *)
Lemma pick_in (arr : list Q) (r : Q) :
  arr <> [] -> 0 <= r -> r < 1 -> In (pick arr r) arr.
Proof.
  intros Hne H0 H1. unfold pick. apply nth_In.
  set (n := Z.of_nat (length arr)).
  assert (Hn : (0 < n)%Z) by (destruct arr; [congruence | unfold n; cbn; lia]).
  assert (Hnq : 0 < inject_Z n)
    by (change 0 with (inject_Z 0); rewrite <- Zlt_Qlt; exact Hn).
  assert (Hlo : (0 <= Qfloor (r * inject_Z n))%Z).
  { change 0%Z with (Qfloor 0). apply Qfloor_resp_le.
    apply Qmult_le_0_compat; [exact H0 | apply Qlt_le_weak, Hnq]. }
  assert (Hhi : (Qfloor (r * inject_Z n) < n)%Z).
  { rewrite Zlt_Qlt. eapply Qle_lt_trans; [apply Qfloor_le|].
    rewrite <- (Qmult_1_l (inject_Z n)) at 2.
    apply Qmult_lt_compat_r; assumption. }
  unfold n in *. lia.
Qed.

Lemma table_values_positive (gap width : Q) :
  In gap GAP_SIZES -> In width TILE_WIDTHS -> 0 < gap /\ 0 < width.
Proof.
  unfold GAP_SIZES, TILE_WIDTHS. cbn [In].
  intros [<-|[<-|[<-|[]]]] [<-|[<-|[<-|[<-|[]]]]]; split; reflexivity.
Qed.

(** The geometry of one link: the new tile starts exactly one gap after the
    previous one ends. *)
Lemma follows_geometry (prev new : TileData.t) :
  follows prev new ->
  tileRight prev < tileLeft new /\
  tileRight prev < tileRight new /\
  exists gap, In gap GAP_SIZES /\ tileLeft new - tileRight prev == gap.
Proof.
  intros (gap & width & Hg & Hw & Ew & Ex).
  destruct (table_values_positive gap width Hg Hw) as [Pg Pw].
  unfold tileRight, tileLeft. rewrite Ex, Ew.
  repeat split.
  - qdiv. lra.
  - qdiv. lra.
  - exists gap. split; [exact Hg | field].
Qed.

Lemma chained_tail (t : TileData.t) (ts : list TileData.t) :
  chained (t :: ts) -> chained ts.
Proof. destruct ts; [trivial | intros [_ H]; exact H]. Qed.

(** Right edges grow along a chain. *)
Lemma chained_right_edges (t : TileData.t) (ts : list TileData.t) :
  chained (t :: ts) -> forall t', In t' ts -> tileRight t < tileRight t'.
Proof.
  revert t. induction ts as [|t2 ts IH]; intros t Hc t' Hin.
  - destruct Hin.
  - destruct Hc as [Hf Hc].
    destruct (follows_geometry t t2 Hf) as (_ & Hr & _).
    destruct Hin as [<-|Hin]; [exact Hr|].
    eapply Qlt_trans; [exact Hr | apply IH; assumption].
Qed.

(** Retirement by right edge cuts a chain at the front only, so what is
    left is still a chain. *)
Lemma filter_chained (c : Q) (ts : list TileData.t) :
  chained ts -> chained (filter (fun t => Qgtb (tileRight t) c) ts).
Proof.
  induction ts as [|t ts IH]; intro Hc; cbn [filter].
  - exact I.
  - destruct (Qgtb (tileRight t) c) eqn:E.
    + assert (Eall : filter (fun t => Qgtb (tileRight t) c) ts = ts).
      { apply forallb_filter_id. apply forallb_forall. intros t' Hin.
        apply Qgtb_iff. apply Qgtb_iff in E.
        eapply Qlt_trans; [exact E|].
        apply (chained_right_edges t ts Hc t' Hin). }
      rewrite Eall. exact Hc.
    + apply IH. eapply chained_tail. exact Hc.
Qed.

Lemma chained_snoc (ts : list TileData.t) (prev new : TileData.t) :
  chained ts -> lastOf ts = Some prev -> follows prev new ->
  chained (ts ++ [new]).
Proof.
  induction ts as [|t ts IH]; intros Hc Hl Hf.
  - discriminate.
  - destruct ts as [|t2 ts].
    + cbn in Hl. injection Hl as <-. cbn. split; [exact Hf | exact I].
    + destruct Hc as [Hf1 Hc]. cbn [app chained]. split; [exact Hf1|].
      apply IH; assumption.
Qed.

Lemma chained_adjacent (l1 l2 : list TileData.t) (prev new : TileData.t) :
  chained (l1 ++ prev :: new :: l2) -> follows prev new.
Proof.
  induction l1 as [|t l1 IH]; intro Hc.
  - destruct Hc as [Hf _]. exact Hf.
  - apply IH. eapply chained_tail. exact Hc.
Qed.

Lemma lastOf_snoc {A : Type} (l : list A) (a : A) : lastOf (l ++ [a]) = Some a.
Proof.
  induction l as [|b l IH]; [reflexivity|].
  cbn [app lastOf]. destruct (l ++ [a]) eqn:E; [|exact IH].
  destruct l; discriminate.
Qed.

(** The frontier extension keeps the chain. *)
Lemma spawn_chained (rnd : nat -> Q) (g : Game) :
  drawn rnd -> chained (tiles g) -> chained (tiles (spawn rnd g)).
Proof.
  intros Hd Hc.
  assert (Ha : chained (retire g)) by (apply filter_chained, Hc).
  unfold spawn. destruct (lastOf (retire g)) as [lastTile|] eqn:El;
    [|exact Ha].
  destruct (Qltb _ _); [|exact Ha].
  assert (Hn : chained
                 (retire g ++
                  [TileData.mk (tileIdCounter g)
                     (TileData.x lastTile + TileData.width lastTile / 2
                      + pick GAP_SIZES (rnd 1%nat)
                      + pick TILE_WIDTHS (rnd 0%nat) / 2)
                     (pick TILE_WIDTHS (rnd 0%nat)) medium])).
  { apply (chained_snoc _ lastTile); [exact Ha | exact El |].
    exists (pick GAP_SIZES (rnd 1%nat)), (pick TILE_WIDTHS (rnd 0%nat)).
    repeat split; apply pick_in; try discriminate; apply Hd. }
  destruct (Qltb _ _); exact Hn.
Qed.

Lemma updatePhysics_chained (rnd : nat -> Q) (g : Game) :
  drawn rnd -> chained (tiles g) -> chained (tiles (updatePhysics rnd g)).
Proof.
  intros Hd Hc. unfold updatePhysics. destruct (fallen (physics g)).
  - exact Hc.
  - rewrite (proj1 (pickup_creates_nothing _)).
    apply spawn_chained; [exact Hd | exact Hc].
Qed.

(** The start-up loop keeps the chain it extends. *)
Lemma initLoop_chained (rnd : nat -> Q) (n i : nat) (idCounter : Z)
    (initialTiles : list TileData.t) (prev : TileData.t) :
  drawn rnd -> chained initialTiles -> lastOf initialTiles = Some prev ->
  chained (fst (initLoop rnd n i (TileData.x prev) (TileData.width prev)
                  idCounter initialTiles)).
Proof.
  intro Hd. revert i idCounter initialTiles prev.
  induction n as [|n IH]; intros i idCounter initialTiles prev Hc Hl;
    cbn [initLoop].
  - exact Hc.
  - set (width := pick TILE_WIDTHS (rnd (2 * i)%nat)).
    set (gap := pick GAP_SIZES (rnd (2 * i + 1)%nat)).
    set (newTile := TileData.mk idCounter
                      (TileData.x prev + TileData.width prev / 2 + gap
                       + width / 2) width medium).
    apply (IH (S i) (idCounter + 1)%Z (initialTiles ++ [newTile]) newTile).
    + apply (chained_snoc _ prev); [exact Hc | exact Hl |].
      exists gap, width.
      repeat split; apply pick_in; try discriminate; apply Hd.
    + apply lastOf_snoc.
Qed.

Lemma handleStart_chained (rnd : nat -> Q) (g : Game) :
  drawn rnd -> chained (tiles (handleStart rnd g)).
Proof.
  intro Hd. unfold handleStart, initGame.
  pose proof (initLoop_chained rnd 5 0 1 [TileData.mk 0 0 600 long]
                (TileData.mk 0 0 600 long) Hd I eq_refl) as H.
  cbn [TileData.x TileData.width] in H.
  destruct (initLoop rnd 5 0 0 600 1 _) as [ts idc]. exact H.
Qed.

Lemma handleTap_chained (rnd : nat -> Q) (now : Z) (g : Game) :
  drawn rnd -> chained (tiles g) -> chained (tiles (handleTap rnd now g)).
Proof.
  intros Hd Hc.
  destruct (gameState g) eqn:Eg;
    try (unfold handleTap; rewrite Eg; apply handleStart_chained, Hd).
  rewrite (proj1 (tap_creates_nothing rnd now g Eg)). exact Hc.
Qed.

Lemma play_chained (es : list Event) (g : Game) :
  Forall fair es -> chained (tiles g) -> chained (tiles (play es g)).
Proof.
  revert g. induction es as [|[rnd now|rnd] es IH]; intros g Hf Hc;
    cbn [play perform].
  - exact Hc.
  - inversion Hf as [|e es' Hd Hf']; subst.
    apply IH; [exact Hf' | apply handleTap_chained; assumption].
  - inversion Hf as [|e es' Hd Hf']; subst.
    apply IH; [exact Hf' | apply updatePhysics_chained; assumption].
Qed.

(** C4: in every run, with [Math.random] drawing from [0, 1), any two
    neighbours [prev], [new] of the tile list satisfy the placement rule:
    the centre of [new] is the right edge of [prev] plus a gap from
    {100, 150, 200} plus half the width of [new], itself from
    {120, 180, 250, 400}.  Hence they do not overlap, and the space between
    them is exactly that gap. *)
Theorem generated_tiles_are_chained (rnd0 : nat -> Q) (g0 : Game)
    (es : list Event) (l1 l2 : list TileData.t) (prev new : TileData.t) :
  drawn rnd0 ->
  Forall fair es ->
  tiles (play es (handleStart rnd0 g0)) = l1 ++ prev :: new :: l2 ->
  exists gap width,
    In gap [100; 150; 200] /\ In width [120; 180; 250; 400] /\
    TileData.width new = width /\
    TileData.x new = tileRight prev + gap + width / 2 /\
    tileRight prev < tileLeft new /\
    tileLeft new - tileRight prev == gap.
Proof.
  intros Hd Hf Et.
  assert (Hc : chained (tiles (play es (handleStart rnd0 g0))))
    by (apply play_chained; [exact Hf | apply handleStart_chained, Hd]).
  rewrite Et in Hc. apply chained_adjacent in Hc.
  destruct (follows_geometry prev new Hc) as (Hlt & _ & _).
  destruct Hc as (gap & width & Hg & Hw & Ew & Ex).
  exists gap, width. repeat split; try assumption.
  unfold tileRight, tileLeft. rewrite Ex, Ew. field.
Qed.

(** ** The end of a run and the catch-up loop *)

Lemma moved_accumulator (s : State) : accumulator (moved s) = accumulator s.
Proof.
  destruct s as [y v cx sp og dj sc lt ac fc ct jb lg].
  unfold moved, decayTimers, advance, integrate.
  cbn -[Qmin Qplus Qdiv Z.sub Z.ltb].
  destruct (0 <? jb)%Z; cbn -[Qmin Qplus Qdiv Z.sub Z.ltb];
    destruct (0 <? ct)%Z; reflexivity.
Qed.

Lemma resolve_accumulator (ts : list TileData.t) (s : State) :
  accumulator (resolve ts s) = accumulator s.
Proof.
  destruct (resolve_cases ts s) as [(_ & E) | [(_ & E) | (_ & _ & E)]];
    rewrite E; clear E; try reflexivity.
  unfold autoJump. destruct (0 <? jumpBufferTimer (land TILE_Y s))%Z;
    reflexivity.
Qed.

(** A step does not touch the time accumulator. *)
Lemma updatePhysics_accumulator (rnd : nat -> Q) (g : Game) :
  accumulator (state (updatePhysics rnd g)) = accumulator (state g).
Proof.
  rewrite updatePhysics_state, physics_state.
  cbn [accumulator set_score].
  rewrite resolve_accumulator. apply moved_accumulator.
Qed.

(** The catch-up loop ends: with the accumulator below [n] steps' worth of
    time, [n + 1] units of fuel are enough. *)
Lemma catchUp_returns (rnds : nat -> nat -> Q) (n k : nat) (g : Game) :
  accumulator (state g) < inject_Z (Z.of_nat n) * TIME_STEP ->
  exists g', catchUp (S n) rnds k g = Some g'.
Proof.
  revert k g. induction n as [|n IH]; intros k g Hacc; cbn [catchUp].
  - destruct (Qgeb (accumulator (state g)) TIME_STEP) eqn:E.
    + apply Qgeb_iff in E. unfold TIME_STEP, TARGET_FPS in *.
      change (inject_Z (Z.of_nat 0)) with 0 in Hacc. qdiv.
      exfalso. lra.
    + exists g. reflexivity.
  - destruct (Qgeb (accumulator (state g)) TIME_STEP) eqn:E.
    + apply IH. cbn [state set_state accumulator set_accumulator].
      rewrite updatePhysics_accumulator.
      rewrite Nat2Z.inj_succ, <- Z.add_1_r, inject_Z_plus in Hacc.
      unfold TIME_STEP, TARGET_FPS in *. qdiv.
      change (inject_Z 1) with 1 in Hacc. lra.
    + exists g. reflexivity.
Qed.

(** A frame always completes: some amount of fuel lets [gameLoop] return. *)
Lemma gameLoop_returns (rnds : nat -> nat -> Q) (time : Q) (g : Game) :
  exists fuel g', gameLoop fuel rnds time g = Some g'.
Proof.
  unfold gameLoop. cbv zeta.
  set (s := set_accumulator _ _).
  set (n := Z.to_nat (Qfloor (accumulator s) + 1)).
  destruct (catchUp_returns rnds n 0 (set_state s g)) as [g' E].
  - change (accumulator (state (set_state s g))) with (accumulator s).
    eapply Qlt_le_trans; [apply Qlt_floor|].
    assert (Hn : inject_Z (Qfloor (accumulator s) + 1)
                 <= inject_Z (Z.of_nat n))
      by (rewrite <- Zle_Qle; unfold n; lia).
    assert (H0 : 0 <= inject_Z (Z.of_nat n))
      by (change 0 with (inject_Z 0); rewrite <- Zle_Qle; lia).
    unfold TIME_STEP, TARGET_FPS. qdiv.
    remember (inject_Z (Z.of_nat n)) as q.
    remember (inject_Z (Qfloor (accumulator s) + 1)) as a.
    lra.
  - exists (S n). rewrite E. eexists. reflexivity.
Qed.

(** Below the line nothing can land: the collision phase leaves height and
    velocity alone. *)
Lemma resolve_below (ts : list TileData.t) (s : State) :
  SCREEN_HEIGHT + 100 < snowballY s ->
  snowballY (resolve ts s) = snowballY s /\
  velocity (resolve ts s) = velocity s.
Proof.
  intro Hy.
  assert (Hl : landingCondition TILE_Y (snowballY s + SNOWBALL_SIZE) s
               = false).
  { destruct (landingCondition _ _ s) eqn:E; [|reflexivity].
    apply landingCondition_iff in E as (_ & E & _).
    unfold TILE_Y, SNOWBALL_SIZE, LANDING_TOLERANCE in E. lra. }
  destruct (resolve_cases ts s) as [(El & _) | [(_ & E) | (_ & _ & E)]].
  - unfold landsOn in El.
    rewrite (proj1 (collide_no_landing _ _ _ _ _ _ _ Hl)) in El.
    discriminate.
  - rewrite E. split; reflexivity.
  - rewrite E. split; reflexivity.
Qed.

(** Below the line and not moving up, the next step finds the ball below
    the line again: it returns before spawning and pickup, and it has
    already added its share to the score. *)
Lemma step_after_fall (rnd : nat -> Q) (g : Game) :
  fallen g = true -> 0 <= velocity (state g) ->
  fallen (physics g) = true /\
  0 <= velocity (state (physics g)) /\
  updatePhysics rnd g = handleGameOver (physics g) /\
  score (state (updatePhysics rnd g))
  = score (state g) + speed (state (updatePhysics rnd g)) / 100.
Proof.
  intros Hf Hv. unfold fallen in Hf. apply Qgtb_iff in Hf.
  destruct (integrate_fields (state g)) as (Ev & Ey).
  assert (Hmv : 0 <= velocity (moved (state g))).
  { rewrite moved_velocity, Ev. apply Q.min_glb;
      unfold GRAVITY, TERMINAL_VELOCITY; lra. }
  assert (Hmy : SCREEN_HEIGHT + 100 < snowballY (moved (state g))).
  { rewrite moved_snowballY, Ey, <- moved_velocity. lra. }
  destruct (resolve_below (tiles g) (moved (state g)) Hmy) as [Ry Rv].
  assert (Hfall : fallen (physics g) = true).
  { unfold fallen. rewrite physics_state, Ry. apply Qgtb_iff. exact Hmy. }
  assert (Hvel : 0 <= velocity (state (physics g)))
    by (rewrite physics_state, Rv; exact Hmv).
  assert (Eu : updatePhysics rnd g = handleGameOver (physics g))
    by (unfold updatePhysics; rewrite Hfall; reflexivity).
  repeat split; try assumption.
  rewrite Eu.
  change (state (handleGameOver (physics g))) with (state (physics g)).
  rewrite (proj1 (physics_score_speed g)), (proj2 (physics_score_speed g)).
  apply moved_score.
Qed.

(** * Further properties of the code *)

(** ** Timers and the grounded ball *)

Lemma initialState_settled : settled initialState.
Proof.
  unfold settled, initialState, COYOTE_TIME, JUMP_BUFFER_TIME.
  cbn [coyoteTimer jumpBufferTimer isOnGround snowballY velocity lastGroundY
       hasDoubleJump].
  repeat split; lia.
Qed.

(** Closes a [settled] goal about a state built by assignments. *)
Ltac settle :=
  unfold settled in *; fields; unfold COYOTE_TIME, JUMP_BUFFER_TIME in *;
  repeat split; first [lia | congruence | reflexivity].

Lemma handleTap_settled (rnd : nat -> Q) (now : Z) (g : Game) :
  settled (state g) -> settled (state (handleTap rnd now g)).
Proof.
  intros (Hc & Hb & Hg). unfold handleTap.
  destruct (gameState g);
    try (rewrite (proj1 (handleStart_state rnd g));
         apply initialState_settled).
  unfold COYOTE_TIME, JUMP_BUFFER_TIME in *.
  destruct (isOnGround (state g)) eqn:Eg; cbn [orb negb andb].
  - settle.
  - destruct (0 <? coyoteTimer (state g))%Z.
    + settle.
    + destruct (hasDoubleJump (state g) && _).
      * settle.
      * settle.
Qed.

(** The timers after the countdown of lines 431-432. *)
Lemma moved_timers_in_range (s : State) :
  (0 <= coyoteTimer s <= COYOTE_TIME)%Z ->
  (0 <= jumpBufferTimer s <= JUMP_BUFFER_TIME)%Z ->
  (0 <= coyoteTimer (moved s) <= COYOTE_TIME)%Z /\
  (0 <= jumpBufferTimer (moved s) <= JUMP_BUFFER_TIME)%Z.
Proof.
  intros Hc Hb. rewrite moved_coyoteTimer, moved_jumpBufferTimer.
  destruct (0 <? coyoteTimer s)%Z eqn:E1; [apply Z.ltb_lt in E1|];
    destruct (0 <? jumpBufferTimer s)%Z eqn:E2;
    try apply Z.ltb_lt in E2; lia.
Qed.

(** A ball that passes the landing test and was grounded either lands or
    rolls off: the near-ground test of line 470 does not come into it. *)
Lemma resolve_grounded (ts : list TileData.t) (s : State) :
  landingCondition TILE_Y (snowballY s + SNOWBALL_SIZE) s = true ->
  isOnGround s = true ->
  (overTiles ts s = true /\ landsOn ts s = true /\
   resolve ts s = autoJump (land TILE_Y s)) \/
  (overTiles ts s = false /\ landsOn ts s = false /\
   resolve ts s = set_coyoteTimer COYOTE_TIME (set_isOnGround false s)).
Proof.
  intros Hland Hg. destruct (overTiles ts s) eqn:Hov.
  - left. destruct (resolve_landing ts s Hov Hland) as [El Er]. auto.
  - right. repeat split; [|apply resolve_off_edge; assumption].
    unfold landsOn, overTiles in *.
    rewrite (collide_misses _ _ _ _ _ _ _ Hov). reflexivity.
Qed.

(** What the collision phase makes of a moved state [m], given what was
    known of the state [s] before the move. *)
Lemma resolve_settled (ts : list TileData.t) (s m : State) :
  settled s ->
  isOnGround m = isOnGround s ->
  (0 <= coyoteTimer m <= COYOTE_TIME)%Z ->
  (0 <= jumpBufferTimer m <= JUMP_BUFFER_TIME)%Z ->
  (isOnGround s = true ->
   landingCondition TILE_Y (snowballY m + SNOWBALL_SIZE) m = true) ->
  settled (resolve ts m) /\
  isOnGround (resolve ts m)
  = landsOn ts m && (jumpBufferTimer m <=? 0)%Z.
Proof.
  intros (_ & _ & Hrest) Eg Hc Hb Hland.
  assert (Hlanded : settled (autoJump (land TILE_Y m)) /\
                    isOnGround (autoJump (land TILE_Y m))
                    = (jumpBufferTimer m <=? 0)%Z).
  { unfold COYOTE_TIME, JUMP_BUFFER_TIME in *.
    destruct (Z_lt_le_dec 0 (jumpBufferTimer m)) as [H|H].
    - rewrite autoJump_fires by exact H.
      assert (E : (jumpBufferTimer m <=? 0)%Z = false)
        by (apply Z.leb_gt; exact H).
      rewrite E. split; [|reflexivity].
      settle.
    - rewrite autoJump_idle by exact H.
      assert (E : (jumpBufferTimer m <=? 0)%Z = true)
        by (apply Z.leb_le; exact H).
      rewrite E. split; [|reflexivity].
      settle. }
  assert (Hoff : settled (set_coyoteTimer COYOTE_TIME
                            (set_isOnGround false m))).
  { unfold COYOTE_TIME, JUMP_BUFFER_TIME in *.
    settle. }
  destruct (isOnGround s) eqn:Es.
  - destruct (resolve_grounded ts m (Hland eq_refl) Eg)
      as [(_ & El & Er) | (_ & El & Er)]; rewrite Er, El.
    + exact Hlanded.
    + split; [exact Hoff | reflexivity].
  - destruct (resolve_cases ts m) as [(El & Er) | [(El & Er) | (_ & E & _)]];
      [| |congruence]; rewrite Er, El.
    + exact Hlanded.
    + split; [|cbn; exact Eg].
      unfold settled. repeat split; try lia. all: congruence.
Qed.

Lemma settled_rests (s : State) :
  settled s -> isOnGround s = true -> restingOnSurface s.
Proof.
  intros (_ & _ & Hg) Eg. destruct (Hg Eg) as (Ey & Ev & _).
  unfold restingOnSurface. rewrite Ey, Ev. repeat split; auto; reflexivity.
Qed.

(** One collision phase, from a settled state. *)
Lemma physics_settled (g : Game) :
  settled (state g) ->
  settled (state (physics g)) /\
  isOnGround (state (physics g))
  = lands g && (jumpBufferTimer (moved (state g)) <=? 0)%Z.
Proof.
  intro Hs. rewrite physics_state. unfold lands.
  destruct (moved_flags (state g)) as (Fg & _ & _).
  destruct (moved_timers_in_range (state g) (proj1 Hs) (proj1 (proj2 Hs)))
    as [Hc Hb].
  assert (Hland : isOnGround (state g) = true ->
                  landingCondition TILE_Y
                    (snowballY (moved (state g)) + SNOWBALL_SIZE)
                    (moved (state g)) = true)
    by (intro Eg; apply moved_resting, settled_rests; assumption).
  revert Fg Hc Hb Hland. generalize (moved (state g)) as m.
  intros m Fg Hc Hb Hland.
  apply (resolve_settled (tiles g) (state g) m); assumption.
Qed.

Lemma set_score_settled (v : Q) (s : State) :
  settled s -> settled (set_score v s).
Proof. intro H. exact H. Qed.

Lemma updatePhysics_settled (rnd : nat -> Q) (g : Game) :
  settled (state g) ->
  settled (state (updatePhysics rnd g)) /\
  isOnGround (state (updatePhysics rnd g))
  = lands g && (jumpBufferTimer (moved (state g)) <=? 0)%Z.
Proof.
  intro Hs. destruct (physics_settled g Hs) as [H1 H2].
  rewrite updatePhysics_state. split.
  - apply set_score_settled, H1.
  - rewrite <- H2. reflexivity.
Qed.

Lemma play_settled (es : list Event) (g : Game) :
  settled (state g) -> settled (state (play es g)).
Proof.
  revert g. induction es as [|[rnd now|rnd] es IH]; intros g Hs;
    cbn [play perform].
  - exact Hs.
  - apply IH, handleTap_settled, Hs.
  - apply IH, updatePhysics_settled, Hs.
Qed.

Lemma run_settled (rnd0 : nat -> Q) (g0 : Game) (es : list Event) :
  settled (state (play es (handleStart rnd0 g0))).
Proof.
  apply play_settled. rewrite (proj1 (handleStart_state rnd0 g0)).
  apply initialState_settled.
Qed.

(** X1: throughout every run the coyote timer stays between 0 and its full
    value 8 and the jump-buffer timer between 0 and its full value 6: the
    countdown of lines 431-432 never takes a timer below zero. *)
Theorem timers_stay_in_range (rnd0 : nat -> Q) (g0 : Game) (es : list Event) :
  (0 <= coyoteTimer (state (play es (handleStart rnd0 g0))) <= 8)%Z /\
  (0 <= jumpBufferTimer (state (play es (handleStart rnd0 g0))) <= 6)%Z.
Proof.
  destruct (run_settled rnd0 g0 es) as (Hc & Hb & _).
  split; assumption.
Qed.

(** X2: throughout every run a grounded ball rests exactly on the surface:
    its top is at [TILE_Y - 40], its velocity 0, the last grounded height is
    its height, it has no double jump and no buffered jump in store. *)
Theorem grounded_ball_rests (rnd0 : nat -> Q) (g0 : Game) (es : list Event) :
  isOnGround (state (play es (handleStart rnd0 g0))) = true ->
  snowballY (state (play es (handleStart rnd0 g0))) = TILE_Y - SNOWBALL_SIZE /\
  velocity (state (play es (handleStart rnd0 g0))) = 0 /\
  lastGroundY (state (play es (handleStart rnd0 g0)))
  = snowballY (state (play es (handleStart rnd0 g0))) /\
  hasDoubleJump (state (play es (handleStart rnd0 g0))) = false /\
  jumpBufferTimer (state (play es (handleStart rnd0 g0))) = 0%Z.
Proof.
  destruct (run_settled rnd0 g0 es) as (_ & _ & Hg). exact Hg.
Qed.

(** X3: in every run the ball is grounded after a step exactly when the
    collision loop of that step resolved a landing and no buffered jump was
    pending; the near-ground test of line 470 never decides it. *)
Theorem grounded_iff_landed (rnd0 : nat -> Q) (g0 : Game) (es : list Event)
    (rnd : nat -> Q) :
  isOnGround (state (updatePhysics rnd (play es (handleStart rnd0 g0))))
  = lands (play es (handleStart rnd0 g0))
    && (jumpBufferTimer (moved (state (play es (handleStart rnd0 g0))))
        <=? 0)%Z.
Proof.
  apply updatePhysics_settled, run_settled.
Qed.

(** ** Flight: the coyote window and the jump buffer *)

(** A step in the air that does not land only moves the ball: the flags
    stay, the timers count down. *)
Lemma flight_step (rnd : nat -> Q) (g : Game) :
  isOnGround (state g) = false -> lands g = false ->
  isOnGround (state (updatePhysics rnd g)) = false /\
  hasDoubleJump (state (updatePhysics rnd g)) = hasDoubleJump (state g) /\
  coyoteTimer (state (updatePhysics rnd g))
  = (if (0 <? coyoteTimer (state g))%Z then coyoteTimer (state g) - 1
     else coyoteTimer (state g))%Z /\
  jumpBufferTimer (state (updatePhysics rnd g))
  = (if (0 <? jumpBufferTimer (state g))%Z then jumpBufferTimer (state g) - 1
     else jumpBufferTimer (state g))%Z.
Proof.
  intros Hg Hl.
  destruct (moved_flags (state g)) as (Fg & Fd & _).
  pose proof (moved_coyoteTimer (state g)) as Mc.
  pose proof (moved_jumpBufferTimer (state g)) as Mb.
  rewrite <- Fg in Hg. rewrite <- Fd, <- Mc, <- Mb.
  rewrite updatePhysics_state, physics_state. unfold lands in Hl.
  clear Fg Fd Mc Mb. revert Hg Hl.
  generalize (score (state (updatePhysics rnd g))) as sc.
  generalize (moved (state g)) as m. intros m sc Hg Hl.
  rewrite (resolve_airborne (tiles g) m Hl Hg).
  repeat split. exact Hg.
Qed.

(** Over a stretch of flight the coyote timer counts down, one per step,
    and stops at zero; the flags do not change. *)
Lemma flight_coyote (rnds : list (nat -> Q)) (g : Game) :
  isOnGround (state g) = false ->
  (0 <= coyoteTimer (state g))%Z ->
  airborneAlong (map Step rnds) g ->
  isOnGround (state (play (map Step rnds) g)) = false /\
  hasDoubleJump (state (play (map Step rnds) g)) = hasDoubleJump (state g) /\
  coyoteTimer (state (play (map Step rnds) g))
  = Z.max (coyoteTimer (state g) - Z.of_nat (length rnds)) 0.
Proof.
  revert g. induction rnds as [|rnd rnds IH]; intros g Hg Hc Ha;
    cbn [map play perform airborneAlong length] in *.
  - repeat split; try assumption; lia.
  - destruct Ha as [Hl Ha].
    destruct (flight_step rnd g Hg Hl) as (Eg & Ed & Ec & _).
    assert (Ec' : coyoteTimer (state (updatePhysics rnd g))
                  = Z.max (coyoteTimer (state g) - 1) 0).
    { rewrite Ec. destruct (0 <? coyoteTimer (state g))%Z eqn:E1;
        [apply Z.ltb_lt in E1 | apply Z.ltb_ge in E1]; lia. }
    destruct (IH (updatePhysics rnd g)) as (I1 & I2 & I3);
      [exact Eg | lia | exact Ha |].
    rewrite I1, I2, I3, Ed, Ec'. repeat split; lia.
Qed.

(** So does the jump-buffer timer. *)
Lemma flight_buffer (rnds : list (nat -> Q)) (g : Game) :
  isOnGround (state g) = false ->
  (0 <= jumpBufferTimer (state g))%Z ->
  airborneAlong (map Step rnds) g ->
  jumpBufferTimer (state (play (map Step rnds) g))
  = Z.max (jumpBufferTimer (state g) - Z.of_nat (length rnds)) 0.
Proof.
  revert g. induction rnds as [|rnd rnds IH]; intros g Hg Hb Ha;
    cbn [map play perform airborneAlong length] in *.
  - lia.
  - destruct Ha as [Hl Ha].
    destruct (flight_step rnd g Hg Hl) as (Eg & _ & _ & Eb).
    assert (Eb' : jumpBufferTimer (state (updatePhysics rnd g))
                  = Z.max (jumpBufferTimer (state g) - 1) 0).
    { rewrite Eb. destruct (0 <? jumpBufferTimer (state g))%Z eqn:E1;
        [apply Z.ltb_lt in E1 | apply Z.ltb_ge in E1]; lia. }
    rewrite (IH (updatePhysics rnd g) Eg); [|lia | exact Ha].
    rewrite Eb'. lia.
Qed.

(** The step that takes a grounded ball past the edge opens the coyote
    window and leaves the double-jump flag alone. *)
Lemma step_off_edge (rnd : nat -> Q) (g : Game) :
  isOnGround (state g) = true -> overPlatform g = false ->
  isOnGround (state (updatePhysics rnd g)) = false /\
  coyoteTimer (state (updatePhysics rnd g)) = COYOTE_TIME /\
  hasDoubleJump (state (updatePhysics rnd g)) = hasDoubleJump (state g).
Proof.
  intros Hg Hov.
  destruct (moved_flags (state g)) as (Fg & Fd & _).
  rewrite <- Fg in Hg. rewrite <- Fd.
  rewrite updatePhysics_state, physics_state. unfold overPlatform in Hov.
  clear Fg Fd. revert Hg Hov.
  generalize (score (state (updatePhysics rnd g))) as sc.
  generalize (moved (state g)) as m. intros m sc Hg Hov.
  rewrite (resolve_off_edge (tiles g) m Hov Hg).
  repeat split.
Qed.

(** X4: the coyote window is exactly eight steps long.  When a step takes a
    grounded ball past the end of its platform, then after [n] further steps
    of flight the coyote timer stands at [max (8 - n) 0]; a tap made then is
    a full ground jump if [n < 8], and after that only arms the jump buffer
    (a ball that rolled off has no double jump). *)
Theorem coyote_window (rnd : nat -> Q) (g : Game) (rnds : list (nat -> Q))
    (rnd' : nat -> Q) (now : Z) :
  gameState g = playing ->
  isOnGround (state g) = true ->
  hasDoubleJump (state g) = false ->
  overPlatform g = false ->
  airborneAlong (map Step rnds) (updatePhysics rnd g) ->
  gameState (play (map Step rnds) (updatePhysics rnd g)) = playing ->
  coyoteTimer (state (play (map Step rnds) (updatePhysics rnd g)))
  = Z.max (8 - Z.of_nat (length rnds)) 0 /\
  state (handleTap rnd' now (play (map Step rnds) (updatePhysics rnd g)))
  = if (length rnds <? 8)%nat
    then set_hasDoubleJump true
           (set_coyoteTimer 0
              (set_isOnGround false
                 (set_velocity JUMP_FORCE
                    (state (play (map Step rnds) (updatePhysics rnd g))))))
    else set_jumpBufferTimer JUMP_BUFFER_TIME
           (state (play (map Step rnds) (updatePhysics rnd g))).
Proof.
  intros Hplay Hg Hd Hov Ha Hp.
  destruct (step_off_edge rnd g Hg Hov) as (E1 & E2 & E3).
  rewrite Hd in E3. unfold COYOTE_TIME in E2.
  destruct (flight_coyote rnds (updatePhysics rnd g) E1) as (F1 & F2 & F3);
    [lia | exact Ha |].
  rewrite E2 in F3. rewrite E3 in F2.
  split; [exact F3|].
  unfold handleTap. rewrite Hp, F1, F2, F3. cbn [orb negb andb].
  destruct (length rnds <? 8)%nat eqn:En.
  - apply Nat.ltb_lt in En.
    assert (Ez : (0 <? Z.max (8 - Z.of_nat (length rnds)) 0)%Z = true)
      by (apply Z.ltb_lt; lia).
    rewrite Ez. reflexivity.
  - apply Nat.ltb_ge in En.
    assert (Ez : (0 <? Z.max (8 - Z.of_nat (length rnds)) 0)%Z = false)
      by (apply Z.ltb_ge; lia).
    rewrite Ez. reflexivity.
Qed.

Lemma flight_airborne (rnds : list (nat -> Q)) (g : Game) :
  isOnGround (state g) = false ->
  airborneAlong (map Step rnds) g ->
  isOnGround (state (play (map Step rnds) g)) = false.
Proof.
  revert g. induction rnds as [|rnd rnds IH]; intros g Hg Ha;
    cbn [map play perform airborneAlong] in *.
  - exact Hg.
  - destruct Ha as [Hl Ha]. apply IH; [|exact Ha].
    apply (flight_step rnd g Hg Hl).
Qed.

(** The step that lands: a buffered jump still pending after this step's
    countdown fires, otherwise the ball comes to rest. *)
Lemma landing_step (rnd : nat -> Q) (g : Game) :
  lands g = true ->
  velocity (state (updatePhysics rnd g))
  = (if (0 <? jumpBufferTimer (moved (state g)))%Z then JUMP_FORCE else 0) /\
  isOnGround (state (updatePhysics rnd g))
  = negb (0 <? jumpBufferTimer (moved (state g)))%Z /\
  jumpBufferTimer (state (updatePhysics rnd g))
  = (if (0 <? jumpBufferTimer (moved (state g)))%Z then 0
     else jumpBufferTimer (moved (state g)))%Z.
Proof.
  intro Hl. rewrite updatePhysics_state, physics_state. unfold lands in Hl.
  revert Hl. generalize (score (state (updatePhysics rnd g))) as sc.
  generalize (moved (state g)) as m. intros m sc Hl.
  destruct (resolve_cases (tiles g) m) as [(_ & E) | [(E & _) | (E & _)]];
    [|congruence|congruence].
  rewrite E. unfold autoJump.
  change (jumpBufferTimer (land TILE_Y m)) with (jumpBufferTimer m).
  destruct (0 <? jumpBufferTimer m)%Z; repeat split.
Qed.

(** X5: the jump buffer is a window of five steps.  A tap made in the air
    when neither a ground jump nor a double jump is to be had arms the
    buffer with 6; if the ball then lands on the step after [n] steps of
    flight, that landing turns into a jump when [n < 5], and otherwise the
    ball comes to rest; either way the buffer is empty afterwards. *)
Theorem jump_buffer_window (rnd : nat -> Q) (now : Z) (g : Game)
    (rnds : list (nat -> Q)) (rnd' : nat -> Q) :
  gameState g = playing ->
  isOnGround (state g) = false ->
  (coyoteTimer (state g) <= 0)%Z ->
  hasDoubleJump (state g) = false \/ (300 <= now - lastTapTime g)%Z ->
  airborneAlong (map Step rnds) (handleTap rnd now g) ->
  lands (play (map Step rnds) (handleTap rnd now g)) = true ->
  jumpBufferTimer (state (handleTap rnd now g)) = 6%Z /\
  velocity
    (state (updatePhysics rnd' (play (map Step rnds) (handleTap rnd now g))))
  = (if (length rnds <? 5)%nat then JUMP_FORCE else 0) /\
  isOnGround
    (state (updatePhysics rnd' (play (map Step rnds) (handleTap rnd now g))))
  = negb (length rnds <? 5)%nat /\
  jumpBufferTimer
    (state (updatePhysics rnd' (play (map Step rnds) (handleTap rnd now g))))
  = 0%Z.
Proof.
  intros Hplay Hg Hc Hd Ha Hl.
  assert (E : state (handleTap rnd now g)
              = set_jumpBufferTimer JUMP_BUFFER_TIME (state g)).
  { unfold handleTap. rewrite Hplay, Hg. cbn [orb negb andb].
    destruct (0 <? coyoteTimer (state g))%Z eqn:E1;
      [apply Z.ltb_lt in E1; lia|].
    assert (E2 : hasDoubleJump (state g) && (now - lastTapTime g <? 300)%Z
                 = false).
    { destruct Hd as [Hd|Hd]; [rewrite Hd; reflexivity|].
      apply andb_false_iff. right. apply Z.ltb_ge. exact Hd. }
    rewrite E2. reflexivity. }
  assert (Eg : isOnGround (state (handleTap rnd now g)) = false)
    by (rewrite E; exact Hg).
  assert (Eb : jumpBufferTimer (state (handleTap rnd now g)) = 6%Z)
    by (rewrite E; reflexivity).
  clear E. split; [exact Eb|].
  pose proof (flight_buffer rnds (handleTap rnd now g) Eg) as Fb.
  rewrite Eb in Fb. specialize (Fb ltac:(lia) Ha).
  destruct (landing_step rnd'
              (play (map Step rnds) (handleTap rnd now g)) Hl)
    as (Lv & Lg & Lb).
  rewrite Lv, Lg, Lb, moved_jumpBufferTimer, Fb.
  destruct (length rnds <? 5)%nat eqn:En;
    [apply Nat.ltb_lt in En | apply Nat.ltb_ge in En].
  - assert (E1 : (0 <? Z.max (6 - Z.of_nat (length rnds)) 0)%Z = true)
      by (apply Z.ltb_lt; lia).
    rewrite E1.
    assert (E2 : (0 <? Z.max (6 - Z.of_nat (length rnds)) 0 - 1)%Z = true)
      by (apply Z.ltb_lt; lia).
    rewrite E2. repeat split.
  - destruct (0 <? Z.max (6 - Z.of_nat (length rnds)) 0)%Z eqn:E1;
      [apply Z.ltb_lt in E1 | apply Z.ltb_ge in E1].
    + assert (E2 : (0 <? Z.max (6 - Z.of_nat (length rnds)) 0 - 1)%Z = false)
        by (apply Z.ltb_ge; lia).
      rewrite E2. repeat split. lia.
    + assert (E2 : (0 <? Z.max (6 - Z.of_nat (length rnds)) 0)%Z = false)
        by (apply Z.ltb_ge; lia).
      rewrite E2. repeat split. lia.
Qed.


(** ** The double tap *)

Lemma spawn_lastTapTime (rnd : nat -> Q) (g : Game) :
  lastTapTime (spawn rnd g) = lastTapTime g.
Proof.
  unfold spawn. destruct (lastOf (retire g)); [|reflexivity].
  destruct (Qltb _ _); [|reflexivity].
  destruct (Qltb _ _); reflexivity.
Qed.

(** Only taps write [lastTapTimeRef]. *)
Lemma updatePhysics_lastTapTime (rnd : nat -> Q) (g : Game) :
  lastTapTime (updatePhysics rnd g) = lastTapTime g.
Proof.
  unfold updatePhysics. destruct (fallen (physics g)).
  - reflexivity.
  - unfold pickup. cbn [lastTapTime]. rewrite spawn_lastTapTime. reflexivity.
Qed.

Lemma steps_lastTapTime (rnds : list (nat -> Q)) (g : Game) :
  lastTapTime (play (map Step rnds) g) = lastTapTime g.
Proof.
  revert g. induction rnds as [|rnd rnds IH]; intro g;
    cbn [map play perform]; [reflexivity|].
  rewrite IH. apply updatePhysics_lastTapTime.
Qed.

(** A tap on the ground or inside the coyote window. *)
Lemma ground_jump (rnd : nat -> Q) (now : Z) (g : Game) :
  gameState g = playing ->
  isOnGround (state g) = true \/ (0 < coyoteTimer (state g))%Z ->
  velocity (state (handleTap rnd now g)) = JUMP_FORCE /\
  isOnGround (state (handleTap rnd now g)) = false /\
  hasDoubleJump (state (handleTap rnd now g)) = true /\
  coyoteTimer (state (handleTap rnd now g)) = 0%Z /\
  lastTapTime (handleTap rnd now g) = now.
Proof.
  intros Hplay Hj. unfold handleTap. rewrite Hplay.
  assert (E : isOnGround (state g) || (0 <? coyoteTimer (state g))%Z = true).
  { apply orb_true_iff. destruct Hj as [Hj|Hj]; [left; exact Hj|].
    right. apply Z.ltb_lt. exact Hj. }
  rewrite E. repeat split.
Qed.

(** X6: the double jump is a double tap.  After a jump from the ground (or
    from inside the coyote window) at time [t0], a second tap at time [t1],
    made before the ball has landed again, however many steps later, is a
    double jump exactly when [t1 - t0 < 300]; it then also clears the
    recorded tap time.  A later second tap only arms the jump buffer and
    becomes the recorded tap. *)
Theorem double_tap_window (rnd : nat -> Q) (t0 : Z) (g : Game)
    (rnds : list (nat -> Q)) (rnd' : nat -> Q) (t1 : Z) :
  gameState g = playing ->
  isOnGround (state g) = true \/ (0 < coyoteTimer (state g))%Z ->
  airborneAlong (map Step rnds) (handleTap rnd t0 g) ->
  gameState (play (map Step rnds) (handleTap rnd t0 g)) = playing ->
  state (handleTap rnd' t1 (play (map Step rnds) (handleTap rnd t0 g)))
  = (if (t1 - t0 <? 300)%Z
     then set_hasDoubleJump false
            (set_velocity DOUBLE_JUMP_FORCE
               (state (play (map Step rnds) (handleTap rnd t0 g))))
     else set_jumpBufferTimer JUMP_BUFFER_TIME
            (state (play (map Step rnds) (handleTap rnd t0 g)))) /\
  lastTapTime (handleTap rnd' t1 (play (map Step rnds) (handleTap rnd t0 g)))
  = (if (t1 - t0 <? 300)%Z then 0 else t1)%Z.
Proof.
  intros Hplay Hj Ha Hp.
  destruct (ground_jump rnd t0 g Hplay Hj) as (_ & Jg & Jd & Jc & Jt).
  destruct (flight_coyote rnds (handleTap rnd t0 g) Jg) as (F1 & F2 & F3);
    [lia | exact Ha |].
  rewrite Jd in F2. rewrite Jc in F3.
  pose proof (steps_lastTapTime rnds (handleTap rnd t0 g)) as Ft.
  rewrite Jt in Ft.
  assert (Ez : (0 <? Z.max (0 - Z.of_nat (length rnds)) 0)%Z = false)
    by (apply Z.ltb_ge; lia).
  revert Hp F1 F2 F3 Ft.
  generalize (play (map Step rnds) (handleTap rnd t0 g)) as g'.
  intros g' Hp F1 F2 F3 Ft.
  unfold handleTap. rewrite Hp, F1, F2, F3, Ft, Ez. cbn [orb negb andb].
  destruct (t1 - t0 <? 300)%Z; split; reflexivity.
Qed.

(** ** The trajectory of a flight *)

(** A step that does not land moves the ball by the clamped velocity. *)
Lemma flight_motion (rnd : nat -> Q) (g : Game) :
  lands g = false ->
  velocity (state (updatePhysics rnd g))
  = Qmin (velocity (state g) + GRAVITY) TERMINAL_VELOCITY /\
  snowballY (state (updatePhysics rnd g))
  = snowballY (state g) + velocity (state (updatePhysics rnd g)).
Proof.
  intro Hl.
  destruct (integrate_fields (state g)) as [Iv Iy].
  rewrite <- Iv, <- moved_velocity.
  rewrite <- moved_velocity, <- moved_snowballY in Iy.
  rewrite updatePhysics_state, physics_state. unfold lands in Hl.
  revert Hl Iy. generalize (score (state (updatePhysics rnd g))) as sc.
  generalize (moved (state g)) as m. intros m sc Hl Iy.
  destruct (resolve_cases (tiles g) m) as [(E & _) | [(_ & E) | (_ & _ & E)]];
    [congruence | |]; rewrite E; split; first [reflexivity | exact Iy].
Qed.

(** In the exact arithmetic of this model, [n] steps none of which lands
    add the gravity 0.6 to the velocity [n] times, up to the terminal
    velocity 20, and while it stays below that the ball follows the parabola
    [y + n v + 0.3 n (n + 1)]. *)
Lemma flight_closed_form (rnds : list (nat -> Q)) (g : Game) :
  velocity (state g) <= TERMINAL_VELOCITY ->
  airborneAlong (map Step rnds) g ->
  velocity (state (play (map Step rnds) g))
  == Qmin (velocity (state g)
           + inject_Z (Z.of_nat (length rnds)) * GRAVITY)
       TERMINAL_VELOCITY /\
  (velocity (state g) + inject_Z (Z.of_nat (length rnds)) * GRAVITY
   <= TERMINAL_VELOCITY ->
   snowballY (state (play (map Step rnds) g))
   == snowballY (state g)
      + inject_Z (Z.of_nat (length rnds)) * velocity (state g)
      + GRAVITY / 2 * inject_Z (Z.of_nat (length rnds))
        * (inject_Z (Z.of_nat (length rnds)) + 1)).
Proof.
  revert g. induction rnds as [|rnd rnds IH]; intros g Hv Ha;
    cbn [map play perform airborneAlong length] in *.
  - change (inject_Z (Z.of_nat 0)) with 0. split.
    + rewrite Q.min_l by lra. ring.
    + intros _. unfold GRAVITY. qdiv. ring.
  - destruct Ha as [Hl Ha].
    destruct (flight_motion rnd g Hl) as [Ev Ey].
    assert (Hv1 : velocity (state (updatePhysics rnd g)) <= TERMINAL_VELOCITY)
      by (rewrite Ev; apply Q.le_min_r).
    destruct (IH (updatePhysics rnd g) Hv1 Ha) as [IHv IHy].
    rewrite Nat2Z.inj_succ, <- Z.add_1_r, inject_Z_plus.
    change (inject_Z 1) with 1.
    assert (Hn : 0 <= inject_Z (Z.of_nat (length rnds)))
      by (change 0 with (inject_Z 0); rewrite <- Zle_Qle; lia).
    revert IHv IHy Hn. generalize (inject_Z (Z.of_nat (length rnds))) as n.
    intros n IHv IHy Hn. split.
    + rewrite IHv, Ev. unfold GRAVITY, TERMINAL_VELOCITY in *.
      destruct (Q.min_spec (velocity (state g) + 0.6) 20) as [[H1 E1]|[H1 E1]];
        rewrite E1;
        destruct (Q.min_spec (velocity (state g) + (n + 1) * 0.6) 20)
          as [[H2 E2]|[H2 E2]]; rewrite E2; clear E1 E2.
      * rewrite Q.min_l by lra. ring.
      * rewrite Q.min_r by lra. reflexivity.
      * exfalso. nra.
      * rewrite Q.min_r by nra. reflexivity.
    + intro Hcap. unfold GRAVITY, TERMINAL_VELOCITY in *.
      assert (E1 : velocity (state (updatePhysics rnd g))
                   == velocity (state g) + 0.6)
        by (rewrite Ev; apply Q.min_l; nra).
      rewrite IHy by (rewrite E1; lra).
      rewrite Ey, E1. qdiv. ring.
Qed.


Lemma Qsquare_nonneg (x : Q) : 0 <= x * x.
Proof. nra. Qed.

(** A stretch of steps falls into two stretches. *)
Lemma play_steps_app (l1 l2 : list (nat -> Q)) (g : Game) :
  play (map Step (l1 ++ l2)) g
  = play (map Step l2) (play (map Step l1) g).
Proof.
  revert g. induction l1 as [|rnd l1 IH]; intro g; cbn [app map play perform].
  - reflexivity.
  - apply IH.
Qed.

Lemma airborneAlong_steps_app (l1 l2 : list (nat -> Q)) (g : Game) :
  airborneAlong (map Step (l1 ++ l2)) g ->
  airborneAlong (map Step l1) g /\
  airborneAlong (map Step l2) (play (map Step l1) g).
Proof.
  revert g. induction l1 as [|rnd l1 IH]; intro g;
    cbn [app map play perform airborneAlong].
  - intro H. split; [exact I | exact H].
  - intros [Hl Ha]. destruct (IH _ Ha) as [H1 H2].
    repeat split; assumption.
Qed.

(** Once the ball is moving down it keeps moving down until it lands. *)
Lemma flight_falls (rnds : list (nat -> Q)) (g : Game) :
  0 <= velocity (state g) ->
  airborneAlong (map Step rnds) g ->
  snowballY (state g) <= snowballY (state (play (map Step rnds) g)).
Proof.
  revert g. induction rnds as [|rnd rnds IH]; intros g Hv Ha;
    cbn [map play perform airborneAlong] in *.
  - lra.
  - destruct Ha as [Hl Ha].
    destruct (flight_motion rnd g Hl) as [Ev Ey].
    assert (Hv1 : 0 <= velocity (state (updatePhysics rnd g))).
    { rewrite Ev. apply Q.min_glb; unfold GRAVITY, TERMINAL_VELOCITY; lra. }
    specialize (IH (updatePhysics rnd g) Hv1 Ha).
    rewrite Ey in IH. lra.
Qed.

(** A jump command leaves the ball where it is. *)
Lemma handleTap_snowballY (rnd : nat -> Q) (now : Z) (g : Game) :
  gameState g = playing ->
  snowballY (state (handleTap rnd now g)) = snowballY (state g).
Proof.
  intro Hplay. unfold handleTap. rewrite Hplay.
  destruct (isOnGround (state g) || _); [reflexivity|].
  destruct (negb _ && _ && _); [reflexivity|].
  destruct (negb _); reflexivity.
Qed.

(** X7: the arc of a jump.  At a state [g] of a run, after a jump from the
    ground or from inside the coyote window and [n] steps none of which
    lands, the ball is still rising (velocity below 0) when [n <= 23] and
    falling (velocity above 0) when [n >= 24]; it is never 157 or more above
    the height it jumped from; it is above that height for [1 <= n <= 45]
    and below it from [n = 46] on.  The closest of these comparisons has a
    margin of 0.2. *)
Theorem jump_arc (rnd0 : nat -> Q) (g0 : Game) (es : list Event)
    (g : Game) (rnd : nat -> Q) (t0 : Z) (rnds : list (nat -> Q)) :
  g = play es (handleStart rnd0 g0) ->
  gameState g = playing ->
  isOnGround (state g) = true \/ (0 < coyoteTimer (state g))%Z ->
  airborneAlong (map Step rnds) (handleTap rnd t0 g) ->
  ((length rnds <= 23)%nat ->
   velocity (state (play (map Step rnds) (handleTap rnd t0 g))) < 0) /\
  ((24 <= length rnds)%nat ->
   0 < velocity (state (play (map Step rnds) (handleTap rnd t0 g)))) /\
  snowballY (state g) - 157
  < snowballY (state (play (map Step rnds) (handleTap rnd t0 g))) /\
  ((1 <= length rnds <= 45)%nat ->
   snowballY (state (play (map Step rnds) (handleTap rnd t0 g)))
   < snowballY (state g)) /\
  ((46 <= length rnds)%nat ->
   snowballY (state g)
   < snowballY (state (play (map Step rnds) (handleTap rnd t0 g)))).
Proof.
  intros _ Hplay Hj Ha.
  destruct (ground_jump rnd t0 g Hplay Hj) as (Jv & _).
  pose proof (handleTap_snowballY rnd t0 g Hplay) as Jy.
  revert Ha Jv Jy. generalize (handleTap rnd t0 g) as g1.
  intros g1 Ha Jv Jy. unfold JUMP_FORCE in Jv.
  assert (Hcap : velocity (state g1) <= TERMINAL_VELOCITY)
    by (rewrite Jv; unfold TERMINAL_VELOCITY; lra).
  destruct (flight_closed_form rnds g1 Hcap Ha) as [Cv Cy].
  rewrite Jv in Cv, Cy. rewrite Jy in Cy.
  assert (Hn : 0 <= inject_Z (Z.of_nat (length rnds)))
    by (change 0 with (inject_Z 0); rewrite <- Zle_Qle; lia).
  assert (Hlow : (length rnds <= 46)%nat ->
            snowballY (state (play (map Step rnds) g1))
            == snowballY (state g)
               + inject_Z (Z.of_nat (length rnds)) * -14
               + GRAVITY / 2 * inject_Z (Z.of_nat (length rnds))
                 * (inject_Z (Z.of_nat (length rnds)) + 1)).
  { intro Hle. apply Cy.
    assert (H46 : inject_Z (Z.of_nat (length rnds)) <= 46)
      by (change 46 with (inject_Z 46); rewrite <- Zle_Qle; lia).
    unfold GRAVITY, TERMINAL_VELOCITY. lra. }
  assert (Hhigh : (46 <= length rnds)%nat ->
            snowballY (state g) + 4
            < snowballY (state (play (map Step rnds) g1))).
  { intro Hge.
    rewrite <- (firstn_skipn 46 rnds) in Ha |- *.
    rewrite play_steps_app.
    apply airborneAlong_steps_app in Ha as [Ha1 Ha2].
    assert (El : length (firstn 46 rnds) = 46%nat)
      by (apply firstn_length_le, Hge).
    destruct (flight_closed_form (firstn 46 rnds) g1 Hcap Ha1) as [Dv Dy].
    rewrite El, Jv in Dv, Dy. rewrite Jy in Dy.
    change (inject_Z (Z.of_nat 46)) with 46 in Dv, Dy.
    unfold GRAVITY, TERMINAL_VELOCITY in Dv, Dy.
    rewrite Q.min_l in Dv by lra.
    assert (Dy' : snowballY (state (play (map Step (firstn 46 rnds)) g1))
                  == snowballY (state g) + 46 * -14 + 0.6 / 2 * 46 * (46 + 1))
      by (apply Dy; lra).
    pose proof (flight_falls (skipn 46 rnds)
                  (play (map Step (firstn 46 rnds)) g1)) as Hf.
    rewrite Dv in Hf. specialize (Hf ltac:(lra) Ha2).
    rewrite Dy' in Hf. qdiv. lra. }
  clear Cy.
  revert Cv Hlow Hhigh Hn.
  generalize (velocity (state (play (map Step rnds) g1))) as v.
  generalize (snowballY (state (play (map Step rnds) g1))) as y.
  generalize (snowballY (state g)) as y0.
  intros y0 y v Cv Hlow Hhigh Hn.
  unfold GRAVITY, TERMINAL_VELOCITY in *.
  assert (Hz : forall k : nat, (length rnds <= k)%nat ->
                 inject_Z (Z.of_nat (length rnds)) <= inject_Z (Z.of_nat k))
    by (intros k Hk; rewrite <- Zle_Qle; lia).
  assert (Hz' : forall k : nat, (k <= length rnds)%nat ->
                  inject_Z (Z.of_nat k) <= inject_Z (Z.of_nat (length rnds)))
    by (intros k Hk; rewrite <- Zle_Qle; lia).
  split; [|split; [|split; [|split]]].
  - intro H. apply Hz in H. change (inject_Z (Z.of_nat 23)) with 23 in H.
    rewrite Cv. rewrite Q.min_l by lra. lra.
  - intro H. apply Hz' in H. change (inject_Z (Z.of_nat 24)) with 24 in H.
    rewrite Cv.
    destruct (Q.min_spec (-14 + inject_Z (Z.of_nat (length rnds)) * 0.6) 20)
      as [[_ E]|[_ E]]; rewrite E; lra.
  - destruct (Nat.le_gt_cases (length rnds) 46) as [Hle|Hgt].
    + rewrite (Hlow Hle). apply Hz in Hle.
      change (inject_Z (Z.of_nat 46)) with 46 in Hle.
      revert Hn Hle. generalize (inject_Z (Z.of_nat (length rnds))) as n.
      intros n Hn Hle. qdiv.
      pose proof (Qsquare_nonneg (n - (137 # 6))) as Hs. lra.
    + specialize (Hhigh ltac:(lia)). lra.
  - intros [H1 H45].
    rewrite (Hlow ltac:(lia)). apply Hz in H45. apply Hz' in H1.
    change (inject_Z (Z.of_nat 45)) with 45 in H45.
    change (inject_Z (Z.of_nat 1)) with 1 in H1.
    revert H1 H45. generalize (inject_Z (Z.of_nat (length rnds))) as n.
    intros n H1 H45. qdiv. nra.
  - intro H. specialize (Hhigh H). lra.
Qed.

(** ** Speed and camera *)

Lemma updatePhysics_speed (rnd : nat -> Q) (g : Game) :
  speed (state (updatePhysics rnd g))
  = Qmin (speed (state g) + SPEED_INCREMENT) MAX_SPEED.
Proof.
  rewrite updatePhysics_state. cbn [speed set_score].
  rewrite (proj2 (physics_score_speed g)). apply moved_speed.
Qed.

(** A jump command touches neither the speed nor the camera. *)
Lemma handleTap_speed_camera (rnd : nat -> Q) (now : Z) (g : Game) :
  gameState g = playing ->
  speed (state (handleTap rnd now g)) = speed (state g) /\
  cameraX (state (handleTap rnd now g)) = cameraX (state g).
Proof.
  intro Hplay. unfold handleTap. rewrite Hplay.
  destruct (isOnGround (state g) || _); [split; reflexivity|].
  destruct (negb _ && _ && _); [split; reflexivity|].
  destruct (negb _); split; reflexivity.
Qed.

Lemma speed_along (es : list Event) (g : Game) :
  speed (state g) <= MAX_SPEED ->
  withinRun es g ->
  speed (state (play es g))
  == Qmin (speed (state g)
           + inject_Z (Z.of_nat (stepCount es)) * SPEED_INCREMENT)
       MAX_SPEED.
Proof.
  revert g. induction es as [|[rnd now|rnd] es IH]; intros g Hs Hw;
    cbn [play perform withinRun stepCount] in *.
  - change (inject_Z (Z.of_nat 0)) with 0. rewrite Q.min_l by lra. ring.
  - destruct Hw as [Hplay Hw].
    destruct (handleTap_speed_camera rnd now g Hplay) as [E _].
    rewrite IH; [|rewrite E; exact Hs | exact Hw]. rewrite E. reflexivity.
  - destruct Hw as [_ Hw].
    pose proof (updatePhysics_speed rnd g) as E.
    rewrite IH; [|rewrite E; apply Q.le_min_r | exact Hw]. rewrite E.
    rewrite Nat2Z.inj_succ, <- Z.add_1_r, inject_Z_plus.
    change (inject_Z 1) with 1.
    assert (Hn : 0 <= inject_Z (Z.of_nat (stepCount es)))
      by (change 0 with (inject_Z 0); rewrite <- Zle_Qle; lia).
    revert Hn. generalize (inject_Z (Z.of_nat (stepCount es))) as n.
    intros n Hn. unfold SPEED_INCREMENT, MAX_SPEED in *.
    destruct (Q.min_spec (speed (state g) + 0.0008) 9) as [[H1 E1]|[H1 E1]];
      rewrite E1;
      destruct (Q.min_spec (speed (state g) + (n + 1) * 0.0008) 9)
        as [[H2 E2]|[H2 E2]]; rewrite E2; clear E1 E2.
    + rewrite Q.min_l by lra. ring.
    + rewrite Q.min_r by lra. reflexivity.
    + exfalso. nra.
    + rewrite Q.min_r by nra. reflexivity.
Qed.

(** In the exact arithmetic of this model the speed of a run after [n]
    fixed steps is [min (3.5 + 0.0008 n) 9]. *)
Lemma speed_closed_form (rnd0 : nat -> Q) (g0 : Game) (es : list Event) :
  withinRun es (handleStart rnd0 g0) ->
  speed (state (play es (handleStart rnd0 g0)))
  == Qmin (INITIAL_SPEED
           + inject_Z (Z.of_nat (stepCount es)) * SPEED_INCREMENT)
       MAX_SPEED.
Proof.
  intro Hw.
  pose proof (proj1 (handleStart_state rnd0 g0)) as E.
  rewrite speed_along; [|rewrite E; cbn; unfold INITIAL_SPEED, MAX_SPEED; lra
                        | exact Hw].
  rewrite E. reflexivity.
Qed.

(** X8: the speed ramp takes 6875 steps, give or take one.  As long as no
    tap restarts the run, after a stretch with [n] fixed steps in it,
    whatever else happened (jumps, landings, pickups, even the end of the
    run): for [n <= 6874] the speed is still below the cap 9 and within a
    millionth of [3.5 + 0.0008 n]; for [n >= 6876] it is the cap.  The step
    in between is left out: there the sum meets the cap exactly, and the
    rounding of the additions decides. *)
Theorem speed_ramp (rnd0 : nat -> Q) (g0 : Game) (es : list Event) :
  withinRun es (handleStart rnd0 g0) ->
  ((Z.of_nat (stepCount es) <= 6874)%Z ->
   speed (state (play es (handleStart rnd0 g0))) < MAX_SPEED /\
   INITIAL_SPEED + inject_Z (Z.of_nat (stepCount es)) * SPEED_INCREMENT
   - 1 / 1000000
   <= speed (state (play es (handleStart rnd0 g0))) /\
   speed (state (play es (handleStart rnd0 g0)))
   <= INITIAL_SPEED + inject_Z (Z.of_nat (stepCount es)) * SPEED_INCREMENT
      + 1 / 1000000) /\
  ((6876 <= Z.of_nat (stepCount es))%Z ->
   speed (state (play es (handleStart rnd0 g0))) == MAX_SPEED).
Proof.
  intro Hw. pose proof (speed_closed_form rnd0 g0 es Hw) as E.
  revert E. generalize (speed (state (play es (handleStart rnd0 g0)))) as sp.
  intros sp E. unfold INITIAL_SPEED, SPEED_INCREMENT, MAX_SPEED in *.
  split; intro Hn.
  - assert (H : inject_Z (Z.of_nat (stepCount es)) <= 6874)
      by (change 6874 with (inject_Z 6874); rewrite <- Zle_Qle; lia).
    rewrite Q.min_l in E by lra. rewrite E. qdiv. repeat split; lra.
  - assert (H : 6876 <= inject_Z (Z.of_nat (stepCount es)))
      by (change 6876 with (inject_Z 6876); rewrite <- Zle_Qle; lia).
    rewrite Q.min_r in E by lra. exact E.
Qed.

Lemma moved_cameraX (s : State) :
  cameraX (moved s) = cameraX s + speed (moved s).
Proof.
  destruct s as [y v cx sp og dj sc lt ac fc ct jb lg].
  unfold moved, decayTimers, advance, integrate.
  cbn -[Qmin Qplus Qdiv Z.sub Z.ltb].
  destruct (0 <? jb)%Z; cbn -[Qmin Qplus Qdiv Z.sub Z.ltb];
    destruct (0 <? ct)%Z; reflexivity.
Qed.

Lemma resolve_cameraX (ts : list TileData.t) (s : State) :
  cameraX (resolve ts s) = cameraX s.
Proof.
  destruct (resolve_cases ts s) as [(_ & E) | [(_ & E) | (_ & _ & E)]];
    rewrite E; clear E; try reflexivity.
  unfold autoJump. destruct (0 <? jumpBufferTimer (land TILE_Y s))%Z;
    reflexivity.
Qed.

(** Every step scrolls by the speed it has just set. *)
Lemma updatePhysics_cameraX (rnd : nat -> Q) (g : Game) :
  cameraX (state (updatePhysics rnd g))
  = cameraX (state g) + speed (state (updatePhysics rnd g)).
Proof.
  rewrite updatePhysics_speed, <- moved_speed, <- moved_cameraX.
  rewrite updatePhysics_state. cbn [cameraX set_score].
  rewrite physics_state. apply resolve_cameraX.
Qed.

Lemma play_cameraX (es : list Event) (g : Game) :
  invariant (state g) -> 0 <= cameraX (state g) ->
  0 <= cameraX (state (play es g)).
Proof.
  revert g. induction es as [|[rnd now|rnd] es IH]; intros g Hi Hc;
    cbn [play perform].
  - exact Hc.
  - apply IH; [apply handleTap_invariant, Hi|].
    unfold handleTap. destruct (gameState g) eqn:Eg;
      try (rewrite (proj1 (handleStart_state rnd g)); cbn; lra).
    fold (handleTap rnd now g).
    assert (E : cameraX (state (handleTap rnd now g)) = cameraX (state g))
      by (apply handleTap_speed_camera; exact Eg).
    unfold handleTap in E. rewrite Eg in E. rewrite E. exact Hc.
  - pose proof (updatePhysics_invariant rnd g Hi) as Hi'.
    apply IH; [exact Hi'|]. rewrite updatePhysics_cameraX.
    destruct Hi' as (_ & _ & Hlo & _). unfold INITIAL_SPEED in Hlo. lra.
Qed.

(** X9: the camera only moves forward.  In every run it is never left of
    its start position 0, and each fixed step moves it by the speed the
    step has just set, which lies between 3.5 and 9: also for the steps a
    frame still runs after the ball has fallen. *)
Theorem camera_scrolls_forward (rnd0 : nat -> Q) (g0 : Game)
    (es : list Event) (rnd : nat -> Q) :
  0 <= cameraX (state (play es (handleStart rnd0 g0))) /\
  cameraX (state (updatePhysics rnd (play es (handleStart rnd0 g0))))
  = cameraX (state (play es (handleStart rnd0 g0)))
    + speed (state (updatePhysics rnd (play es (handleStart rnd0 g0)))) /\
  cameraX (state (play es (handleStart rnd0 g0))) + INITIAL_SPEED
  <= cameraX (state (updatePhysics rnd (play es (handleStart rnd0 g0)))) /\
  cameraX (state (updatePhysics rnd (play es (handleStart rnd0 g0))))
  <= cameraX (state (play es (handleStart rnd0 g0))) + MAX_SPEED.
Proof.
  pose proof (run_invariant rnd0 g0 es) as Hi.
  assert (H0 : 0 <= cameraX (state (play es (handleStart rnd0 g0)))).
  { apply play_cameraX; rewrite (proj1 (handleStart_state rnd0 g0));
      [apply initialState_invariant | cbn; lra]. }
  revert Hi H0. generalize (play es (handleStart rnd0 g0)) as g.
  intros g Hi H0.
  apply (updatePhysics_invariant rnd) in Hi.
  destruct Hi as (_ & _ & Hlo & Hhi).
  rewrite updatePhysics_cameraX.
  repeat split; [exact H0 | lra | lra].
Qed.

(** ** No tunnelling *)

(** X10: the ball cannot pass through a platform from above.  If its bottom
    edge is at or above the surface before a step and at or below it once
    the step has moved the ball, and the ball is then over a tile, the step
    lands it: the clamp on the velocity (20) keeps the overshoot inside the
    landing tolerance (30).  The ball ends the step with its bottom edge on
    the surface. *)
Theorem no_tunnelling (rnd : nat -> Q) (g : Game) :
  snowballY (state g) + SNOWBALL_SIZE <= TILE_Y ->
  TILE_Y <= snowballY (moved (state g)) + SNOWBALL_SIZE ->
  overPlatform g = true ->
  lands g = true /\
  snowballY (state (updatePhysics rnd g)) = TILE_Y - SNOWBALL_SIZE.
Proof.
  intros Hab Hbe Hov.
  destruct (integrate_fields (state g)) as [Iv Iy].
  rewrite <- moved_velocity in Iv.
  rewrite <- moved_velocity, <- moved_snowballY in Iy.
  assert (Hv : velocity (moved (state g)) <= TERMINAL_VELOCITY)
    by (rewrite Iv; apply Q.le_min_r).
  rewrite updatePhysics_state, physics_state. cbn [snowballY set_score].
  unfold lands, overPlatform in *. clear Iv.
  revert Hbe Hov Iy Hv. generalize (moved (state g)) as m.
  intros m Hbe Hov Iy Hv.
  assert (Hland : landingCondition TILE_Y (snowballY m + SNOWBALL_SIZE) m
                  = true).
  { apply landingCondition_iff.
    unfold LANDING_TOLERANCE, TERMINAL_VELOCITY in *. rewrite Iy in *.
    repeat split; lra. }
  destruct (resolve_landing (tiles g) m Hov Hland) as [El Er].
  split; [exact El|]. rewrite Er. unfold autoJump.
  destruct (0 <? jumpBufferTimer (land TILE_Y m))%Z; reflexivity.
Qed.


(** ** Ids, and where the collectibles sit *)

Lemma numbered_le (lo : Z) (ids : list Z) (hi : Z) :
  numbered lo ids hi -> (lo <= hi)%Z.
Proof.
  revert lo. induction ids as [|i ids IH]; intros lo H; cbn in H;
    [exact H|].
  destruct H as [H1 H2]. apply IH in H2. lia.
Qed.

Lemma numbered_weaken (lo lo' : Z) (ids : list Z) (hi : Z) :
  (lo' <= lo)%Z -> numbered lo ids hi -> numbered lo' ids hi.
Proof.
  destruct ids as [|i ids]; cbn; intros Hl H; [lia|].
  destruct H as [H1 H2]. split; [lia | exact H2].
Qed.

Lemma numbered_filter {A : Type} (key : A -> Z) (f : A -> bool)
    (l : list A) (lo hi : Z) :
  numbered lo (map key l) hi -> numbered lo (map key (filter f l)) hi.
Proof.
  revert lo. induction l as [|a l IH]; intros lo H;
    cbn [filter map numbered] in *.
  - exact H.
  - destruct H as [H1 H2]. destruct (f a); cbn [map numbered].
    + split; [exact H1 | apply IH, H2].
    + apply IH. apply (numbered_weaken (key a + 1)); [lia | exact H2].
Qed.

Lemma numbered_snoc (lo : Z) (ids : list Z) (hi : Z) :
  numbered lo ids hi -> numbered lo (ids ++ [hi]) (hi + 1).
Proof.
  revert lo. induction ids as [|i ids IH]; intros lo H;
    cbn [app numbered] in *.
  - split; [exact H | lia].
  - destruct H as [H1 H2]. split; [exact H1 | apply IH, H2].
Qed.

Lemma numbered_bounds (lo : Z) (ids : list Z) (hi : Z) :
  numbered lo ids hi -> Forall (fun i => (lo <= i < hi)%Z) ids.
Proof.
  revert lo. induction ids as [|i ids IH]; intros lo H; [constructor|].
  destruct H as [H1 H2]. constructor.
  - apply numbered_le in H2. lia.
  - apply IH in H2. eapply Forall_impl; [|exact H2].
    cbn. intros a Ha. lia.
Qed.

Lemma numbered_NoDup (lo : Z) (ids : list Z) (hi : Z) :
  numbered lo ids hi -> NoDup ids.
Proof.
  revert lo. induction ids as [|i ids IH]; intros lo H; [constructor|].
  destruct H as [H1 H2]. constructor; [|apply (IH _ H2)].
  intro Hin. apply numbered_bounds in H2.
  rewrite Forall_forall in H2. specialize (H2 _ Hin). lia.
Qed.

(** Whatever the draw, the width read from the table is not negative: an
    index past the end reads the default. *)
Lemma pick_width_nonneg (r : Q) : 0 <= pick TILE_WIDTHS r.
Proof.
  unfold pick. generalize (Z.to_nat (Qfloor (r * inject_Z (Z.of_nat
                             (length TILE_WIDTHS))))) as n.
  intro n. unfold TILE_WIDTHS.
  do 4 (destruct n as [|n]; [cbn [nth]; lra|]). destruct n; cbn [nth]; lra.
Qed.

(** What the spawning phase does to the lists and the counters: nothing
    but retiring, or one new tile with the next id, with or without a
    collectible at its centre. *)
Lemma spawn_shape (rnd : nat -> Q) (g : Game) :
  exists (added : list TileData.t) (cols : list CollectibleData.t),
    tiles (spawn rnd g) = retire g ++ added /\
    collectibles (spawn rnd g) = collectibles g ++ cols /\
    tileIdCounter (spawn rnd g)
    = (tileIdCounter g + Z.of_nat (length added))%Z /\
    collectibleIdCounter (spawn rnd g)
    = (collectibleIdCounter g + Z.of_nat (length cols))%Z /\
    ((added = [] /\ cols = []) \/
     exists t, added = [t] /\ TileData.id t = tileIdCounter g /\
               0 <= TileData.width t /\
               (cols = [] \/
                cols = [CollectibleData.mk (collectibleIdCounter g)
                          (TileData.x t) (TileData.id t) false])).
Proof.
  assert (Hnone : forall st gs lt,
    exists (added : list TileData.t) (cols : list CollectibleData.t),
      tiles (mkGame st (retire g) (collectibles g) (tileIdCounter g)
               (collectibleIdCounter g) gs lt) = retire g ++ added /\
      collectibles (mkGame st (retire g) (collectibles g) (tileIdCounter g)
               (collectibleIdCounter g) gs lt) = collectibles g ++ cols /\
      tileIdCounter (mkGame st (retire g) (collectibles g) (tileIdCounter g)
               (collectibleIdCounter g) gs lt)
      = (tileIdCounter g + Z.of_nat (length added))%Z /\
      collectibleIdCounter (mkGame st (retire g) (collectibles g)
               (tileIdCounter g) (collectibleIdCounter g) gs lt)
      = (collectibleIdCounter g + Z.of_nat (length cols))%Z /\
      ((added = [] /\ cols = []) \/
       exists t, added = [t] /\ TileData.id t = tileIdCounter g /\
                 0 <= TileData.width t /\
                 (cols = [] \/
                  cols = [CollectibleData.mk (collectibleIdCounter g)
                            (TileData.x t) (TileData.id t) false]))).
  { intros st gs lt. exists [], [].
    cbn [tiles collectibles tileIdCounter collectibleIdCounter length
         Z.of_nat].
    rewrite !app_nil_r, !Z.add_0_r.
    repeat (split; [reflexivity|]). left. split; reflexivity. }
  unfold spawn. destruct (lastOf (retire g)) as [lastTile|]; [|apply Hnone].
  destruct (Qltb _ _); [|apply Hnone].
  destruct (Qltb _ _);
    cbn [tiles collectibles tileIdCounter collectibleIdCounter].
  - eexists [_], [_]. repeat (split; [reflexivity|]).
    right. eexists. split; [reflexivity|]. split; [reflexivity|].
    split; [apply pick_width_nonneg|]. right. reflexivity.
  - eexists [_], []. rewrite app_nil_r.
    cbn [length Z.of_nat]. rewrite Z.add_0_r.
    repeat (split; [reflexivity|]).
    right. eexists. split; [reflexivity|]. split; [reflexivity|].
    split; [apply pick_width_nonneg|]. left. reflexivity.
Qed.

Lemma filter_shorter {A : Type} (f : A -> bool) (l : list A) :
  (length (filter f l) <= length l)%nat.
Proof.
  induction l as [|a l IH]; cbn [filter length]; [lia|].
  destruct (f a); cbn [length]; lia.
Qed.

(** X11: a step creates at most one tile and at most one collectible, and a
    collectible only together with a tile; the id counters move in step
    with the lists' growth and never go back. *)
Theorem step_creates_at_most_one (rnd : nat -> Q) (g : Game) :
  (length (tiles (updatePhysics rnd g)) <= length (tiles g) + 1)%nat /\
  (length (collectibles (updatePhysics rnd g))
   <= length (collectibles g) + 1)%nat /\
  (tileIdCounter g <= tileIdCounter (updatePhysics rnd g)
   <= tileIdCounter g + 1)%Z /\
  (collectibleIdCounter g <= collectibleIdCounter (updatePhysics rnd g)
   <= collectibleIdCounter g + 1)%Z /\
  (collectibleIdCounter (updatePhysics rnd g) - collectibleIdCounter g
   <= tileIdCounter (updatePhysics rnd g) - tileIdCounter g)%Z.
Proof.
  unfold updatePhysics. destruct (fallen (physics g)).
  - unfold handleGameOver, physics.
    cbn [tiles collectibles tileIdCounter collectibleIdCounter
         set_gameState set_state].
    repeat split; lia.
  - destruct (spawn_shape rnd (physics g))
      as (added & cols & E1 & E2 & E3 & E4 & Hsh).
    pose proof (proj1 (pickup_spec (spawn rnd (physics g)))) as Ec.
    destruct (pickup_creates_nothing (spawn rnd (physics g)))
      as (P1 & P2 & P3 & _).
    rewrite P1, P2, P3, Ec, E1, E3, E4, length_map.
    unfold activeCollectibles.
    rewrite E2.
    pose proof (filter_shorter
                  (fun c => Qgtb (CollectibleData.x c)
                              (cameraX (state (spawn rnd (physics g)))
                               - SCREEN_WIDTH))
                  (collectibles (physics g) ++ cols)) as Hf.
    pose proof (filter_shorter
                  (fun t => Qgtb (tileRight t)
                              (cameraX (state (physics g)) - SCREEN_WIDTH))
                  (tiles (physics g))) as Hr.
    fold (retire (physics g)) in Hr.
    rewrite length_app in *.
    change (tiles (physics g)) with (tiles g) in *.
    change (collectibles (physics g)) with (collectibles g) in *.
    change (tileIdCounter (physics g)) with (tileIdCounter g).
    change (collectibleIdCounter (physics g))
      with (collectibleIdCounter g).
    destruct Hsh as [[-> ->] | (t & -> & _ & _ & [-> | ->])];
      cbn [length] in *; repeat split; lia.
Qed.

Lemma initLoop_wellFormed (rnd : nat -> Q) (n i : nat)
    (currentCenter currentWidth : Q) (idCounter : Z)
    (initialTiles : list TileData.t) :
  numbered 0 (map TileData.id initialTiles) idCounter ->
  Forall (fun t => 0 <= TileData.width t) initialTiles ->
  numbered 0
    (map TileData.id
       (fst (initLoop rnd n i currentCenter currentWidth idCounter
               initialTiles)))
    (snd (initLoop rnd n i currentCenter currentWidth idCounter
            initialTiles)) /\
  Forall (fun t => 0 <= TileData.width t)
    (fst (initLoop rnd n i currentCenter currentWidth idCounter
            initialTiles)).
Proof.
  revert i currentCenter currentWidth idCounter initialTiles.
  induction n as [|n IH]; intros i cc cw idc ts Hn Hw; cbn [initLoop].
  - split; assumption.
  - apply IH.
    + rewrite map_app. cbn [map TileData.id]. apply numbered_snoc, Hn.
    + apply Forall_app. split; [exact Hw|].
      constructor; [|constructor]. apply pick_width_nonneg.
Qed.

Lemma handleStart_wellFormed (rnd : nat -> Q) (g : Game) :
  wellFormed (handleStart rnd g).
Proof.
  unfold handleStart, initGame.
  pose proof (initLoop_wellFormed rnd 5 0 0 600 1
                [TileData.mk 0 0 600 long]) as H.
  destruct (initLoop rnd 5 0 0 600 1 _) as [ts idc].
  cbn [fst snd] in H. destruct H as [H1 H2].
  - cbn. lia.
  - constructor; [cbn; lra | constructor].
  - unfold wellFormed, collectibleIds.
    cbn [tiles collectibles tileIdCounter collectibleIdCounter
         set_gameState map numbered].
    repeat split; [exact H1 | lia | exact H2 | constructor].
Qed.

Lemma updatePhysics_wellFormed (rnd : nat -> Q) (g : Game) :
  wellFormed g -> wellFormed (updatePhysics rnd g).
Proof.
  intros (Ht & Hc & Hw & Ha). unfold updatePhysics.
  destruct (fallen (physics g)).
  - repeat split; assumption.
  - destruct (spawn_shape rnd (physics g))
      as (added & cols & E1 & E2 & E3 & E4 & Hsh).
    pose proof (proj1 (pickup_spec (spawn rnd (physics g)))) as Ec.
    pose proof (spawn_state rnd (physics g)) as Es.
    destruct (pickup_creates_nothing (spawn rnd (physics g)))
      as (P1 & P2 & P3 & _).
    unfold wellFormed, collectibleIds. rewrite P1, P2, P3, Ec.
    unfold activeCollectibles. rewrite Es, E1, E2, E3, E4.
    clear Ec Es P1 P2 P3.
    change (collectibles (physics g)) with (collectibles g).
    change (tileIdCounter (physics g)) with (tileIdCounter g) in *.
    change (collectibleIdCounter (physics g))
      with (collectibleIdCounter g) in *.
    set (cam := cameraX (state (physics g))).
    assert (Hret : forall t, In t (tiles g) ->
                   cam - SCREEN_WIDTH < TileData.x t ->
                   In t (retire (physics g))).
    { intros t Hin Hx. apply filter_In. split; [exact Hin|].
      apply Qgtb_iff. rewrite Forall_forall in Hw. specialize (Hw t Hin).
      unfold tileRight. fold cam. qdiv. lra. }
    assert (Hrn : numbered 0 (map TileData.id (retire (physics g)))
                    (tileIdCounter g))
      by (apply numbered_filter, Ht).
    assert (Hrw : Forall (fun t => 0 <= TileData.width t)
                    (retire (physics g))).
    { apply Forall_forall. intros t Hin. apply filter_In in Hin as [Hin _].
      rewrite Forall_forall in Hw. apply Hw, Hin. }
    split; [|split; [|split]].
    + rewrite map_app.
      destruct Hsh as [[-> _] | (t & -> & Eid & _ & _)];
        cbn [map app length Z.of_nat].
      * rewrite app_nil_r, Z.add_0_r. exact Hrn.
      * rewrite Eid. apply numbered_snoc, Hrn.
    + rewrite map_map.
      assert (Em : map (fun c => CollectibleData.id
                          (if collectable (state (physics g)) c
                           then CollectibleData.set_collected true c else c))
                     (filter (fun c => Qgtb (CollectibleData.x c)
                                         (cam - SCREEN_WIDTH))
                        (collectibles g ++ cols))
                   = map CollectibleData.id
                       (filter (fun c => Qgtb (CollectibleData.x c)
                                           (cam - SCREEN_WIDTH))
                          (collectibles g ++ cols))).
      { apply map_ext. intro c.
        destruct (collectable (state (physics g)) c); reflexivity. }
      rewrite Em. apply numbered_filter. rewrite map_app.
      destruct Hsh as [[_ ->] | (t & _ & _ & _ & [-> | ->])];
        cbn [map app length Z.of_nat CollectibleData.id].
      * rewrite app_nil_r, Z.add_0_r. exact Hc.
      * rewrite app_nil_r, Z.add_0_r. exact Hc.
      * apply numbered_snoc, Hc.
    + apply Forall_app. split; [exact Hrw|].
      destruct Hsh as [[-> _] | (t & -> & _ & Hwt & _)];
        [constructor | constructor; [exact Hwt | constructor]].
    + apply Forall_forall. intros c' Hin.
      apply in_map_iff in Hin as (c & <- & Hin).
      apply filter_In in Hin as [Hin Hact]. apply Qgtb_iff in Hact.
      assert (Hanchor : anchored (retire (physics g) ++ added) c).
      { apply in_app_or in Hin as [Hin|Hin].
        - rewrite Forall_forall in Ha.
          destruct (Ha c Hin) as (t & Hti & Eid & Ex).
          exists t. split; [|split; assumption].
          apply in_or_app. left. apply Hret; [exact Hti|].
          rewrite Ex. exact Hact.
        - destruct Hsh as [[_ ->] | (t & -> & _ & _ & [-> | ->])];
            try contradiction.
          destruct Hin as [<-|[]].
          exists t. split; [|split; reflexivity].
          apply in_or_app. right. left. reflexivity. }
      destruct Hanchor as (t & Hti & Eid & Ex).
      exists t. split; [exact Hti|].
      destruct (collectable (state (physics g)) c);
        split; assumption.
Qed.

Lemma handleTap_wellFormed (rnd : nat -> Q) (now : Z) (g : Game) :
  wellFormed g -> wellFormed (handleTap rnd now g).
Proof.
  intro H. destruct (gameState g) eqn:Eg;
    try (unfold handleTap; rewrite Eg; apply handleStart_wellFormed).
  destruct (tap_creates_nothing rnd now g Eg) as (E1 & E2 & E3 & E4).
  unfold wellFormed, collectibleIds in *. rewrite E1, E2, E3, E4. exact H.
Qed.

Lemma play_wellFormed (es : list Event) (g : Game) :
  wellFormed g -> wellFormed (play es g).
Proof.
  revert g. induction es as [|[rnd now|rnd] es IH]; intros g H;
    cbn [play perform].
  - exact H.
  - apply IH, handleTap_wellFormed, H.
  - apply IH, updatePhysics_wellFormed, H.
Qed.

(** X12: ids are never reused.  At every state of every run the tiles of
    the list carry distinct ids, in increasing order, all at least 0 and
    below [tileIdCounter]; the same holds of the collectibles and
    [collectibleIdCounter].  This is what the render loop's [key] props rely
    on. *)
Theorem ids_are_unique (rnd0 : nat -> Q) (g0 : Game) (es : list Event) :
  numbered 0 (map TileData.id (tiles (play es (handleStart rnd0 g0))))
    (tileIdCounter (play es (handleStart rnd0 g0))) /\
  NoDup (map TileData.id (tiles (play es (handleStart rnd0 g0)))) /\
  Forall (fun i => (0 <= i < tileIdCounter (play es (handleStart rnd0 g0)))%Z)
    (map TileData.id (tiles (play es (handleStart rnd0 g0)))) /\
  numbered 0 (collectibleIds (play es (handleStart rnd0 g0)))
    (collectibleIdCounter (play es (handleStart rnd0 g0))) /\
  NoDup (collectibleIds (play es (handleStart rnd0 g0))) /\
  Forall (fun i => (0 <= i
                    < collectibleIdCounter (play es (handleStart rnd0 g0)))%Z)
    (collectibleIds (play es (handleStart rnd0 g0))).
Proof.
  destruct (play_wellFormed es (handleStart rnd0 g0)
              (handleStart_wellFormed rnd0 g0)) as (Ht & Hc & _).
  repeat split;
    first [assumption
          | eapply numbered_NoDup; eassumption
          | apply numbered_bounds; assumption].
Qed.

(** X13: every collectible of the list sits at the centre of a tile that is
    still in the list, the tile whose id it records: a tile is only retired
    once its right edge is a screen width behind the camera, and by then
    the collectible at its centre is filtered out in the same step. *)
Theorem collectibles_sit_on_tiles (rnd0 : nat -> Q) (g0 : Game)
    (es : list Event) :
  Forall (anchored (tiles (play es (handleStart rnd0 g0))))
    (collectibles (play es (handleStart rnd0 g0))).
Proof.
  apply (play_wellFormed es (handleStart rnd0 g0)
           (handleStart_wellFormed rnd0 g0)).
Qed.

(** ** A collected collectible stays collected *)

Lemma pickedUp_picks (rnd : nat -> Q) (g : Game) :
  pickedUp rnd g = length (picks rnd g).
Proof.
  unfold pickedUp, picks. destruct (fallen (physics g)); reflexivity.
Qed.

(** The list a step leaves: untouched when the step ends the run, and
    otherwise the active ones of the list after spawning, the collectable
    ones among them marked. *)
Lemma updatePhysics_collectibles (rnd : nat -> Q) (g : Game) :
  collectibles (updatePhysics rnd g)
  = if fallen (physics g) then collectibles g
    else map (fun c => if collectable (state (physics g)) c
                       then CollectibleData.set_collected true c else c)
           (filter (isActive (state (physics g)))
              (collectibles (spawn rnd (physics g)))).
Proof.
  unfold updatePhysics. destruct (fallen (physics g)); [reflexivity|].
  rewrite (proj1 (pickup_spec (spawn rnd (physics g)))).
  unfold activeCollectibles. rewrite spawn_state. reflexivity.
Qed.

Lemma updatePhysics_collectibleIdCounter (rnd : nat -> Q) (g : Game) :
  collectibleIdCounter (updatePhysics rnd g)
  = if fallen (physics g) then collectibleIdCounter g
    else collectibleIdCounter (spawn rnd (physics g)).
Proof.
  unfold updatePhysics. destruct (fallen (physics g)); reflexivity.
Qed.

(** What spawning does to the collectibles: nothing, or one more at the
    end, uncollected, under the id the counter stood at. *)
Lemma spawn_collectibles (rnd : nat -> Q) (g : Game) :
  (collectibles (spawn rnd g) = collectibles g /\
   collectibleIdCounter (spawn rnd g) = collectibleIdCounter g) \/
  (exists x tileId,
     collectibles (spawn rnd g)
     = collectibles g
       ++ [CollectibleData.mk (collectibleIdCounter g) x tileId false] /\
     collectibleIdCounter (spawn rnd g) = (collectibleIdCounter g + 1)%Z).
Proof.
  destruct (spawn_shape rnd g) as (added & cols & _ & E2 & _ & E4 & Hsh).
  rewrite E2, E4.
  destruct Hsh as [[_ ->] | (t & _ & _ & _ & [-> | ->])];
    cbn [length Z.of_nat].
  - left. rewrite app_nil_r, Z.add_0_r. split; reflexivity.
  - left. rewrite app_nil_r, Z.add_0_r. split; reflexivity.
  - right. eexists _, _. split; reflexivity.
Qed.

(** A collectible whose flag is set is inert in every step: it is not among
    those the step pays for, it stays in the list as it is until it is
    purged, and no step ever clears a flag. *)
Lemma collected_is_inert (rnd : nat -> Q) (g : Game)
    (c : CollectibleData.t) :
  In c (collectibles g) -> CollectibleData.collected c = true ->
  ~ In c (picks rnd g) /\
  (fallen (physics g) = true \/ isActive (state (physics g)) c = true ->
   In c (collectibles (updatePhysics rnd g))) /\
  (forall c', In c' (collectibles (updatePhysics rnd g)) ->
              CollectibleData.collected c' = false ->
              In c' (collectibles (spawn rnd (physics g)))).
Proof.
  intros Hin Hc.
  assert (Hsub : forall c0, In c0 (collectibles g) ->
                            In c0 (collectibles (spawn rnd (physics g)))).
  { intros c0 H0.
    destruct (spawn_collectibles rnd (physics g))
      as [[E _] | (x & tid & E & _)]; rewrite E.
    - exact H0.
    - apply in_or_app. left. exact H0. }
  rewrite updatePhysics_collectibles.
  split; [|split].
  - unfold picks. destruct (fallen (physics g)); [intros []|].
    intro H. apply filter_In in H as [_ H]. unfold collectable in H.
    rewrite Hc in H. discriminate.
  - intro Hk. destruct (fallen (physics g)) eqn:Ef; [exact Hin|].
    destruct Hk as [Hk|Hk]; [discriminate|].
    apply in_map_iff. exists c. split.
    + unfold collectable. rewrite Hc. reflexivity.
    + apply filter_In. split; [apply Hsub, Hin | exact Hk].
  - intros c' Hin' Hc'. destruct (fallen (physics g)).
    + apply Hsub, Hin'.
    + apply in_map_iff in Hin' as (c0 & Ec & Hin0).
      apply filter_In in Hin0 as [Hin0 _].
      destruct (collectable (state (physics g)) c0); subst c'.
      * discriminate.
      * exact Hin0.
Qed.

Lemma NoDup_map_injective {A B : Type} (f : A -> B) (l : list A) (a b : A) :
  NoDup (map f l) -> In a l -> In b l -> f a = f b -> a = b.
Proof.
  induction l as [|x l IH]; intros Hn Ha Hb E; [destruct Ha|].
  cbn [map] in Hn. inversion Hn as [|y l' Hx Hn']; subst.
  destruct Ha as [->|Ha]; destruct Hb as [->|Hb].
  - reflexivity.
  - exfalso. apply Hx. rewrite E. apply in_map, Hb.
  - exfalso. apply Hx. rewrite <- E. apply in_map, Ha.
  - apply IH; assumption.
Qed.

Lemma NoDup_snoc {A : Type} (l : list A) (a : A) :
  NoDup l -> ~ In a l -> NoDup (l ++ [a]).
Proof.
  induction l as [|x l IH]; intros Hn Ha; cbn [app].
  - constructor; [intros []|constructor].
  - inversion Hn as [|y l' Hx Hn']; subst. constructor.
    + intro Hin. apply in_app_or in Hin as [Hin|[->|[]]].
      * apply Hx, Hin.
      * apply Ha. left. reflexivity.
    + apply IH; [exact Hn'|]. intro Hin. apply Ha. right. exact Hin.
Qed.

(** Spawning hands out an id that is not in use. *)
Lemma spawn_freshIds (rnd : nat -> Q) (g : Game) :
  freshIds g -> freshIds (spawn rnd g).
Proof.
  intros [Hn Hb]. unfold freshIds, collectibleIds in *.
  destruct (spawn_collectibles rnd g) as [[E1 E2] | (x & tid & E1 & E2)];
    rewrite E1, E2.
  - split; assumption.
  - rewrite map_app. cbn [map CollectibleData.id]. split.
    + apply NoDup_snoc; [exact Hn|]. intro Hin.
      rewrite Forall_forall in Hb. specialize (Hb _ Hin). lia.
    + apply Forall_app. split.
      * eapply Forall_impl; [|exact Hb]. cbn. intros i Hi. lia.
      * constructor; [lia | constructor].
Qed.

(** The step that picks a collectible up leaves it in the list marked, as
    the only one under its id. *)
Lemma picked_keptAs (rnd : nat -> Q) (g : Game) (c : CollectibleData.t) :
  freshIds g ->
  In c (collectibles (spawn rnd (physics g))) ->
  collectable (state (physics g)) c = true ->
  fallen (physics g) = false ->
  keptAs (CollectibleData.set_collected true c) (updatePhysics rnd g).
Proof.
  intros Hf Hin Hcol Ef.
  destruct (spawn_freshIds rnd (physics g) Hf) as [Hn Hb].
  unfold keptAs.
  rewrite updatePhysics_collectibles, updatePhysics_collectibleIdCounter, Ef.
  split.
  - intros c' Hin' Eid.
    apply in_map_iff in Hin' as (c0 & Ec & Hin0).
    apply filter_In in Hin0 as [Hin0 _].
    assert (E0 : c0 = c).
    { apply (NoDup_map_injective CollectibleData.id
               (collectibles (spawn rnd (physics g)))); try assumption.
      rewrite <- Ec in Eid.
      destruct (collectable (state (physics g)) c0); exact Eid. }
    subst c0. rewrite Hcol in Ec. symmetry. exact Ec.
  - rewrite Forall_forall in Hb. apply Hb.
    unfold collectibleIds. apply in_map_iff. exists c.
    split; [reflexivity | exact Hin].
Qed.

Lemma keptAs_step (c1 : CollectibleData.t) (rnd : nat -> Q) (h : Game) :
  CollectibleData.collected c1 = true ->
  keptAs c1 h -> keptAs c1 (updatePhysics rnd h).
Proof.
  intros Hc [Hk Hlt]. unfold keptAs.
  rewrite updatePhysics_collectibles, updatePhysics_collectibleIdCounter.
  destruct (fallen (physics h)); [split; assumption|].
  assert (Hold : forall c0, In c0 (collectibles (spawn rnd (physics h))) ->
                   CollectibleData.id c0 = CollectibleData.id c1 -> c0 = c1).
  { intros c0 H0 E0.
    destruct (spawn_collectibles rnd (physics h))
      as [[E _] | (x & tid & E & _)]; rewrite E in H0.
    - apply Hk; assumption.
    - apply in_app_or in H0 as [H0|[<-|[]]]; [apply Hk; assumption|].
      cbn [CollectibleData.id] in E0.
      change (collectibleIdCounter (physics h))
        with (collectibleIdCounter h) in E0.
      lia. }
  split.
  - intros c' Hin Eid.
    apply in_map_iff in Hin as (c0 & Ec & Hin0).
    apply filter_In in Hin0 as [Hin0 _].
    assert (E0 : c0 = c1).
    { apply Hold; [exact Hin0|]. rewrite <- Ec in Eid.
      destruct (collectable (state (physics h)) c0); exact Eid. }
    subst c0. unfold collectable in Ec. rewrite Hc in Ec.
    symmetry. exact Ec.
  - destruct (spawn_collectibles rnd (physics h))
      as [[_ E] | (x & tid & _ & E)]; rewrite E;
      change (collectibleIdCounter (physics h))
        with (collectibleIdCounter h); lia.
Qed.

Lemma keptAs_along (c1 : CollectibleData.t) (es : list Event) (h : Game) :
  CollectibleData.collected c1 = true ->
  withinRun es h -> keptAs c1 h -> keptAs c1 (play es h).
Proof.
  intro Hc. revert h.
  induction es as [|[rnd now|rnd] es IH]; intros h Hw Hk;
    cbn [play perform withinRun] in *.
  - exact Hk.
  - destruct Hw as [Hplay Hw]. apply IH; [exact Hw|].
    destruct (tap_creates_nothing rnd now h Hplay) as (_ & _ & E3 & E4).
    unfold keptAs. rewrite E3, E4. exact Hk.
  - destruct Hw as [_ Hw]. apply IH; [exact Hw|].
    apply keptAs_step; assumption.
Qed.

Lemma keptAs_picks (c1 : CollectibleData.t) (rnd : nat -> Q) (h : Game)
    (c' : CollectibleData.t) :
  CollectibleData.collected c1 = true -> keptAs c1 h ->
  In c' (picks rnd h) -> CollectibleData.id c' <> CollectibleData.id c1.
Proof.
  intros Hc [Hk Hlt] Hin Eid. unfold picks in Hin.
  destruct (fallen (physics h)); [destruct Hin|].
  apply filter_In in Hin as [Hin Hcol].
  apply filter_In in Hin as [Hin _].
  assert (E : c' = c1).
  { destruct (spawn_collectibles rnd (physics h))
      as [[E _] | (x & tid & E & _)]; rewrite E in Hin.
    - apply Hk; assumption.
    - apply in_app_or in Hin as [Hin|[<-|[]]]; [apply Hk; assumption|].
      cbn [CollectibleData.id] in Eid.
      change (collectibleIdCounter (physics h))
        with (collectibleIdCounter h) in Eid.
      lia. }
  subst c'. unfold collectable in Hcol. rewrite Hc in Hcol. discriminate.
Qed.

(** C9: a collectible that the pickup loop of a step comes across (one of
    the game, or the one this step has just spawned) and that is uncollected,
    still active and within both distance thresholds of the ball comes out
    of the step collected; the step adds exactly 10 to the score for each
    collectible it picks up; afterwards nothing picked up can be picked up
    again.  A collectible whose flag is set is inert in every later step: it
    is not among those the step pays for, it stays in the list unchanged
    until it is purged, and no step clears a flag.  And where ids are not
    shared, as in every run, the collected one is followed by its id through
    the rest of the run: whatever the list holds under that id is the
    collected record, and no later step pays for that id again. *)
Theorem collectible_collected_once (rnd : nat -> Q) (g : Game)
    (c : CollectibleData.t) :
  In c (collectibles (spawn rnd (physics g))) ->
  CollectibleData.collected c = false ->
  isActive (state (physics g)) c = true ->
  withinReach (state (physics g)) c = true ->
  In (CollectibleData.set_collected true c)
     (collectibles (updatePhysics rnd g)) /\
  score (state (updatePhysics rnd g))
  == score (state (physics g)) + 10 * inject_Z (Z.of_nat (pickedUp rnd g)) /\
  (1 <= pickedUp rnd g)%nat /\
  (forall c', In c' (collectibles (updatePhysics rnd g)) ->
              collectable (state (updatePhysics rnd g)) c' = false) /\
  pickup (updatePhysics rnd g) = updatePhysics rnd g /\
  (forall (h : Game) (rnd' : nat -> Q) (c' : CollectibleData.t),
     In c' (collectibles h) -> CollectibleData.collected c' = true ->
     pickedUp rnd' h = length (picks rnd' h) /\
     ~ In c' (picks rnd' h) /\
     (fallen (physics h) = true \/ isActive (state (physics h)) c' = true ->
      In c' (collectibles (updatePhysics rnd' h))) /\
     (forall c'', In c'' (collectibles (updatePhysics rnd' h)) ->
                  CollectibleData.collected c'' = false ->
                  In c'' (collectibles (spawn rnd' (physics h))))) /\
  (freshIds g ->
   forall (es : list Event) (rnd' : nat -> Q),
     withinRun es (updatePhysics rnd g) ->
     (forall c', In c' (collectibles (play es (updatePhysics rnd g))) ->
                 CollectibleData.id c' = CollectibleData.id c ->
                 c' = CollectibleData.set_collected true c) /\
     (forall c', In c' (picks rnd' (play es (updatePhysics rnd g))) ->
                 CollectibleData.id c' <> CollectibleData.id c)).
Proof.
  intros Hin Hc Hact Hreach.
  pose proof (withinReach_not_fallen (physics g) c Hreach) as Hf.
  assert (Hcol0 : collectable (state (physics g)) c = true)
    by (unfold collectable; rewrite Hc, Hreach; reflexivity).
  assert (Hrun : freshIds g ->
            forall (es : list Event) (rnd' : nat -> Q),
              withinRun es (updatePhysics rnd g) ->
              (forall c', In c' (collectibles (play es (updatePhysics rnd g)))
                          -> CollectibleData.id c' = CollectibleData.id c ->
                          c' = CollectibleData.set_collected true c) /\
              (forall c', In c' (picks rnd' (play es (updatePhysics rnd g)))
                          -> CollectibleData.id c' <> CollectibleData.id c)).
  { intros Hfresh es rnd' Hw.
    pose proof (picked_keptAs rnd g c Hfresh Hin Hcol0 Hf) as Hk.
    apply (keptAs_along (CollectibleData.set_collected true c) es _
             eq_refl Hw) in Hk.
    split.
    - intros c' Hin' Eid. apply (proj1 Hk); assumption.
    - intros c' Hin'.
      apply (keptAs_picks (CollectibleData.set_collected true c) rnd'
               (play es (updatePhysics rnd g)) c' eq_refl Hk Hin'). }
  assert (Hinert : forall (h : Game) (rnd' : nat -> Q)
                     (c' : CollectibleData.t),
            In c' (collectibles h) -> CollectibleData.collected c' = true ->
            pickedUp rnd' h = length (picks rnd' h) /\
            ~ In c' (picks rnd' h) /\
            (fallen (physics h) = true
             \/ isActive (state (physics h)) c' = true ->
             In c' (collectibles (updatePhysics rnd' h))) /\
            (forall c'', In c'' (collectibles (updatePhysics rnd' h)) ->
                         CollectibleData.collected c'' = false ->
                         In c'' (collectibles (spawn rnd' (physics h))))).
  { intros h rnd' c' Hin' Hc'. split; [apply pickedUp_picks|].
    apply collected_is_inert; assumption. }
  rewrite (updatePhysics_not_fallen rnd g Hf) in *.
  unfold pickedUp. rewrite Hf.
  set (g1 := spawn rnd (physics g)) in *.
  assert (Es : state g1 = state (physics g)) by apply spawn_state.
  assert (Hin1 : In c (activeCollectibles g1)).
  { unfold activeCollectibles. apply filter_In. split.
    - exact Hin.
    - rewrite Es. exact Hact. }
  assert (Hcol : collectable (state g1) c = true)
    by (rewrite Es; exact Hcol0).
  destruct (pickup_spec g1) as [E1 E2].
  split; [|split; [|split; [|split; [|split; [|split]]]]].
  - rewrite E1. apply in_map_iff. exists c. rewrite Hcol. split; auto.
  - rewrite E2, Es. reflexivity.
  - rewrite <- Es.
    assert (Hf1 : In c (filter (collectable (state g1))
                          (activeCollectibles g1)))
      by (apply filter_In; split; assumption).
    destruct (filter (collectable (state g1)) (activeCollectibles g1));
      [destruct Hf1 | cbn; lia].
  - intros c' Hc'.
    assert (Hs : collectable (state (pickup g1)) c'
                 = collectable (state g1) c').
    { unfold pickup. cbn [state]. rewrite collect_state. reflexivity. }
    rewrite Hs. rewrite E1 in Hc'.
    apply in_map_iff in Hc' as (c0 & Ec & _).
    destruct (collectable (state g1) c0) eqn:E0; subst c'.
    + reflexivity.
    + exact E0.
  - apply pickup_idempotent.
  - exact Hinert.
  - exact Hrun.
Qed.


(** ** The frontier *)

Lemma table_values_large (gap width : Q) :
  In gap GAP_SIZES -> In width TILE_WIDTHS -> 100 <= gap /\ 120 <= width.
Proof.
  unfold GAP_SIZES, TILE_WIDTHS. cbn [In].
  intros [<-|[<-|[<-|[]]]] [<-|[<-|[<-|[<-|[]]]]]; split; lra.
Qed.

(** The last element survives a filter that keeps it. *)
Lemma lastOf_filter {A : Type} (f : A -> bool) (l : list A) (a : A) :
  lastOf l = Some a -> f a = true -> lastOf (filter f l) = Some a.
Proof.
  intros Hl Hf. induction l as [|b l IH]; [discriminate|].
  destruct l as [|c l].
  - cbn in Hl. injection Hl as ->. cbn. rewrite Hf. reflexivity.
  - specialize (IH Hl). change (filter f (b :: c :: l))
      with (if f b then b :: filter f (c :: l) else filter f (c :: l)).
    destruct (f b); [|exact IH].
    destruct (filter f (c :: l)) as [|d l']; [discriminate|]. exact IH.
Qed.

(** Each round of the start-up loop moves the frontier on by at least the
    smallest gap plus the smallest width. *)
Lemma initLoop_frontier (rnd : nat -> Q) (n i : nat) (idCounter : Z)
    (initialTiles : list TileData.t) (prev : TileData.t) :
  drawn rnd -> lastOf initialTiles = Some prev ->
  exists t,
    lastOf (fst (initLoop rnd n i (TileData.x prev) (TileData.width prev)
                   idCounter initialTiles)) = Some t /\
    tileRight prev + inject_Z (Z.of_nat n) * 220 <= tileRight t.
Proof.
  intro Hd. revert i idCounter initialTiles prev.
  induction n as [|n IH]; intros i idCounter initialTiles prev Hl;
    cbn [initLoop].
  - exists prev. split; [exact Hl|].
    change (inject_Z (Z.of_nat 0)) with 0. lra.
  - set (width := pick TILE_WIDTHS (rnd (2 * i)%nat)).
    set (gap := pick GAP_SIZES (rnd (2 * i + 1)%nat)).
    set (newTile := TileData.mk idCounter
                      (TileData.x prev + TileData.width prev / 2 + gap
                       + width / 2) width medium).
    destruct (IH (S i) (idCounter + 1)%Z (initialTiles ++ [newTile]) newTile
                (lastOf_snoc _ _)) as (t & Et & Ht).
    exists t. split; [exact Et|].
    assert (Hg : In gap GAP_SIZES)
      by (apply pick_in; try discriminate; apply Hd).
    assert (Hw : In width TILE_WIDTHS)
      by (apply pick_in; try discriminate; apply Hd).
    destruct (table_values_large gap width Hg Hw) as [Lg Lw].
    rewrite Nat2Z.inj_succ, <- Z.add_1_r, inject_Z_plus.
    change (inject_Z 1) with 1.
    revert Ht. generalize (inject_Z (Z.of_nat n)) as k.
    unfold tileRight, newTile. cbn [TileData.x TileData.width].
    intros k Ht. qdiv. lra.
Qed.

Lemma handleStart_groundAhead (rnd : nat -> Q) (g : Game) :
  drawn rnd -> SPAWN_AHEAD_DISTANCE <= 1400 ->
  groundAhead (handleStart rnd g).
Proof.
  intros Hd Hw. unfold handleStart, initGame.
  destruct (initLoop_frontier rnd 5 0 1 [TileData.mk 0 0 600 long]
              (TileData.mk 0 0 600 long) Hd eq_refl) as (t & Et & Ht).
  cbn [TileData.x TileData.width] in Et.
  destruct (initLoop rnd 5 0 0 600 1 _) as [ts idc].
  exists t. split; [exact Et|].
  cbn [state set_gameState cameraX initialState].
  unfold tileRight at 1 in Ht. cbn [TileData.x TileData.width] in Ht.
  change (inject_Z (Z.of_nat 5)) with 5 in Ht. qdiv. lra.
Qed.

(** Spawning and pickup, seen from the frontier: if the newest tile is not
    about to be retired and is at most 220 short of the spawn horizon, the
    step ends with ground ahead. *)
Lemma spawn_groundAhead (rnd : nat -> Q) (g : Game) (lastTile : TileData.t) :
  drawn rnd ->
  lastOf (tiles g) = Some lastTile ->
  cameraX (state g) - SCREEN_WIDTH < tileRight lastTile ->
  cameraX (state g) + SPAWN_AHEAD_DISTANCE - 220 <= tileRight lastTile ->
  groundAhead (pickup (spawn rnd g)).
Proof.
  intros Hd Hl Hkeep Hnear. unfold groundAhead.
  rewrite (proj1 (pickup_creates_nothing (spawn rnd g))).
  assert (Ec : cameraX (state (pickup (spawn rnd g))) = cameraX (state g)).
  { unfold pickup. cbn [state]. rewrite collect_state.
    cbn [cameraX set_score]. rewrite spawn_state. reflexivity. }
  rewrite Ec. clear Ec.
  assert (Er : lastOf (retire g) = Some lastTile).
  { apply lastOf_filter; [exact Hl|]. apply Qgtb_iff. exact Hkeep. }
  unfold spawn. rewrite Er.
  fold (tileRight lastTile).
  destruct (Qltb (tileRight lastTile)
              (cameraX (state g) + SPAWN_AHEAD_DISTANCE)) eqn:E.
  - set (width := pick TILE_WIDTHS (rnd 0%nat)).
    set (gap := pick GAP_SIZES (rnd 1%nat)).
    assert (Hg : In gap GAP_SIZES)
      by (apply pick_in; try discriminate; apply Hd).
    assert (Hw : In width TILE_WIDTHS)
      by (apply pick_in; try discriminate; apply Hd).
    destruct (table_values_large gap width Hg Hw) as [Lg Lw].
    destruct (Qltb (rnd 2%nat) 0.3); cbn [tiles];
      (eexists; split; [apply lastOf_snoc|]);
      unfold tileRight in *; cbn [TileData.x TileData.width];
      qdiv; lra.
  - apply Qltb_false_iff in E. cbn [tiles].
    exists lastTile. split; [exact Er | exact E].
Qed.

Lemma updatePhysics_groundAhead (rnd : nat -> Q) (g : Game) :
  4 <= SCREEN_WIDTH -> drawn rnd ->
  invariant (state g) -> groundAhead g ->
  fallen (physics g) = false ->
  groundAhead (updatePhysics rnd g).
Proof.
  intros Hw Hd Hi (lastTile & Hl & Hga) Hf.
  unfold updatePhysics. rewrite Hf.
  assert (Ec : cameraX (state (physics g))
               = cameraX (state g) + speed (moved (state g))).
  { rewrite physics_state, resolve_cameraX. apply moved_cameraX. }
  assert (Hs : speed (moved (state g)) <= MAX_SPEED)
    by (rewrite moved_speed; apply Q.le_min_r).
  assert (Hs0 : INITIAL_SPEED <= speed (moved (state g)))
    by (apply moved_invariant in Hi; apply Hi).
  apply (spawn_groundAhead rnd (physics g) lastTile Hd Hl);
    rewrite Ec; unfold SPAWN_AHEAD_DISTANCE, MAX_SPEED, INITIAL_SPEED in *;
    lra.
Qed.

Lemma play_groundAhead (es : list Event) (g : Game) :
  4 <= SCREEN_WIDTH -> SPAWN_AHEAD_DISTANCE <= 1400 ->
  Forall fair es ->
  invariant (state g) ->
  (gameState g = playing -> groundAhead g) ->
  gameState (play es g) = playing -> groundAhead (play es g).
Proof.
  intros Hw Hsad. revert g.
  induction es as [|[rnd now|rnd] es IH]; intros g Hf Hi Hg;
    cbn [play perform].
  - exact Hg.
  - inversion Hf as [|e es' Hd Hf']; subst. cbn [fair] in Hd.
    apply IH; [exact Hf' | apply handleTap_invariant, Hi |].
    intros _. destruct (gameState g) eqn:Eg;
      try (unfold handleTap; rewrite Eg;
           apply handleStart_groundAhead; assumption).
    destruct (tap_creates_nothing rnd now g Eg) as (E1 & _).
    destruct (handleTap_speed_camera rnd now g Eg) as (_ & E2).
    unfold groundAhead. rewrite E1, E2. apply Hg. reflexivity.
  - inversion Hf as [|e es' Hd Hf']; subst. cbn [fair] in Hd.
    apply IH; [exact Hf' | apply updatePhysics_invariant, Hi |].
    intro Hp. rewrite updatePhysics_gameState in Hp.
    destruct (fallen (physics g)) eqn:Ef; [discriminate|].
    apply updatePhysics_groundAhead; try assumption. apply Hg, Hp.
Qed.

(** X14: the ground never runs out.  On a screen between 4 and 933 wide
    (so that the six start tiles reach the spawn horizon), with [Math.random]
    drawing from [0, 1), at every state of a run that is still being played
    the tile list is not empty and its newest tile ends at least one and a
    half screen widths ahead of the ball: one new tile per step is always
    enough to keep up with the camera. *)
Theorem ground_never_runs_out (rnd0 : nat -> Q) (g0 : Game)
    (es : list Event) :
  4 <= SCREEN_WIDTH -> SPAWN_AHEAD_DISTANCE <= 1400 ->
  drawn rnd0 -> Forall fair es ->
  gameState (play es (handleStart rnd0 g0)) = playing ->
  exists lastTile,
    lastOf (tiles (play es (handleStart rnd0 g0))) = Some lastTile /\
    cameraX (state (play es (handleStart rnd0 g0))) + SCREEN_WIDTH * 1.5
    <= tileRight lastTile.
Proof.
  intros Hw Hsad Hd Hf Hp.
  apply (play_groundAhead es (handleStart rnd0 g0) Hw Hsad Hf); [| |exact Hp].
  - rewrite (proj1 (handleStart_state rnd0 g0)). apply initialState_invariant.
  - intros _. apply handleStart_groundAhead; assumption.
Qed.


(** ** How many steps a frame runs *)

Lemma tick_accumulator (rnd : nat -> Q) (g : Game) :
  accumulator (state (tick rnd g)) = accumulator (state g) - TIME_STEP.
Proof.
  unfold tick. cbn [state set_state accumulator set_accumulator].
  rewrite updatePhysics_accumulator. reflexivity.
Qed.

(** In the exact arithmetic of this model the catch-up loop runs one round
    for every whole [TIME_STEP] in the accumulator and leaves the
    remainder. *)
Lemma catchUp_ticks (rnds : nat -> nat -> Q) (n fuel k : nat)
    (g : Game) :
  inject_Z (Z.of_nat n) * TIME_STEP <= accumulator (state g) ->
  accumulator (state g) < (inject_Z (Z.of_nat n) + 1) * TIME_STEP ->
  (n < fuel)%nat ->
  catchUp fuel rnds k g = Some (ticks n rnds k g) /\
  accumulator (state (ticks n rnds k g))
  == accumulator (state g) - inject_Z (Z.of_nat n) * TIME_STEP /\
  0 <= accumulator (state (ticks n rnds k g)) /\
  accumulator (state (ticks n rnds k g)) < TIME_STEP.
Proof.
  revert fuel k g. induction n as [|n IH]; intros fuel k g Hlo Hhi Hfuel;
    (destruct fuel as [|fuel]; [lia|]); cbn [catchUp ticks].
  - change (inject_Z (Z.of_nat 0)) with 0 in *.
    destruct (Qgeb (accumulator (state g)) TIME_STEP) eqn:E.
    + apply Qgeb_iff in E. exfalso. lra.
    + repeat split; [ring | lra | lra].
  - rewrite Nat2Z.inj_succ, <- Z.add_1_r, inject_Z_plus in *.
    change (inject_Z 1) with 1 in *.
    assert (Hn : 0 <= inject_Z (Z.of_nat n))
      by (change 0 with (inject_Z 0); rewrite <- Zle_Qle; lia).
    assert (Hts : 0 < TIME_STEP) by reflexivity.
    assert (E : Qgeb (accumulator (state g)) TIME_STEP = true)
      by (apply Qgeb_iff; nra).
    rewrite E.
    change (set_state _ (updatePhysics (rnds k) g)) with (tick (rnds k) g).
    destruct (IH fuel (S k) (tick (rnds k) g)) as (I1 & I2 & I3 & I4).
    + rewrite tick_accumulator. lra.
    + rewrite tick_accumulator. lra.
    + lia.
    + rewrite tick_accumulator in I2.
      repeat split; [exact I1 | rewrite I2; ring | exact I3 | exact I4].
Qed.

(** X15: how many steps a frame catches up.  When the accumulator holds
    [n] whole time steps and a remainder that is at least a thousandth of a
    millisecond away from both 0 and a whole step, the catch-up loop runs
    exactly [n] rounds of its body (any fuel above [n] makes it return), and
    what it leaves in the accumulator is that remainder to within a
    thousandth: above 0 and below one step.  Stated for up to 1000 steps in
    one frame; nothing in the loop caps their number.  At an accumulator
    that is a whole multiple of the time step, which the margins leave out,
    the count depends on how the subtractions round. *)
Theorem catch_up_step_count (rnds : nat -> nat -> Q) (n fuel k : nat)
    (g : Game) :
  (n <= 1000)%nat ->
  inject_Z (Z.of_nat n) * TIME_STEP + 1 / 1000 <= accumulator (state g) ->
  accumulator (state g)
  <= (inject_Z (Z.of_nat n) + 1) * TIME_STEP - 1 / 1000 ->
  (n < fuel)%nat ->
  catchUp fuel rnds k g = Some (ticks n rnds k g) /\
  0 < accumulator (state (ticks n rnds k g)) /\
  accumulator (state (ticks n rnds k g)) < TIME_STEP /\
  accumulator (state g) - inject_Z (Z.of_nat n) * TIME_STEP - 1 / 1000
  <= accumulator (state (ticks n rnds k g)) /\
  accumulator (state (ticks n rnds k g))
  <= accumulator (state g) - inject_Z (Z.of_nat n) * TIME_STEP + 1 / 1000.
Proof.
  intros _ Hlo Hhi Hfuel.
  destruct (catchUp_ticks rnds n fuel k g) as (E1 & E2 & _ & _);
    [qdiv; lra | qdiv; lra | exact Hfuel |].
  split; [exact E1|]. rewrite E2.
  revert Hlo Hhi. generalize (accumulator (state g)) as a.
  generalize (inject_Z (Z.of_nat n)) as m. intros m a Hlo Hhi.
  unfold TIME_STEP, TARGET_FPS in *. qdiv. repeat split; lra.
Qed.

(** X16: the first frame of a run takes no step.  With [lastTime] still 0
    the frame measures no elapsed time, so a game whose accumulator is
    below one step (as it is after a start, at 0) comes back with only the
    host time recorded and the frame counted. *)
Theorem first_frame_runs_no_step (rnds : nat -> nat -> Q) (time : Q)
    (g : Game) (fuel : nat) :
  lastTime (state g) == 0 ->
  accumulator (state g) < TIME_STEP ->
  exists g',
    gameLoop (S fuel) rnds time g = Some g' /\
    tiles g' = tiles g /\ collectibles g' = collectibles g /\
    gameState g' = gameState g /\
    snowballY (state g') = snowballY (state g) /\
    velocity (state g') = velocity (state g) /\
    cameraX (state g') = cameraX (state g) /\
    score (state g') = score (state g) /\
    lastTime (state g') = time /\
    frameCounter (state g') = (frameCounter (state g) + 1)%Z /\
    accumulator (state g') == accumulator (state g).
Proof.
  intros Hl Ha.
  destruct g as [s ts cs tc cc gs lt].
  destruct s as [y v cx sp og dj sc lti ac fc ct jb lg].
  cbn [state lastTime accumulator] in Hl, Ha.
  unfold gameLoop. cbn [state lastTime].
  apply Qeq_bool_iff in Hl. rewrite Hl.
  cbn [catchUp set_state state set_lastTime set_accumulator lastTime
       accumulator snowballY velocity cameraX speed isOnGround hasDoubleJump
       score frameCounter coyoteTimer jumpBufferTimer lastGroundY].
  destruct (Qgeb (ac + (time - time)) TIME_STEP) eqn:E.
  - apply Qgeb_iff in E. exfalso. lra.
  - eexists. split; [reflexivity|].
    cbn [set_state state set_frameCounter tiles collectibles gameState
         snowballY velocity cameraX score lastTime frameCounter accumulator].
    repeat split. cbn [accumulator set_accumulator]. ring.
Qed.

(** ** After the fall *)

Lemma frozen_along (rnds : list (nat -> Q)) (g : Game) :
  fallen g = true -> 0 <= velocity (state g) -> gameState g = gameOver ->
  gameState (play (map Step rnds) g) = gameOver /\
  fallen (play (map Step rnds) g) = true /\
  tiles (play (map Step rnds) g) = tiles g /\
  collectibles (play (map Step rnds) g) = collectibles g /\
  tileIdCounter (play (map Step rnds) g) = tileIdCounter g /\
  collectibleIdCounter (play (map Step rnds) g) = collectibleIdCounter g.
Proof.
  revert g. induction rnds as [|rnd rnds IH]; intros g Hf Hv Hg;
    cbn [map play perform].
  - repeat split; assumption.
  - destruct (step_after_fall rnd g Hf Hv) as (F1 & F2 & F3 & _).
    rewrite F3.
    destruct (IH (handleGameOver (physics g))) as (I1 & I2 & I3 & I4 & I5 & I6);
      [exact F1 | exact F2 | reflexivity |].
    repeat split; assumption.
Qed.

(** X17: the fall is final.  Once the ball is below the line and not
    moving up, every further step (the catch-up loop may still run some)
    leaves it there: the run is over, and the tiles, the collectibles and
    both id counters stay exactly as they were.  Only a tap starts again. *)
Theorem fall_is_final (rnd : nat -> Q) (rnds : list (nat -> Q)) (g : Game) :
  fallen g = true -> 0 <= velocity (state g) ->
  gameState (play (map Step (rnd :: rnds)) g) = gameOver /\
  fallen (play (map Step (rnd :: rnds)) g) = true /\
  tiles (play (map Step (rnd :: rnds)) g) = tiles g /\
  collectibles (play (map Step (rnd :: rnds)) g) = collectibles g /\
  tileIdCounter (play (map Step (rnd :: rnds)) g) = tileIdCounter g /\
  collectibleIdCounter (play (map Step (rnd :: rnds)) g)
  = collectibleIdCounter g.
Proof.
  intros Hf Hv. cbn [map play perform].
  destruct (step_after_fall rnd g Hf Hv) as (F1 & F2 & F3 & _).
  rewrite F3.
  apply (frozen_along rnds (handleGameOver (physics g)) F1 F2 eq_refl).
Qed.


(** ** What is drawn *)

(** X18: what collides is what shows.  For every tile that is drawn, on any
    screen, its box and the ball's box share horizontal extent exactly when
    the collision loop's overlap test holds; and a tile at least as wide as
    the ball that passes the overlap test is drawn, on any screen wide
    enough to hold half the tile and half the ball. *)
Theorem colliding_tile_is_drawn (tile : TileData.t) (g : Game)
    (ball : View.t) :
  Snowball g = Some ball ->
  (forall v, Tile tile (cameraX (state g)) = Some v ->
     (overlapX ball v <->
      horizontalOverlap (cameraX (state g) - SNOWBALL_SIZE / 2)
        (cameraX (state g) + SNOWBALL_SIZE / 2) tile = true)) /\
  (SNOWBALL_SIZE <= TileData.width tile ->
   TileData.width tile / 2 + SNOWBALL_SIZE / 2 <= SCREEN_WIDTH ->
   horizontalOverlap (cameraX (state g) - SNOWBALL_SIZE / 2)
     (cameraX (state g) + SNOWBALL_SIZE / 2) tile = true ->
   exists v, Tile tile (cameraX (state g)) = Some v /\ overlapX ball v).
Proof.
  intros Hb.
  assert (Eb : View.left ball = SCREEN_WIDTH / 2 - SNOWBALL_SIZE / 2 /\
               View.width ball = SNOWBALL_SIZE).
  { unfold Snowball in Hb.
    destruct (gameState g); try discriminate;
      injection Hb as <-; split; reflexivity. }
  destruct Eb as [El Ew].
  assert (Hiff : forall v, Tile tile (cameraX (state g)) = Some v ->
            (overlapX ball v <->
             horizontalOverlap (cameraX (state g) - SNOWBALL_SIZE / 2)
               (cameraX (state g) + SNOWBALL_SIZE / 2) tile = true)).
  { intros v Hv. unfold Tile in Hv. cbv zeta in Hv.
    destruct (Qltb _ _ || Qgtb _ _); [discriminate|].
    injection Hv as <-. unfold overlapX, horizontalOverlap.
    cbn [View.left View.width]. rewrite El, Ew.
    rewrite andb_true_iff, Qgtb_iff, Qltb_iff.
    unfold SNOWBALL_SIZE in *. qdiv. split; intros [H1 H2]; split; lra. }
  split; [exact Hiff|]. intros Hw Hs Hov.
  destruct (Tile tile (cameraX (state g))) as [v|] eqn:Ev.
  - exists v. split; [reflexivity|]. apply Hiff; [reflexivity | exact Hov].
  - exfalso. unfold Tile in Ev. cbv zeta in Ev.
    destruct (Qltb _ _ || Qgtb _ _) eqn:E; [|discriminate].
    unfold horizontalOverlap in Hov.
    apply andb_true_iff in Hov as [H1 H2].
    apply Qgtb_iff in H1. apply Qltb_iff in H2.
    apply orb_true_iff in E as [E|E];
      [apply Qltb_iff in E | apply Qgtb_iff in E];
      unfold SNOWBALL_SIZE in *; qdiv; lra.
Qed.

(** X19: a gift the ball can pick up is on the screen, and one that has been
    picked up is not drawn any more. *)
Theorem gift_in_reach_is_drawn (s : State) (c : CollectibleData.t) :
  40 <= SCREEN_WIDTH ->
  collectable s c = true ->
  (exists v, Collectible c (cameraX s) = Some v /\
             View.left v
             = CollectibleData.x c - cameraX s + SCREEN_WIDTH / 2) /\
  Collectible (CollectibleData.set_collected true c) (cameraX s) = None.
Proof.
  intros Hw Hc. unfold collectable, withinReach in Hc.
  apply andb_true_iff in Hc as [Hn Hr].
  apply andb_true_iff in Hr as [Hx _].
  apply negb_true_iff in Hn. apply Qltb_iff in Hx.
  apply Qabs_Qlt_condition in Hx as [Hlo Hhi].
  split; [|reflexivity].
  unfold Collectible. rewrite Hn. cbv zeta.
  destruct (Qltb _ _ || Qgtb _ _) eqn:E.
  - exfalso. apply orb_true_iff in E as [E|E];
      [apply Qltb_iff in E | apply Qgtb_iff in E]; lra.
  - eexists. split; reflexivity.
Qed.

(** ** Snow *)

(** X20: the snow pool is bounded.  A pool of at most 50 particles still has
    at most 50 after the snow phase; every particle that remains is above
    the bottom of the screen; and the phase hands out at most one id. *)
Theorem snow_pool_is_bounded (rnd : nat -> Q)
    (particles : list ParticleData.t) (particleIdCounter : Z) :
  (length particles <= 50)%nat ->
  (length (fst (snow rnd particles particleIdCounter)) <= 50)%nat /\
  Forall (fun p => ParticleData.y p < SCREEN_HEIGHT)
    (fst (snow rnd particles particleIdCounter)) /\
  (particleIdCounter <= snd (snow rnd particles particleIdCounter)
   <= particleIdCounter + 1)%Z.
Proof.
  intro Hlen. unfold snow.
  destruct ((length particles <? 50)%nat && Qltb (rnd 0%nat) 0.2) eqn:E;
    cbn [fst snd].
  - apply andb_true_iff in E as [E _]. apply Nat.ltb_lt in E.
    repeat split; try lia.
    + eapply Nat.le_trans; [apply filter_shorter|].
      rewrite length_map, length_app. cbn [length]. lia.
    + apply Forall_forall. intros p Hp.
      apply filter_In in Hp as [_ Hp]. apply Qltb_iff in Hp. exact Hp.
  - repeat split; try lia.
    + eapply Nat.le_trans; [apply filter_shorter|].
      rewrite length_map. exact Hlen.
    + apply Forall_forall. intros p Hp.
      apply filter_In in Hp as [_ Hp]. apply Qltb_iff in Hp. exact Hp.
Qed.


(** ** What the lists keep *)

Lemma pick_gap_nonneg (r : Q) : 0 <= pick GAP_SIZES r.
Proof.
  unfold pick. generalize (Z.to_nat (Qfloor (r * inject_Z (Z.of_nat
                             (length GAP_SIZES))))) as n.
  intro n. unfold GAP_SIZES.
  do 3 (destruct n as [|n]; [cbn [nth]; lra|]). destruct n; cbn [nth]; lra.
Qed.

Lemma lastOf_In {A : Type} (l : list A) (a : A) :
  lastOf l = Some a -> In a l.
Proof.
  induction l as [|b l IH]; [discriminate|].
  destruct l as [|c l].
  - cbn. intro H. injection H as ->. left. reflexivity.
  - intro H. right. apply IH. exact H.
Qed.

(** Every round of the start-up loop places its tile to the right of the
    one before. *)
Lemma initLoop_right_of (rnd : nat -> Q) (bound : Q) (n i : nat)
    (idCounter : Z) (initialTiles : list TileData.t) (prev : TileData.t) :
  Forall (fun t => bound < tileRight t) initialTiles ->
  bound < tileRight prev ->
  Forall (fun t => bound < tileRight t)
    (fst (initLoop rnd n i (TileData.x prev) (TileData.width prev)
            idCounter initialTiles)).
Proof.
  revert i idCounter initialTiles prev.
  induction n as [|n IH]; intros i idCounter initialTiles prev Hall Hp;
    cbn [initLoop].
  - exact Hall.
  - set (width := pick TILE_WIDTHS (rnd (2 * i)%nat)).
    set (gap := pick GAP_SIZES (rnd (2 * i + 1)%nat)).
    set (newTile := TileData.mk idCounter
                      (TileData.x prev + TileData.width prev / 2 + gap
                       + width / 2) width medium).
    assert (Hn : bound < tileRight newTile).
    { pose proof (pick_width_nonneg (rnd (2 * i)%nat)) as Hw.
      pose proof (pick_gap_nonneg (rnd (2 * i + 1)%nat)) as Hg.
      fold width in Hw. fold gap in Hg.
      unfold tileRight, newTile in *. cbn [TileData.x TileData.width].
      qdiv. lra. }
    apply (IH (S i) (idCounter + 1)%Z (initialTiles ++ [newTile]) newTile);
      [|exact Hn].
    apply Forall_app. split; [exact Hall|].
    constructor; [exact Hn | constructor].
Qed.

Lemma handleStart_inView (rnd : nat -> Q) (g : Game) :
  0 <= SCREEN_WIDTH -> inView (handleStart rnd g).
Proof.
  intro Hw. unfold handleStart, initGame.
  pose proof (initLoop_right_of rnd (0 - SCREEN_WIDTH) 5 0 1
                [TileData.mk 0 0 600 long] (TileData.mk 0 0 600 long)) as H.
  cbn [TileData.x TileData.width] in H.
  destruct (initLoop rnd 5 0 0 600 1 _) as [ts idc].
  unfold inView.
  cbn [state tiles collectibles set_gameState cameraX initialState fst] in *.
  split; [|constructor]. apply H.
  - constructor; [|constructor].
    unfold tileRight. cbn [TileData.x TileData.width]. qdiv. lra.
  - unfold tileRight. cbn [TileData.x TileData.width]. qdiv. lra.
Qed.

Lemma spawn_inView (rnd : nat -> Q) (g : Game) :
  Forall (fun t => cameraX (state g) - SCREEN_WIDTH < tileRight t)
    (tiles (spawn rnd g)).
Proof.
  assert (Hr : Forall (fun t => cameraX (state g) - SCREEN_WIDTH
                                < tileRight t) (retire g)).
  { apply Forall_forall. intros t Ht.
    apply filter_In in Ht as [_ Ht]. apply Qgtb_iff in Ht. exact Ht. }
  unfold spawn. destruct (lastOf (retire g)) as [lastTile|] eqn:El;
    [|exact Hr].
  destruct (Qltb _ _); [|exact Hr].
  assert (Hl : cameraX (state g) - SCREEN_WIDTH < tileRight lastTile).
  { rewrite Forall_forall in Hr. apply Hr, lastOf_In, El. }
  pose proof (pick_width_nonneg (rnd 0%nat)) as Hw.
  pose proof (pick_gap_nonneg (rnd 1%nat)) as Hg.
  destruct (Qltb _ _); cbn [tiles];
    (apply Forall_app; split; [exact Hr|]);
    (constructor; [|constructor]);
    unfold tileRight in *; cbn [TileData.x TileData.width]; qdiv; lra.
Qed.

Lemma updatePhysics_inView (rnd : nat -> Q) (g : Game) :
  fallen (physics g) = false -> inView (updatePhysics rnd g).
Proof.
  intro Hf. unfold updatePhysics. rewrite Hf.
  assert (Ec : cameraX (state (pickup (spawn rnd (physics g))))
               = cameraX (state (physics g))).
  { unfold pickup. cbn [state]. rewrite collect_state.
    cbn [cameraX set_score]. rewrite spawn_state. reflexivity. }
  unfold inView. rewrite Ec.
  rewrite (proj1 (pickup_creates_nothing (spawn rnd (physics g)))).
  rewrite (proj1 (pickup_spec (spawn rnd (physics g)))).
  split; [apply spawn_inView|].
  apply Forall_forall. intros c' Hin.
  apply in_map_iff in Hin as (c & <- & Hin).
  apply filter_In in Hin as [_ Hact]. apply Qgtb_iff in Hact.
  rewrite spawn_state in Hact.
  destruct (collectable _ c); exact Hact.
Qed.

Lemma play_inView (es : list Event) (g : Game) :
  0 <= SCREEN_WIDTH ->
  (gameState g = playing -> inView g) ->
  gameState (play es g) = playing -> inView (play es g).
Proof.
  intro Hw. revert g.
  induction es as [|[rnd now|rnd] es IH]; intros g Hg; cbn [play perform].
  - exact Hg.
  - apply IH. intros _. destruct (gameState g) eqn:Eg;
      try (unfold handleTap; rewrite Eg; apply handleStart_inView, Hw).
    destruct (tap_creates_nothing rnd now g Eg) as (E1 & _ & _ & E4).
    destruct (handleTap_speed_camera rnd now g Eg) as (_ & E2).
    unfold inView. rewrite E1, E2, E4. apply Hg. reflexivity.
  - apply IH. intro Hp. rewrite updatePhysics_gameState in Hp.
    destruct (fallen (physics g)) eqn:Ef; [discriminate|].
    apply updatePhysics_inView, Ef.
Qed.

(** X21: nothing is left behind.  While a run is being played, every tile of
    the list still has its right edge less than a screen width behind the
    ball, and so has every collectible its centre: what scrolls further
    back is dropped in the same step, so the lists do not grow with the
    length of the run. *)
Theorem nothing_left_behind (rnd0 : nat -> Q) (g0 : Game) (es : list Event) :
  0 <= SCREEN_WIDTH ->
  gameState (play es (handleStart rnd0 g0)) = playing ->
  Forall (fun t => cameraX (state (play es (handleStart rnd0 g0)))
                   - SCREEN_WIDTH < tileRight t)
    (tiles (play es (handleStart rnd0 g0))) /\
  Forall (fun c => cameraX (state (play es (handleStart rnd0 g0)))
                   - SCREEN_WIDTH < CollectibleData.x c)
    (collectibles (play es (handleStart rnd0 g0))).
Proof.
  intros Hw Hp.
  apply (play_inView es (handleStart rnd0 g0) Hw); [|exact Hp].
  intros _. apply handleStart_inView, Hw.
Qed.

End Properties.

(** * Concrete runs *)

(** Orders between computed rationals. *)
Ltac qcompute := vm_compute; solve [reflexivity | discriminate].

(** C1, as stated, fails: this ball comes down with [hasDoubleJump] set,
    meets all three landing conditions, and the landing clears the flag
    instead of setting it. *)
Lemma landing_clears_double_jump :
  overPlatform (descending 0) = true /\
  0 <= snowballY (moved (state (descending 0))) + SNOWBALL_SIZE
       - TILE_Y (screen := phone) /\
  snowballY (moved (state (descending 0))) + SNOWBALL_SIZE
  - TILE_Y (screen := phone) <= LANDING_TOLERANCE /\
  0 <= velocity (moved (state (descending 0))) /\
  hasDoubleJump (state (descending 0)) = true /\
  hasDoubleJump (state (physics (screen := phone) (descending 0))) <> true.
Proof.
  repeat split; try qcompute.
Qed.

(** The same ball, through [landing_snaps_onto_surface]. *)
Lemma landing_snaps_onto_surface_witness :
  let g := descending 0 in
  let snapped := land (TILE_Y (screen := phone)) (moved (state g)) in
  lands (screen := phone) g = true /\
  state (physics (screen := phone) g) = autoJump snapped /\
  (snowballY snapped + SNOWBALL_SIZE == TILE_Y (screen := phone) /\
   velocity snapped = 0 /\
   isOnGround snapped = true /\
   hasDoubleJump snapped = false /\
   coyoteTimer snapped = 8%Z /\
   lastGroundY snapped = snowballY snapped) /\
  (snowballY (state (physics (screen := phone) g)) + SNOWBALL_SIZE
   == TILE_Y (screen := phone) /\
   coyoteTimer (state (physics (screen := phone) g)) = 8%Z /\
   lastGroundY (state (physics (screen := phone) g))
   = snowballY (state (physics (screen := phone) g))) /\
  ((jumpBufferTimer (moved (state g)) <= 0)%Z ->
   state (physics (screen := phone) g) = snapped).
Proof.
  apply (landing_snaps_onto_surface (screen := phone) (descending 0));
    qcompute.
Defined.

(** C2, evaluated on a landing with a buffered jump (tap three frames
    before touchdown).  The step ends with the jump velocity, airborne, the
    double jump armed and the buffer cleared, as a tapped ground jump from
    the touchdown state would; but the coyote timer stays at 8 where the
    tapped jump sets it to 0.  Two frames later the ball is in the air,
    rising at 12.8, still inside that coyote window: a tap is taken as one
    more ground jump and leaves the double jump armed. *)
Theorem buffered_landing_keeps_coyote_window :
  let g := descending 3 in
  let touchdown :=
    set_state (land (TILE_Y (screen := phone)) (moved (state g))) g in
  let air := play (screen := phone) [Step half; Step half; Step half] g in
  lands (screen := phone) g = true /\
  (0 < jumpBufferTimer (moved (state g)))%Z /\
  velocity (state (physics (screen := phone) g)) = JUMP_FORCE /\
  isOnGround (state (physics (screen := phone) g)) = false /\
  hasDoubleJump (state (physics (screen := phone) g)) = true /\
  jumpBufferTimer (state (physics (screen := phone) g)) = 0%Z /\
  coyoteTimer (state (handleTap (screen := phone) half 1500 touchdown)) = 0%Z /\
  coyoteTimer (state (physics (screen := phone) g)) = 8%Z /\
  isOnGround (state air) = false /\
  velocity (state air) == -12.8 /\
  coyoteTimer (state air) = 6%Z /\
  velocity (state (handleTap (screen := phone) half 1500 air)) = JUMP_FORCE /\
  hasDoubleJump (state (handleTap (screen := phone) half 1500 air)) = true.
Proof.
  repeat split; vm_compute; reflexivity.
Qed.

(** C3, as stated, fails on the third tap: after the double jump a further
    tap in the air arms the jump buffer, which is part of the actor state. *)
Lemma third_tap_arms_jump_buffer :
  let g2 := handleTap (screen := phone) half 1100 rising in
  let g3 := handleTap (screen := phone) half 1150 g2 in
  velocity (state g2) = DOUBLE_JUMP_FORCE /\
  hasDoubleJump (state g2) = false /\
  jumpBufferTimer (state g2) = 0%Z /\
  jumpBufferTimer (state g3) = 6%Z /\
  state g3 <> state g2.
Proof.
  repeat split; try (vm_compute; reflexivity).
  vm_compute. discriminate.
Qed.

(** A double jump 100 ms after the first tap, then a step, a third tap and
    another step, all in the air; a fourth tap again only arms the buffer. *)
Lemma double_jump_fires_once_witness :
  let g2 := handleTap (screen := phone) half 1100 rising in
  let g3 := play (screen := phone) [Step half; Tap half 1150; Step half] g2 in
  state g2
  = set_hasDoubleJump false (set_velocity DOUBLE_JUMP_FORCE (state rising))
  /\ DOUBLE_JUMP_FORCE == -11
  /\ lastTapTime g2 = 0%Z
  /\ state (handleTap (screen := phone) half 1200 g3)
     = set_jumpBufferTimer JUMP_BUFFER_TIME (state g3).
Proof.
  apply (double_jump_fires_once (screen := phone) half 1100 rising
           [Step half; Tap half 1150; Step half] half 1200);
    try qcompute.
  vm_compute. repeat split.
Defined.

(** The first two tiles of a run after a step and a jump. *)
Lemma generated_tiles_are_chained_witness :
  let ts := tiles (play (screen := phone) [Step half; Tap half 100] opening) in
  let prev := nth 0 ts (TileData.mk 0 0 0 short) in
  let new := nth 1 ts (TileData.mk 0 0 0 short) in
  exists gap width,
    In gap [100; 150; 200] /\ In width [120; 180; 250; 400] /\
    TileData.width new = width /\
    TileData.x new = tileRight prev + gap + width / 2 /\
    tileRight prev < tileLeft new /\
    tileLeft new - tileRight prev == gap.
Proof.
  cbv zeta.
  apply (generated_tiles_are_chained (screen := phone) half
           (mounted (screen := phone)) [Step half; Tap half 100] []
           (skipn 2 (tiles (play (screen := phone)
                              [Step half; Tap half 100] opening)))).
  - intro k. split; vm_compute; [discriminate | reflexivity].
  - repeat constructor; vm_compute; solve [discriminate | reflexivity].
  - vm_compute. reflexivity.
Defined.

(** C5, evaluated on a frame that arrives 34 ms after the previous one, with
    the ball ten units above the line.  The catch-up loop runs two steps.
    The first takes the ball below the line and ends the run; the loop does
    not look at [gameState], so the second step runs as well: it creates no
    tile, but it adds [speed / 100] to the score of the ended run. *)
Theorem catch_up_scores_after_game_over :
  let g1 := updatePhysics (screen := phone) half falling in
  gameState falling = playing /\
  fallen (screen := phone) falling = false /\
  fallen (screen := phone) g1 = true /\
  gameState g1 = gameOver /\
  exists g2,
    gameLoop (screen := phone) 3 (fun _ => half) 5034 falling = Some g2 /\
    gameState g2 = gameOver /\
    tiles g2 = tiles falling /\
    score (state g1) < score (state g2) /\
    score (state g2) == score (state g1) + speed (state g2) / 100.
Proof.
  cbv zeta. repeat split; try (vm_compute; reflexivity).
  eexists. split; [vm_compute; reflexivity|].
  repeat split; vm_compute; reflexivity.
Qed.

(** C7, as stated, fails at the end of a platform: this ball rests on the
    surface with velocity 0 and nobody taps, but the step carries it past
    the edge and it is no longer grounded. *)
Lemma rolling_off_the_edge :
  restingOnSurface (screen := phone) (state atEdge) /\
  overTiles (tiles atEdge) (state atEdge) = true /\
  gameState atEdge = playing /\
  isOnGround (state (updatePhysics (screen := phone) half atEdge)) = false /\
  coyoteTimer (state (updatePhysics (screen := phone) half atEdge)) = 8%Z.
Proof.
  repeat split; vm_compute; reflexivity.
Qed.

(** Three steps from the start of a run, all on the start platform. *)
Lemma resting_stays_grounded_witness :
  restingOnSurface (screen := phone)
    (state (play (screen := phone) (map Step [half; half; half])
              (play (screen := phone) [] opening))) /\
  gameState (play (screen := phone) (map Step [half; half; half])
               (play (screen := phone) [] opening))
  = gameState (play (screen := phone) [] opening).
Proof.
  apply (resting_stays_grounded (screen := phone) half
           (mounted (screen := phone)) [] [half; half; half]).
  - vm_compute. repeat split.
  - vm_compute. repeat split.
Defined.

(** A ball rolling into a gift, and the gift followed through a step, a
    jump and another step. *)
Lemma collectible_collected_once_witness :
  In (CollectibleData.set_collected true gift)
     (collectibles (updatePhysics (screen := phone) half rolling)) /\
  score (state (updatePhysics (screen := phone) half rolling))
  == score (state (physics (screen := phone) rolling))
     + 10 * inject_Z (Z.of_nat (pickedUp (screen := phone) half rolling)) /\
  (1 <= pickedUp (screen := phone) half rolling)%nat /\
  (forall c',
      In c' (collectibles (updatePhysics (screen := phone) half rolling)) ->
      collectable (screen := phone)
        (state (updatePhysics (screen := phone) half rolling)) c'
      = false) /\
  pickup (screen := phone) (updatePhysics (screen := phone) half rolling)
  = updatePhysics (screen := phone) half rolling /\
  (forall c',
      In c' (collectibles
               (play (screen := phone) [Step half; Tap half 7000; Step half]
                  (updatePhysics (screen := phone) half rolling))) ->
      CollectibleData.id c' = CollectibleData.id gift ->
      c' = CollectibleData.set_collected true gift) /\
  (forall c',
      In c' (picks (screen := phone) half
               (play (screen := phone) [Step half; Tap half 7000; Step half]
                  (updatePhysics (screen := phone) half rolling))) ->
      CollectibleData.id c' <> CollectibleData.id gift).
Proof.
  destruct (collectible_collected_once (screen := phone) half rolling gift)
    as (H1 & H2 & H3 & H4 & H5 & _ & H7).
  - vm_compute. auto.
  - reflexivity.
  - vm_compute. reflexivity.
  - vm_compute. reflexivity.
  - assert (Hfresh : freshIds rolling).
    { split.
      - constructor; [intros [H|[]]; discriminate|].
        constructor; [intros []|constructor].
      - constructor; [reflexivity|]. constructor; [reflexivity|constructor]. }
    assert (Hw : withinRun (screen := phone)
                   [Step half; Tap half 7000; Step half]
                   (updatePhysics (screen := phone) half rolling)).
    { split; [exact I|]. split; [vm_compute; reflexivity|].
      split; [exact I | exact I]. }
    destruct (H7 Hfresh [Step half; Tap half 7000; Step half] half Hw)
      as [K1 K2].
    split; [exact H1|]. split; [exact H2|]. split; [exact H3|].
    split; [exact H4|]. split; [exact H5|]. split; [exact K1 | exact K2].
Defined.

(** After those three events the gift is still in the list, collected. *)
Lemma gift_is_kept :
  In (CollectibleData.set_collected true gift)
     (collectibles
        (play (screen := phone) [Step half; Tap half 7000; Step half]
           (updatePhysics (screen := phone) half rolling))).
Proof. vm_compute. auto. Qed.

(** A run whose tiles have all been retired, followed for three more events. *)
Lemma no_tiles_is_absorbing_witness :
  tiles (updatePhysics (screen := phone) half stranded) = [] /\
  tiles (play (screen := phone) [Step half; Tap half 7000; Step half]
           (updatePhysics (screen := phone) half stranded)) = [] /\
  tileIdCounter (play (screen := phone) [Step half; Tap half 7000; Step half]
                   (updatePhysics (screen := phone) half stranded))
  = tileIdCounter stranded /\
  collectibleIdCounter
    (play (screen := phone) [Step half; Tap half 7000; Step half]
       (updatePhysics (screen := phone) half stranded))
  = collectibleIdCounter stranded /\
  incl (collectibleIds
          (play (screen := phone) [Step half; Tap half 7000; Step half]
             (updatePhysics (screen := phone) half stranded)))
       (collectibleIds stranded).
Proof.
  apply (no_tiles_is_absorbing (screen := phone) half stranded
           [Step half; Tap half 7000; Step half]).
  - vm_compute. reflexivity.
  - vm_compute. reflexivity.
  - vm_compute. repeat split.
Defined.

(** * Concrete runs for the further properties *)

(** Three steps into the opening run: each of them lets the ball sink by
    its first 0.6 of gravity and lands it again. *)
Lemma grounded_ball_rests_witness :
  let g := play (screen := phone) [Step half; Step half; Step half] opening in
  snowballY (state g) = TILE_Y (screen := phone) - SNOWBALL_SIZE /\
  velocity (state g) = 0 /\
  lastGroundY (state g) = snowballY (state g) /\
  hasDoubleJump (state g) = false /\
  jumpBufferTimer (state g) = 0%Z.
Proof.
  apply (grounded_ball_rests (screen := phone) half
           (mounted (screen := phone)) [Step half; Step half; Step half]).
  vm_compute. reflexivity.
Defined.

(** The ball of [atEdge] rolls off; two steps later a tap still jumps. *)
Lemma coyote_window_witness :
  let g' := play (screen := phone) (map Step [half; half])
              (updatePhysics (screen := phone) half atEdge) in
  coyoteTimer (state g') = Z.max (8 - Z.of_nat (length [half; half])) 0 /\
  state (handleTap (screen := phone) half 9000 g')
  = if (length [half; half] <? 8)%nat
    then set_hasDoubleJump true
           (set_coyoteTimer 0
              (set_isOnGround false (set_velocity JUMP_FORCE (state g'))))
    else set_jumpBufferTimer JUMP_BUFFER_TIME (state g').
Proof.
  apply (coyote_window (screen := phone) half atEdge [half; half] half 9000);
    try qcompute.
  vm_compute. repeat split.
Defined.

(** A late tap just before touchdown: the landing becomes a jump. *)
Lemma jump_buffer_window_witness :
  let g2 := handleTap (screen := phone) half 1400 (descending 0) in
  jumpBufferTimer (state g2) = 6%Z /\
  velocity (state (updatePhysics (screen := phone) half
                     (play (screen := phone) (map Step []) g2)))
  = (if (length (@nil (nat -> Q)) <? 5)%nat then JUMP_FORCE else 0) /\
  isOnGround (state (updatePhysics (screen := phone) half
                       (play (screen := phone) (map Step []) g2)))
  = negb (length (@nil (nat -> Q)) <? 5)%nat /\
  jumpBufferTimer (state (updatePhysics (screen := phone) half
                            (play (screen := phone) (map Step []) g2)))
  = 0%Z.
Proof.
  apply (jump_buffer_window (screen := phone) half 1400 (descending 0) []
           half); try qcompute.
  right. vm_compute. discriminate.
Defined.


(** A jump from the start platform and a second tap 120 ms later. *)
Lemma double_tap_window_witness :
  let g' := play (screen := phone) (map Step [half])
              (handleTap (screen := phone) half 1000 opening) in
  state (handleTap (screen := phone) half 1120 g')
  = (if (1120 - 1000 <? 300)%Z
     then set_hasDoubleJump false (set_velocity DOUBLE_JUMP_FORCE (state g'))
     else set_jumpBufferTimer JUMP_BUFFER_TIME (state g')) /\
  lastTapTime (handleTap (screen := phone) half 1120 g')
  = (if (1120 - 1000 <? 300)%Z then 0 else 1120)%Z.
Proof.
  apply (double_tap_window (screen := phone) half 1000 opening [half] half
           1120); try qcompute.
  - left. vm_compute. reflexivity.
  - vm_compute. repeat split.
Defined.

(** A jump at the start of the opening run, three steps into the flight. *)
Lemma jump_arc_witness :
  let g' := play (screen := phone) (map Step [half; half; half])
              (handleTap (screen := phone) half 1000 opening) in
  velocity (state g') < 0 /\
  snowballY (state opening) - 157 < snowballY (state g') /\
  snowballY (state g') < snowballY (state opening).
Proof.
  destruct (jump_arc (screen := phone) half (mounted (screen := phone)) []
              opening half 1000 [half; half; half])
    as (H1 & _ & H3 & H4 & _).
  - reflexivity.
  - reflexivity.
  - left. reflexivity.
  - vm_compute. repeat split.
  - cbv zeta. split; [|split].
    + apply H1. cbn [length]. lia.
    + exact H3.
    + apply H4. cbn [length]. lia.
Defined.


(** The opening run, one jump and three steps in. *)
Lemma speed_ramp_witness :
  let es := [Tap half 1000; Step half; Step half; Step half] in
  let sp := speed (state (play (screen := phone) es
                            (handleStart (screen := phone) half
                               (mounted (screen := phone))))) in
  sp < MAX_SPEED /\
  INITIAL_SPEED + inject_Z (Z.of_nat (stepCount es)) * SPEED_INCREMENT
  - 1 / 1000000 <= sp /\
  sp <= INITIAL_SPEED + inject_Z (Z.of_nat (stepCount es)) * SPEED_INCREMENT
        + 1 / 1000000.
Proof.
  apply (speed_ramp (screen := phone) half (mounted (screen := phone))
           [Tap half 1000; Step half; Step half; Step half]).
  - vm_compute. repeat split.
  - vm_compute. discriminate.
Defined.

(** The ball of [descending] comes down onto the first tile. *)
Lemma no_tunnelling_witness :
  lands (screen := phone) (descending 0) = true /\
  snowballY (state (updatePhysics (screen := phone) half (descending 0)))
  = TILE_Y (screen := phone) - SNOWBALL_SIZE.
Proof.
  apply (no_tunnelling (screen := phone) half (descending 0)); qcompute.
Defined.


(** The opening run after a jump and a step. *)
Lemma ground_never_runs_out_witness :
  exists lastTile,
    lastOf (tiles (play (screen := phone) [Tap half 100; Step half]
                     (handleStart (screen := phone) half
                        (mounted (screen := phone)))))
    = Some lastTile /\
    cameraX (state (play (screen := phone) [Tap half 100; Step half]
                      (handleStart (screen := phone) half
                         (mounted (screen := phone)))))
    + SCREEN_WIDTH (Screen := phone) * 1.5
    <= tileRight lastTile.
Proof.
  apply (ground_never_runs_out (screen := phone) half
           (mounted (screen := phone)) [Tap half 100; Step half]).
  - vm_compute. discriminate.
  - vm_compute. discriminate.
  - intro k. split; vm_compute; [discriminate | reflexivity].
  - repeat constructor; vm_compute; solve [discriminate | reflexivity].
  - vm_compute. reflexivity.
Defined.


(** A frame that finds 40 ms in the accumulator runs two steps. *)
Lemma catch_up_step_count_witness :
  let g := set_state (set_accumulator 40 (state rising)) rising in
  catchUp (screen := phone) 5 (fun _ => half) 0 g
  = Some (ticks (screen := phone) 2 (fun _ => half) 0 g) /\
  0 < accumulator (state (ticks (screen := phone) 2 (fun _ => half) 0 g)) /\
  accumulator (state (ticks (screen := phone) 2 (fun _ => half) 0 g))
  < TIME_STEP /\
  accumulator (state g) - inject_Z (Z.of_nat 2) * TIME_STEP - 1 / 1000
  <= accumulator (state (ticks (screen := phone) 2 (fun _ => half) 0 g)) /\
  accumulator (state (ticks (screen := phone) 2 (fun _ => half) 0 g))
  <= accumulator (state g) - inject_Z (Z.of_nat 2) * TIME_STEP + 1 / 1000.
Proof.
  apply (catch_up_step_count (screen := phone) (fun _ => half) 2 5 0
           (set_state (set_accumulator 40 (state rising)) rising)).
  - lia.
  - vm_compute. discriminate.
  - vm_compute. discriminate.
  - lia.
Defined.

(** The first frame of the opening run. *)
Lemma first_frame_runs_no_step_witness :
  exists g',
    gameLoop (screen := phone) 1 (fun _ => half) 5000 opening = Some g' /\
    tiles g' = tiles opening /\ collectibles g' = collectibles opening /\
    gameState g' = gameState opening /\
    snowballY (state g') = snowballY (state opening) /\
    velocity (state g') = velocity (state opening) /\
    cameraX (state g') = cameraX (state opening) /\
    score (state g') = score (state opening) /\
    lastTime (state g') = 5000 /\
    frameCounter (state g') = (frameCounter (state opening) + 1)%Z /\
    accumulator (state g') == accumulator (state opening).
Proof.
  apply (first_frame_runs_no_step (screen := phone) (fun _ => half) 5000
           opening 0); qcompute.
Defined.

(** The ball of [falling], two steps after it has crossed the line. *)
Lemma fall_is_final_witness :
  let g := updatePhysics (screen := phone) half falling in
  gameState (play (screen := phone) (map Step [half; half]) g) = gameOver /\
  fallen (screen := phone) (play (screen := phone) (map Step [half; half]) g)
  = true /\
  tiles (play (screen := phone) (map Step [half; half]) g) = tiles g /\
  collectibles (play (screen := phone) (map Step [half; half]) g)
  = collectibles g /\
  tileIdCounter (play (screen := phone) (map Step [half; half]) g)
  = tileIdCounter g /\
  collectibleIdCounter (play (screen := phone) (map Step [half; half]) g)
  = collectibleIdCounter g.
Proof.
  apply (fall_is_final (screen := phone) half [half]
           (updatePhysics (screen := phone) half falling)).
  - vm_compute. reflexivity.
  - vm_compute. discriminate.
Defined.


(** The start tile under the ball of the opening run. *)
Lemma colliding_tile_is_drawn_witness :
  let tile := TileData.mk 0 0 600 long in
  let ball := View.mk (SCREEN_WIDTH (Screen := phone) / 2 - SNOWBALL_SIZE / 2)
                (snowballY (state opening)) SNOWBALL_SIZE SNOWBALL_SIZE in
  (forall v, Tile (screen := phone) tile (cameraX (state opening)) = Some v ->
     (overlapX ball v <->
      horizontalOverlap (cameraX (state opening) - SNOWBALL_SIZE / 2)
        (cameraX (state opening) + SNOWBALL_SIZE / 2) tile = true)) /\
  (exists v, Tile (screen := phone) tile (cameraX (state opening)) = Some v
             /\ overlapX ball v).
Proof.
  destruct (colliding_tile_is_drawn (screen := phone)
              (TileData.mk 0 0 600 long) opening
              (View.mk (SCREEN_WIDTH (Screen := phone) / 2
                        - SNOWBALL_SIZE / 2)
                 (snowballY (state opening)) SNOWBALL_SIZE SNOWBALL_SIZE))
    as [H1 H2].
  - reflexivity.
  - cbv zeta. split; [exact H1|]. apply H2.
    + vm_compute. discriminate.
    + vm_compute. discriminate.
    + vm_compute. reflexivity.
Defined.

(** The gift of [rolling], twenty ahead of a resting ball. *)
Lemma gift_in_reach_is_drawn_witness :
  (exists v, Collectible (screen := phone) gift (cameraX (state rolling))
             = Some v /\
             View.left v
             = CollectibleData.x gift - cameraX (state rolling)
               + SCREEN_WIDTH (Screen := phone) / 2) /\
  Collectible (screen := phone) (CollectibleData.set_collected true gift)
    (cameraX (state rolling)) = None.
Proof.
  apply (gift_in_reach_is_drawn (screen := phone) (state rolling) gift).
  - vm_compute. discriminate.
  - vm_compute. reflexivity.
Defined.

(** The pool of [flurry] with a draw of one tenth: a particle is spawned
    with id 7, the first flake moves on, the second leaves the screen. *)
Lemma snow_pool_is_bounded_witness :
  (length (fst (snow (screen := phone) tenth flurry 7)) <= 50)%nat /\
  Forall (fun p => ParticleData.y p < SCREEN_HEIGHT (Screen := phone))
    (fst (snow (screen := phone) tenth flurry 7)) /\
  (7 <= snd (snow (screen := phone) tenth flurry 7) <= 7 + 1)%Z.
Proof.
  apply (snow_pool_is_bounded (screen := phone) tenth flurry 7). cbn. lia.
Defined.

(** What that phase leaves: the first flake one step further, and the new
    one. *)
Lemma snow_on_flurry :
  map ParticleData.id (fst (snow (screen := phone) tenth flurry 7)) = [3; 7]%Z
  /\ snd (snow (screen := phone) tenth flurry 7) = 8%Z.
Proof. vm_compute. split; reflexivity. Qed.


(** The opening run after two steps. *)
Lemma nothing_left_behind_witness :
  Forall (fun t => cameraX (state (play (screen := phone)
                                     [Step half; Step half]
                                     (handleStart (screen := phone) half
                                        (mounted (screen := phone)))))
                   - SCREEN_WIDTH (Screen := phone) < tileRight t)
    (tiles (play (screen := phone) [Step half; Step half]
              (handleStart (screen := phone) half
                 (mounted (screen := phone))))) /\
  Forall (fun c => cameraX (state (play (screen := phone)
                                     [Step half; Step half]
                                     (handleStart (screen := phone) half
                                        (mounted (screen := phone)))))
                   - SCREEN_WIDTH (Screen := phone) < CollectibleData.x c)
    (collectibles (play (screen := phone) [Step half; Step half]
                     (handleStart (screen := phone) half
                        (mounted (screen := phone))))).
Proof.
  apply (nothing_left_behind (screen := phone) half
           (mounted (screen := phone)) [Step half; Step half]).
  - vm_compute. discriminate.
  - vm_compute. reflexivity.
Defined.
